(** * The query pipeline of intelligent-schema: a shallow embedding

    The development follows the source tree under [app/]: one module per
    Python module, each holding the embedding of the functions that module
    defines, followed by the facts proved about them.

    Conventions.
    - Python exceptions are values of [exn]; a function that may raise returns
      [result A], and statements are sequenced with the error monad below.
    - Python [str] is [string], exact on ASCII text ([str.lower] is taken on
      ASCII).  The query intent of [sql_generator.py], which the code searches
      for numbers, is the list of its code points, with [str.lower] and the
      digits of the Unicode database as the interpreter has them.
    - Python [int] is [Z].  The interpreter's limit on the number of digits
      [int()] converts is part of [sql_generator.py], where the text of a
      request reaches [int()], and is left out elsewhere.  JSON numbers and
      clock readings are exact rationals [Q] (the rounding of binary floating
      point is not modelled).
    - A [dict] used as a keyed store is a [gmap]; a [dict] or list whose order
      the code observes is a list. *)

From Stdlib Require Import ZArith QArith Lqa Lia Bool Ascii String List.
From Stdlib Require Import DecimalString DecimalPos Sorted.
From stdpp Require Import gmap strings list fin_maps.
Import ListNotations.

Local Open Scope string_scope.
Local Open Scope Z_scope.

(** ** Python values shared by the modules *)

Module Py.

(** The exception classes the pipeline raises or lets through.
    [SQLValidationError] subclasses [ValueError] in [sql_validator.py];
    [RateLimitExceeded] is declared in [pipeline.py]. *)
Inductive exn : Type :=
| SQLValidationError (msg : string)
| ValueError (msg : string)
| RateLimitExceeded (msg : string)
| AttributeError (msg : string)
| TypeError (msg : string)
| KeyError (key : string)
| IndexError (msg : string)
| OSError (msg : string)
| OtherError (msg : string).

Inductive result (A : Type) : Type :=
| Ok (a : A)
| Raise (e : exn).
Arguments Ok {A} a.
Arguments Raise {A} e.

(** Sequencing: the first exception raised ends the computation.  The
    instances give [result] stdpp's notations [x ← m; k] and [m ;; k]. *)
#[global]
Instance result_ret : MRet result := fun A a => Ok a.
#[global]
Instance result_bind : MBind result := fun A B k m =>
  match m with
  | Ok a => k a
  | Raise e => Raise e
  end.

Definition returns {A : Type} (m : result A) : bool :=
  match m with Ok _ => true | Raise _ => false end.

Definition raises {A : Type} (m : result A) : bool := negb (returns m).

(** *** Strings *)

Definition is_upper (c : ascii) : bool :=
  let n := nat_of_ascii c in (Nat.leb 65 n && Nat.leb n 90)%bool.

Definition lower_ascii (c : ascii) : ascii :=
  if is_upper c then ascii_of_nat (nat_of_ascii c + 32) else c.

(** [s.lower()] *)
Fixpoint lower (s : string) : string :=
  match s with
  | EmptyString => EmptyString
  | String c s' => String (lower_ascii c) (lower s')
  end.

(** [s.startswith(p)] *)
Fixpoint startswith (p s : string) : bool :=
  match p, s with
  | EmptyString, _ => true
  | String _ _, EmptyString => false
  | String a p', String b s' => if Ascii.eqb a b then startswith p' s' else false
  end.

(** [needle in hay] *)
Fixpoint contains (needle hay : string) : bool :=
  if startswith needle hay then true
  else match hay with
       | EmptyString => false
       | String _ hay' => contains needle hay'
       end.

Definition is_digit (c : ascii) : bool :=
  let n := nat_of_ascii c in (Nat.leb 48 n && Nat.leb n 57)%bool.

Definition digit_val (c : ascii) : Z := Z.of_nat (nat_of_ascii c) - 48.

(** [str(n)] for an [int]. *)
Definition str_of_Z (n : Z) : string := NilZero.string_of_int (Z.to_int n).

Definition is_space (c : ascii) : bool :=
  let n := nat_of_ascii c in
  (Nat.eqb n 32 || (Nat.leb 9 n && Nat.leb n 13) || (Nat.leb 28 n && Nat.leb n 31))%bool.

Fixpoint lstrip (s : string) : string :=
  match s with
  | String c s' => if is_space c then lstrip s' else s
  | EmptyString => EmptyString
  end.

Fixpoint rstrip (s : string) : string :=
  match s with
  | EmptyString => EmptyString
  | String c s' =>
      match rstrip s' with
      | EmptyString => if is_space c then EmptyString else String c EmptyString
      | r => String c r
      end
  end.

Definition strip (s : string) : string := rstrip (lstrip s).

(** The digits of an [int()] literal: groups of decimal digits, a single
    underscore allowed between two digits.  [after_digit] tells whether the
    previous character was a digit; the accumulator is the value so far. *)
Fixpoint int_digits (after_digit : bool) (acc : Z) (s : string) : option Z :=
  match s with
  | EmptyString => if after_digit then Some acc else None
  | String c s' =>
      if is_digit c then int_digits true (10 * acc + digit_val c) s'
      else if (Ascii.eqb c "_" && after_digit)%bool then
        match s' with
        | String d _ => if is_digit d then int_digits false acc s' else None
        | EmptyString => None
        end
      else None
  end.

(** [int(s)] on a [str], base 10: surrounding whitespace, an optional sign,
    then digits.  [None] stands for the [ValueError] Python raises. *)
Definition py_int (s : string) : option Z :=
  match strip s with
  | String "+" r => int_digits false 0 r
  | String "-" r => option_map Z.opp (int_digits false 0 r)
  | r => int_digits false 0 r
  end.

(** *** Insertion-ordered dictionaries

    [d.get(key)] *)
Fixpoint dict_get {V : Type} (d : list (string * V)) (key : string) : option V :=
  match d with
  | [] => None
  | (k, v) :: d' => if String.eqb k key then Some v else dict_get d' key
  end.

(** [d[key] = v]: overwrite in place, or append a new entry. *)
Fixpoint dict_set {V : Type} (d : list (string * V)) (key : string) (v : V)
  : list (string * V) :=
  match d with
  | [] => [(key, v)]
  | (k, v0) :: d' =>
      if String.eqb k key then (k, v) :: d' else (k, v0) :: dict_set d' key v
  end.

(** JSON documents as [json.loads] decodes them. *)
#[warnings="-register-all"]
Inductive value : Type :=
| JNull
| JBool (b : bool)
| JInt (n : Z)
| JFloat (q : Q)
| JStr (s : string)
| JList (l : list value)
| JDict (d : list (string * value)).

(** The number a value stands for in a comparison ([bool] is an [int]). *)
Definition number (v : value) : option Q :=
  match v with
  | JBool b => Some (if b then 1%Q else 0%Q)
  | JInt n => Some (inject_Z n)
  | JFloat q => Some q
  | _ => None
  end.

Definition Qgtb (a b : Q) : bool := negb (Qle_bool a b).
Definition Qltb (a b : Q) : bool := negb (Qle_bool b a).

(** [v > bound] for a decoded value and a number. *)
Definition gt (v : value) (bound : Q) : result bool :=
  match number v with
  | Some q => Ok (Qgtb q bound)
  | None => Raise (TypeError "'>' not supported")
  end.

Arguments gt : simpl never.

(** [v.get(key, dflt)]: only a [dict] has the method. *)
Definition get (v : value) (key : string) (dflt : value) : result value :=
  match v with
  | JDict d => Ok (default dflt (dict_get d key))
  | _ => Raise (AttributeError "get")
  end.

(** [v[key]] *)
Definition subscript (v : value) (key : string) : result value :=
  match v with
  | JDict d => match dict_get d key with
               | Some x => Ok x
               | None => Raise (KeyError key)
               end
  | JList _ | JStr _ => Raise (TypeError "indices must be integers")
  | _ => Raise (TypeError "object is not subscriptable")
  end.

(** [v.keys()] and [v.items()] *)
Definition keys (v : value) : result (list string) :=
  match v with
  | JDict d => Ok (map fst d)
  | _ => Raise (AttributeError "keys")
  end.

Definition items (v : value) : result (list (string * value)) :=
  match v with
  | JDict d => Ok d
  | _ => Raise (AttributeError "items")
  end.

Fixpoint chars (s : string) : list string :=
  match s with
  | EmptyString => []
  | String c s' => String c EmptyString :: chars s'
  end.

(** What [for x in v] goes through. *)
Definition iter (v : value) : result (list value) :=
  match v with
  | JList l => Ok l
  | JStr s => Ok (map JStr (chars s))
  | JDict d => Ok (map (fun kv => JStr (fst kv)) d)
  | _ => Raise (TypeError "object is not iterable")
  end.

(** [v in allowed] for a set of strings: lists and dicts cannot be hashed,
    and no other value equals a string. *)
Definition member (v : value) (allowed : gset string) : result bool :=
  match v with
  | JStr s => Ok (bool_decide (s ∈ allowed))
  | JList _ | JDict _ => Raise (TypeError "unhashable type")
  | _ => Ok false
  end.

(** [bool(v)]: [None], zero, and the empty string, list and dict are false. *)
Definition truthy (v : value) : bool :=
  match v with
  | JNull => false
  | JBool b => b
  | JInt n => negb (n =? 0)
  | JFloat q => negb (Qeq_bool q 0)
  | JStr s => negb (String.eqb s "")
  | JList l => match l with [] => false | _ => true end
  | JDict d => match d with [] => false | _ => true end
  end.

(** [s.split(sep)] for a one-character separator. *)
Fixpoint split_on (sep : ascii) (s : string) : list string :=
  match s with
  | EmptyString => [EmptyString]
  | String c s' =>
      if Ascii.eqb c sep then EmptyString :: split_on sep s'
      else match split_on sep s' with
           | part :: parts => String c part :: parts
           | [] => [String c EmptyString]
           end
  end.

(** A [for] loop whose body may raise. *)
Fixpoint for_each {A : Type} (body : A -> result unit) (l : list A) : result unit :=
  match l with
  | [] => Ok tt
  | x :: l' => body x ;; for_each body l'
  end.

End Py.


Import Py.

(** ** More of Python: slices, and [int] of [str] *)

Module PyFacts.

(** [seq[:n]] *)
Definition prefix {A : Type} (n : Z) (seq : list A) : list A :=
  if n >=? 0 then take (Z.to_nat n) seq
  else take (length seq - Z.to_nat (- n)) seq.

(** The value of a decimal numeral read after the digits worth [acc]. *)
Fixpoint uint_value (d : Decimal.uint) (acc : Z) : Z :=
  match d with
  | Decimal.Nil => acc
  | Decimal.D0 d' => uint_value d' (10 * acc)
  | Decimal.D1 d' => uint_value d' (10 * acc + 1)
  | Decimal.D2 d' => uint_value d' (10 * acc + 2)
  | Decimal.D3 d' => uint_value d' (10 * acc + 3)
  | Decimal.D4 d' => uint_value d' (10 * acc + 4)
  | Decimal.D5 d' => uint_value d' (10 * acc + 5)
  | Decimal.D6 d' => uint_value d' (10 * acc + 6)
  | Decimal.D7 d' => uint_value d' (10 * acc + 7)
  | Decimal.D8 d' => uint_value d' (10 * acc + 8)
  | Decimal.D9 d' => uint_value d' (10 * acc + 9)
  end.

Lemma uint_value_acc (d : Decimal.uint) (acc : positive) :
  Z.pos (Pos.of_uint_acc d acc) = uint_value d (Z.pos acc).
Proof.
  revert acc. induction d; intros acc; simpl; [reflexivity|..];
    rewrite IHd; f_equal; lia.
Qed.

Lemma uint_value_of_uint (d : Decimal.uint) :
  Z.of_N (Pos.of_uint d) = uint_value d 0.
Proof.
  induction d; simpl; try reflexivity; try exact IHd;
    rewrite uint_value_acc; reflexivity.
Qed.

Lemma int_digits_numeral (d : Decimal.uint) (after_digit : bool) (acc : Z) :
  d <> Decimal.Nil \/ after_digit = true ->
  int_digits after_digit acc (NilEmpty.string_of_uint d) = Some (uint_value d acc).
Proof.
  revert after_digit acc. induction d; intros b acc H; simpl;
    [destruct H as [H | ->]; [now destruct H | reflexivity] | ..];
    (rewrite IHd by auto;
     match goal with
     | |- context [digit_val ?c] =>
         let v := eval vm_compute in (digit_val c) in change (digit_val c) with v
     end;
     do 2 f_equal; lia).
Qed.

Lemma rstrip_numeral (d : Decimal.uint) :
  rstrip (NilEmpty.string_of_uint d) = NilEmpty.string_of_uint d.
Proof.
  induction d; simpl; [reflexivity|..]; rewrite IHd;
    now destruct (NilEmpty.string_of_uint d).
Qed.

Lemma string_of_uint_nonnil (d : Decimal.uint) :
  d <> Decimal.Nil -> NilZero.string_of_uint d = NilEmpty.string_of_uint d.
Proof. destruct d; [intros H; now destruct H | reflexivity..]. Qed.

Lemma lstrip_numeral (d : Decimal.uint) :
  lstrip (NilEmpty.string_of_uint d) = NilEmpty.string_of_uint d.
Proof. destruct d; reflexivity. Qed.

Lemma py_int_numeral (d : Decimal.uint) :
  d <> Decimal.Nil -> py_int (NilEmpty.string_of_uint d) = Some (uint_value d 0).
Proof.
  intros Hnil. unfold py_int, strip. rewrite lstrip_numeral, rstrip_numeral.
  rewrite <- (int_digits_numeral d false 0) by auto.
  destruct d; reflexivity.
Qed.

(** [int(str(n)) == n] *)
Lemma py_int_str_of_Z (n : Z) : py_int (str_of_Z n) = Some n.
Proof.
  unfold str_of_Z. destruct n as [|p|p]; [reflexivity| |];
    pose proof (Unsigned.to_uint_nonnil p) as Hnil;
    pose proof (DecimalPos.Unsigned.of_to p) as Hval;
    apply (f_equal Z.of_N) in Hval; rewrite uint_value_of_uint in Hval;
    simpl Z.to_int; simpl NilZero.string_of_int;
    rewrite (string_of_uint_nonnil _ Hnil).
  - rewrite py_int_numeral by exact Hnil. now rewrite Hval.
  - unfold py_int, strip.
    change (lstrip (String "-" ?s)) with (String "-" s).
    assert (Hr : rstrip (String "-" (NilEmpty.string_of_uint (Pos.to_uint p)))
                 = String "-" (NilEmpty.string_of_uint (Pos.to_uint p))).
    { simpl. rewrite rstrip_numeral.
      destruct (Pos.to_uint p); [now destruct Hnil | reflexivity..]. }
    rewrite Hr. cbv iota beta.
    rewrite (int_digits_numeral _ false 0) by auto. simpl. now rewrite Hval.
Qed.

End PyFacts.

(** ** [app/config.py]: the configuration records the components read *)

Module Config.

(** [PostgresConfig]; the [Field(..., ge=1)] bounds are [PostgresConfig_valid]. *)
Record PostgresConfig : Type := {
  sample_limit : Z;
  max_limit : Z;
}.

Definition PostgresConfig_valid (c : PostgresConfig) : bool :=
  (1 <=? sample_limit c) && (1 <=? max_limit c).

(** [SQLGuardrailConfig] *)
Record SQLGuardrailConfig : Type := {
  row_threshold : Z;
  cost_threshold : Z;
  disallowed_functions : list string;
}.

Definition SQLGuardrailConfig_valid (c : SQLGuardrailConfig) : bool :=
  (1 <=? row_threshold c) && (1 <=? cost_threshold c).

(** [SecurityConfig] *)
Record SecurityConfig : Type := {
  enable_rate_limiting : bool;
  max_requests_per_minute : Z;
}.

Definition SecurityConfig_valid (c : SecurityConfig) : bool :=
  1 <=? max_requests_per_minute c.

(** [SchemaConfig] *)
Record SchemaConfig : Type := {
  refresh_interval_s : Z;
  max_schema_slice_bytes : Z;
}.

Definition SchemaConfig_valid (c : SchemaConfig) : bool :=
  (60 <=? refresh_interval_s c) && (1024 <=? max_schema_slice_bytes c).

End Config.

(** ** [app/sql_validator.py] *)

Module SqlValidator.
Import Config.

(** The syntax trees of the SQL parser, as far as the validator looks at
    them.  A node has a class and a dictionary [args] from argument names to
    values; a value is absent ([None]), a child node, a list of child nodes,
    or a scalar.  Literals carry their text [this] and the flag [is_string]. *)
Inductive Class : Type :=
| Select
| Limit
| Func
| OtherClass (label : string).

Inductive arg (E : Type) : Type :=
| ANone
| AExpr (e : E)
| AList (es : list E)
| AText (s : string).
Arguments ANone {E}.
Arguments AExpr {E} e.
Arguments AList {E} es.
Arguments AText {E} s.

#[warnings="-register-all"]
Inductive Expression : Type :=
| Literal (this : string) (is_string : bool)
| Node (cls : Class) (args : list (string * arg Expression)).

(** [expr.args.get(key)], with a missing key and a stored [None] alike. *)
Definition args_get (expr : Expression) (key : string) : arg Expression :=
  match expr with
  | Literal t _ => if String.eqb key "this" then AText t else ANone
  | Node _ args => default ANone (dict_get args key)
  end.

(** [expr.set(key, value)] *)
Definition set (expr : Expression) (key : string) (value : arg Expression)
  : Expression :=
  match expr with
  | Literal t s => Literal t s
  | Node c args => Node c (dict_set args key value)
  end.

Definition isinstance_Select (expr : Expression) : bool :=
  match expr with Node Select _ => true | _ => false end.

Definition isinstance_Func (expr : Expression) : bool :=
  match expr with Node Func _ => true | _ => false end.

(** [exp.Literal.number(n)] *)
Definition Literal_number (n : Z) : Expression := Literal (str_of_Z n) false.

(** [isinstance(value, exp.Literal) and value.is_number], giving the text. *)
Definition numeric_literal (value : arg Expression) : option string :=
  match value with
  | AExpr (Literal t false) => Some t
  | _ => None
  end.

(** [expr.text(key)] of the library's base class: the text of a scalar, of a
    literal, identifier or variable, the name of a star or null, else [""]. *)
Definition text (expr : Expression) (key : string) : string :=
  match args_get expr key with
  | AText s => s
  | AExpr (Literal t _) => t
  | AExpr (Node (OtherClass l) args) =>
      if bool_decide (l ∈ ["Identifier"; "Var"]) then
        match dict_get args "this" with
        | Some (AText s) => s
        | _ => ""
        end
      else if String.eqb l "Star" then "*"
      else if String.eqb l "Null" then "NULL"
      else ""
  | _ => ""
  end.

(** [expr.name] *)
Definition name (expr : Expression) : string := text expr "this".

(** The child nodes an argument dictionary holds, in order. *)
Definition children_of_arg (a : arg Expression) : list Expression :=
  match a with
  | AExpr c => [c]
  | AList cs => cs
  | _ => []
  end.

Definition children (expr : Expression) : list Expression :=
  match expr with
  | Literal _ _ => []
  | Node _ args => flat_map (fun kv => children_of_arg (snd kv)) args
  end.

(** Pointwise concatenation of the levels of sibling subtrees. *)
Fixpoint zip_levels (a b : list (list Expression)) : list (list Expression) :=
  match a, b with
  | [], _ => b
  | _, [] => a
  | x :: a', y :: b' => (x ++ y)%list :: zip_levels a' b'
  end.

(** The nodes of a tree by depth: level 0 is the root, level [k+1] the
    children of level [k], in argument order. *)
Fixpoint levels (e : Expression) : list (list Expression) :=
  [e] :: match e with
         | Literal _ _ => []
         | Node _ args =>
             fold_right
               (fun kv below =>
                  match snd kv with
                  | AExpr c => zip_levels (levels c) below
                  | AList cs =>
                      zip_levels
                        (fold_right (fun c acc => zip_levels (levels c) acc) [] cs)
                        below
                  | _ => below
                  end)
               [] args
         end.

(** [expr.walk()]: every node, breadth first. *)
Definition walk (e : Expression) : list Expression := concat (levels e).

(** *** Facts about the tree walk *)

Lemma in_app_iff_ex {A : Type} (P : A -> Prop) (l1 l2 : list A) :
  (exists x, In x (l1 ++ l2) /\ P x) <->
  (exists x, (In x l1 \/ In x l2) /\ P x).
Proof. split; intros (x & H & ?); exists x; rewrite in_app_iff in *; tauto. Qed.

Lemma in_concat_zip_levels (a b : list (list Expression)) (x : Expression) :
  In x (concat (zip_levels a b)) <-> In x (concat a) \/ In x (concat b).
Proof.
  revert b; induction a as [|u a IH]; intros [|v b]; simpl.
  - tauto.
  - tauto.
  - tauto.
  - rewrite !in_app_iff, IH. tauto.
Qed.

(** A node is walked iff it is the root or is walked below a child. *)
Lemma in_walk_Node (c : Class) (args : list (string * arg Expression))
  (n : Expression) :
  In n (walk (Node c args)) <->
  n = Node c args \/
  exists child, In child (children (Node c args)) /\ In n (walk child).
Proof.
  unfold walk, children. cbn [levels concat].
  change (In n ([Node c args] ++ ?l)) with (Node c args = n \/ In n l).
  enough (Hargs :
    In n (concat (fold_right
               (fun kv below =>
                  match snd kv with
                  | AExpr c => zip_levels (levels c) below
                  | AList cs =>
                      zip_levels
                        (fold_right (fun c acc => zip_levels (levels c) acc) [] cs)
                        below
                  | _ => below
                  end) [] args)) <->
    exists child, In child (flat_map (fun kv => children_of_arg (snd kv)) args)
                  /\ In n (concat (levels child))).
  { rewrite Hargs. split; intros [H | H]; auto. }
  induction args as [|[k a] d IH].
  - simpl. split; [tauto | intros (? & [] & _)].
  - cbn [fold_right flat_map snd]. rewrite in_app_iff_ex.
    destruct a as [|e|es|t]; cbn [children_of_arg].
    + rewrite IH. split; [intros (ch & H & ?); exists ch; tauto
                         | intros (ch & [[] | H] & ?); exists ch; tauto].
    + rewrite in_concat_zip_levels, IH. split.
      * intros [H | (ch & Hch & H)]; [exists e | exists ch]; simpl; tauto.
      * intros (ch & [[<- | []] | Hch] & H); [left | right; exists ch]; tauto.
    + rewrite in_concat_zip_levels, IH.
      assert (Hl : In n (concat (fold_right
                     (fun c acc => zip_levels (levels c) acc) [] es)) <->
                   exists child, In child es /\ In n (concat (levels child))).
      { clear. induction es as [|e es IHes].
        - simpl. split; [tauto | intros (? & [] & _)].
        - cbn [fold_right]. rewrite in_concat_zip_levels, IHes. split.
          + intros [H | (ch & Hch & H)]; [exists e | exists ch]; simpl; tauto.
          + intros (ch & [<- | Hch] & H); [left | right; exists ch]; tauto. }
      rewrite Hl. split.
      * intros [(ch & Hch & H) | (ch & Hch & H)]; exists ch; tauto.
      * intros (ch & [Hch | Hch] & H); [left | right]; exists ch; tauto.
    + rewrite IH. split; [intros (ch & H & ?); exists ch; tauto
                         | intros (ch & [[] | H] & ?); exists ch; tauto].
Qed.

Lemma in_walk_root (e : Expression) : In e (walk e).
Proof. destruct e; unfold walk; simpl; auto. Qed.

Lemma walk_Literal (t : string) (s : bool) : walk (Literal t s) = [Literal t s].
Proof. reflexivity. Qed.

(** *** Facts about argument dictionaries *)

Lemma dict_get_set_ne {V : Type} (d : list (string * V)) (k k' : string) (v : V) :
  k <> k' -> dict_get (dict_set d k v) k' = dict_get d k'.
Proof.
  intros Hne. induction d as [|[k0 v0] d IH]; simpl.
  - destruct (String.eqb_spec k k'); congruence.
  - destruct (String.eqb_spec k0 k) as [->|]; simpl.
    + destruct (String.eqb_spec k k'); congruence.
    + now rewrite IH.
Qed.

Lemma args_get_set_ne (e : Expression) (k k' : string) (v : arg Expression) :
  k <> k' -> args_get (set e k v) k' = args_get e k'.
Proof.
  intros Hne. destruct e as [t s|c args]; simpl; [reflexivity|].
  now rewrite dict_get_set_ne.
Qed.

Lemma name_set (e : Expression) (k : string) (v : arg Expression) :
  k <> "this" -> name (set e k v) = name e.
Proof. intros Hne. unfold name, text. now rewrite args_get_set_ne. Qed.

Lemma isinstance_Func_set (e : Expression) (k : string) (v : arg Expression) :
  isinstance_Func (set e k v) = isinstance_Func e.
Proof. now destruct e. Qed.

(** The children after [set]: the new value's, and the old ones except those
    the overwritten value held. *)
Lemma in_children_set (c : Class) (args : list (string * arg Expression))
  (k : string) (v : arg Expression) (ch : Expression) :
  In ch (children (Node c (dict_set args k v))) ->
  In ch (children_of_arg v) \/ In ch (children (Node c args)).
Proof.
  simpl. induction args as [|[k0 v0] d IH]; simpl.
  - rewrite app_nil_r. auto.
  - destruct (String.eqb k0 k); simpl; rewrite !in_app_iff; tauto.
Qed.

Lemma in_children_set_new (c : Class) (args : list (string * arg Expression))
  (k : string) (v : arg Expression) (ch : Expression) :
  In ch (children_of_arg v) -> In ch (children (Node c (dict_set args k v))).
Proof.
  simpl. induction args as [|[k0 v0] d IH]; simpl.
  - rewrite app_nil_r. auto.
  - destruct (String.eqb k0 k); simpl; rewrite !in_app_iff; tauto.
Qed.

Lemma in_children_set_old (c : Class) (args : list (string * arg Expression))
  (k : string) (v : arg Expression) (ch : Expression) :
  In ch (children (Node c args)) ->
  In ch (children_of_arg (default ANone (dict_get args k))) \/
  In ch (children (Node c (dict_set args k v))).
Proof.
  simpl. induction args as [|[k0 v0] d IH]; simpl.
  - tauto.
  - destruct (String.eqb k0 k); simpl; rewrite !in_app_iff; tauto.
Qed.

Lemma in_children_args_get (c : Class) (args : list (string * arg Expression))
  (k : string) (ch : Expression) :
  In ch (children_of_arg (default ANone (dict_get args k))) ->
  In ch (children (Node c args)).
Proof.
  simpl. induction args as [|[k0 v0] d IH]; simpl.
  - tauto.
  - destruct (String.eqb k0 k); simpl; rewrite !in_app_iff; tauto.
Qed.

Lemma in_walk_child (e ch n : Expression) :
  In ch (children e) -> In n (walk ch) -> In n (walk e).
Proof.
  destruct e as [t b|c args]; [intros []|].
  intros Hch Hn. apply in_walk_Node. eauto.
Qed.

Lemma in_children_arg (e ch : Expression) (k : string) :
  In ch (children_of_arg (args_get e k)) -> In ch (children e).
Proof.
  destruct e as [t b|c args].
  - simpl. now destruct (String.eqb k "this").
  - apply in_children_args_get.
Qed.

(** What the walk of a tree meets after [set]: the changed root, nodes below
    the new value, or nodes below a child the tree already had. *)
Lemma in_walk_set (e : Expression) (k : string) (v : arg Expression)
  (n : Expression) :
  In n (walk (set e k v)) ->
  n = set e k v \/
  (exists ch, In ch (children_of_arg v) /\ In n (walk ch)) \/
  In n (walk e).
Proof.
  destruct e as [t b|c args]; simpl set; [auto|].
  intros [-> | (ch & Hch & Hn)]%in_walk_Node; [auto|].
  apply in_children_set in Hch as [Hch | Hch]; [eauto|].
  right; right. apply in_walk_Node. eauto.
Qed.

(** Conversely, every node of the tree before [set] is the old root, sits
    below the overwritten value, or is still walked. *)
Lemma in_walk_set_old (e : Expression) (k : string) (v : arg Expression)
  (n : Expression) :
  In n (walk e) ->
  n = e \/
  (exists ch, In ch (children_of_arg (args_get e k)) /\ In n (walk ch)) \/
  (exists ch, In ch (children (set e k v)) /\ In n (walk ch)).
Proof.
  destruct e as [t b|c args].
  - rewrite walk_Literal. intros [<- | []]. auto.
  - intros [-> | (ch & Hch & Hn)]%in_walk_Node; [auto|].
    apply (in_children_set_old c args k v) in Hch as [Hch | Hch]; eauto.
Qed.

Section Validator.

(** The SQL library: [parse_one] gives the tree of a statement or the text of
    its [ParseError]; [sql] renders a tree. *)
Variable parse_one : string -> string + Expression.
Variable sql : Expression -> string.

Variable pg_cfg : PostgresConfig.
Variable guard_cfg : SQLGuardrailConfig.

Definition _enforce_select_only (expr : Expression) : result unit :=
  if negb (isinstance_Select expr) then
    Raise (SQLValidationError "Only SELECT statements are allowed")
  else match args_get expr "from" with
       | ANone => Raise (SQLValidationError "SELECT must include FROM clause")
       | _ => Ok tt
       end.

(** The method mutates [expr]; the embedding returns the tree after it. *)
Definition _enforce_limit (expr : Expression) : result Expression :=
  let max_limit := max_limit pg_cfg in
  match args_get expr "limit" with
  | ANone =>
      Ok (set expr "limit"
            (AExpr (Node Limit [("this", AExpr (Literal_number max_limit))])))
  | AExpr limit =>
      let value := args_get limit "this" in
      match numeric_literal value with
      | Some text =>
          match py_int text with
          | Some n =>
              if n >? max_limit then
                Ok (set expr "limit"
                      (AExpr (set limit "expression"
                                (AExpr (Literal_number max_limit)))))
              else Ok expr
          | None =>
              Raise (ValueError ("invalid literal for int() with base 10: " ++ text))
          end
      | None => Raise (SQLValidationError "LIMIT must be numeric literal")
      end
  | _ => Raise (AttributeError "this")
  end.

Definition disallowed (node : Expression) : bool :=
  isinstance_Func node
  && bool_decide (lower (name node) ∈ map lower (disallowed_functions guard_cfg)).

Definition _enforce_disallowed_functions (expr : Expression) : result unit :=
  match List.find disallowed (walk expr) with
  | Some node =>
      Raise (SQLValidationError ("Function " ++ name node ++ " is not allowed"))
  | None => Ok tt
  end.

Definition validate_and_sanitize (text : string) : result string :=
  match parse_one text with
  | inl exc => Raise (SQLValidationError ("Invalid SQL: " ++ exc))
  | inr parsed =>
      _enforce_select_only parsed ;;
      parsed' ← _enforce_limit parsed;
      _enforce_disallowed_functions parsed' ;;
      Ok (sql parsed')
  end.

(** *** The verdict of the validator *)

(** A LIMIT the validator lets through: none, or a node whose [this] is a
    numeric literal that [int()] reads. *)
Definition admissible_limit (expr : Expression) : bool :=
  match args_get expr "limit" with
  | ANone => true
  | AExpr limit =>
      match numeric_literal (args_get limit "this") with
      | Some t => bool_decide (is_Some (py_int t))
      | None => false
      end
  | _ => false
  end.

(** The shape of a parsed LIMIT: its row count sits in one argument, so the
    node does not hold both a [this] and an [expression]. *)
Definition limit_single_valued (expr : Expression) : Prop :=
  forall limit, args_get expr "limit" = AExpr limit ->
    args_get limit "this" = ANone \/ args_get limit "expression" = ANone.

Lemma disallowed_set (e : Expression) (k : string) (v : arg Expression) :
  k <> "this" -> disallowed (set e k v) = disallowed e.
Proof.
  intros Hne. unfold disallowed. now rewrite isinstance_Func_set, name_set.
Qed.

Lemma _enforce_limit_returns (expr : Expression) :
  returns (_enforce_limit expr) = admissible_limit expr.
Proof.
  unfold _enforce_limit, admissible_limit.
  destruct (args_get expr "limit") as [|limit|?|?]; try reflexivity.
  destruct (numeric_literal (args_get limit "this")) as [t|]; [|reflexivity].
  destruct (py_int t) as [n|].
  - rewrite bool_decide_eq_true_2 by eauto. now destruct (n >? _).
  - rewrite bool_decide_eq_false_2; [reflexivity | now intros [? ?]].
Qed.

(** Every disallowed node of the tree after [_enforce_limit] stems from one of
    the tree before it. *)
Lemma _enforce_limit_no_new (expr expr' : Expression) :
  _enforce_limit expr = Ok expr' ->
  (exists n, In n (walk expr') /\ disallowed n = true) ->
  exists n, In n (walk expr) /\ disallowed n = true.
Proof.
  unfold _enforce_limit. intros Hlim (n & Hn & Hd).
  destruct (args_get expr "limit") as [|limit|?|?] eqn:Hget; try discriminate.
  - injection Hlim as <-.
    apply in_walk_set in Hn as [-> | [(ch & [<- | []] & Hn) | Hn]]; [| |eauto].
    + rewrite disallowed_set in Hd by discriminate.
      exists expr. split; [apply in_walk_root | exact Hd].
    + cbn in Hn. destruct Hn as [<- | [<- | []]]; discriminate Hd.
  - destruct (numeric_literal (args_get limit "this")) as [t|] eqn:Hnum;
      [|discriminate].
    destruct (py_int t) as [m|]; [|discriminate].
    destruct (m >? _); injection Hlim as <-; [|eauto].
    assert (Hlimit : In limit (children expr)).
    { apply (in_children_arg expr limit "limit"). rewrite Hget. now left. }
    apply in_walk_set in Hn as [-> | [(ch & [<- | []] & Hn) | Hn]]; [| |eauto].
    + rewrite disallowed_set in Hd by discriminate.
      exists expr. split; [apply in_walk_root | exact Hd].
    + apply in_walk_set in Hn as [-> | [(ch & [<- | []] & Hn) | Hn]].
      * rewrite disallowed_set in Hd by discriminate.
        exists limit. split; [|exact Hd].
        apply (in_walk_child expr limit); [exact Hlimit | apply in_walk_root].
      * cbn in Hn. destruct Hn as [<- | []]. discriminate Hd.
      * exists n. split; [|exact Hd]. now apply (in_walk_child expr limit).
Qed.

(** When the parsed LIMIT is single-valued, [_enforce_limit] drops no node, so
    a disallowed node of the parsed tree is still met by the walk. *)
Lemma _enforce_limit_keeps (expr expr' : Expression) :
  limit_single_valued expr ->
  _enforce_limit expr = Ok expr' ->
  (exists n, In n (walk expr) /\ disallowed n = true) ->
  exists n, In n (walk expr') /\ disallowed n = true.
Proof.
  unfold _enforce_limit. intros Hsv Hlim (n & Hn & Hd).
  destruct (args_get expr "limit") as [|limit|?|?] eqn:Hget; try discriminate.
  - injection Hlim as <-.
    apply (in_walk_set_old expr "limit"
             (AExpr (Node Limit [("this", AExpr (Literal_number (max_limit pg_cfg)))])))
      in Hn as [-> | [(ch & Hch & Hn) | (ch & Hch & Hn)]].
    + eexists. split; [apply in_walk_root|].
      now rewrite disallowed_set by discriminate.
    + rewrite Hget in Hch. destruct Hch.
    + exists n. split; [|exact Hd]. now apply (in_walk_child _ ch).
  - specialize (Hsv limit Hget).
    destruct (numeric_literal (args_get limit "this")) as [t|] eqn:Hnum;
      [|discriminate].
    destruct (py_int t) as [m|]; [|discriminate].
    destruct (m >? _); injection Hlim as <-; [|eauto].
    destruct Hsv as [Hthis | Hexp]; [rewrite Hthis in Hnum; discriminate|].
    pose (lit := AExpr (Literal_number (max_limit pg_cfg))).
    pose (limit' := set limit "expression" lit).
    assert (Hnode : exists c args, expr = Node c args).
    { destruct expr as [? ?|c args]; [discriminate Hget | eauto]. }
    destruct Hnode as (c & args & ->).
    assert (Hlimit' : In limit' (children (set (Node c args) "limit" (AExpr limit')))).
    { apply in_children_set_new. now left. }
    apply (in_walk_set_old (Node c args) "limit" (AExpr limit'))
      in Hn as [-> | [(ch & Hch & Hn) | (ch & Hch & Hn)]].
    + eexists. split; [apply in_walk_root|].
      now rewrite disallowed_set by discriminate.
    + rewrite Hget in Hch. destruct Hch as [<- | []].
      apply (in_walk_set_old limit "expression" lit)
        in Hn as [-> | [(gc & Hgc & Hn) | (gc & Hgc & Hn)]].
      * exists limit'. split.
        -- apply (in_walk_child _ limit'); [exact Hlimit' | apply in_walk_root].
        -- unfold limit'. now rewrite disallowed_set by discriminate.
      * rewrite Hexp in Hgc. destruct Hgc.
      * exists n. split; [|exact Hd].
        apply (in_walk_child _ limit'); [exact Hlimit'|].
        now apply (in_walk_child _ gc).
    + exists n. split; [|exact Hd]. now apply (in_walk_child _ ch).
Qed.

Lemma _enforce_disallowed_functions_raises (expr : Expression) :
  raises (_enforce_disallowed_functions expr) = true <->
  exists n, In n (walk expr) /\ disallowed n = true.
Proof.
  unfold _enforce_disallowed_functions.
  destruct (List.find disallowed (walk expr)) as [n|] eqn:Hfind; simpl.
  - apply find_some in Hfind. split; eauto.
  - split; [discriminate|]. intros (n & Hn & Hd).
    now rewrite (find_none _ _ Hfind n Hn) in Hd.
Qed.

Definition names_disallowed (node : Expression) : Prop :=
  isinstance_Func node = true /\
  lower (name node) ∈ map lower (disallowed_functions guard_cfg).

Lemma disallowed_true (node : Expression) :
  disallowed node = true <-> names_disallowed node.
Proof.
  unfold disallowed, names_disallowed.
  rewrite andb_true_iff, bool_decide_eq_true. tauto.
Qed.

(** C1. Whatever statement the parser returns for the input: a top-level node
    that is not a SELECT is refused, a SELECT without FROM is refused, a
    function node whose lower-cased name is on the deny list makes the
    validator raise, and a SELECT with FROM, an admissible LIMIT and no such
    function node is returned re-rendered.  The parsed LIMIT node is taken to
    hold its row count in a single argument, as the parser builds it. *)
Theorem validate_and_sanitize_verdict (text : string) (parsed : Expression) :
  parse_one text = inr parsed ->
  limit_single_valued parsed ->
  (isinstance_Select parsed = false ->
   validate_and_sanitize text =
     Raise (SQLValidationError "Only SELECT statements are allowed")) /\
  (isinstance_Select parsed = true -> args_get parsed "from" = ANone ->
   validate_and_sanitize text =
     Raise (SQLValidationError "SELECT must include FROM clause")) /\
  ((exists node, In node (walk parsed) /\ names_disallowed node) ->
   raises (validate_and_sanitize text) = true) /\
  (isinstance_Select parsed = true -> args_get parsed "from" <> ANone ->
   admissible_limit parsed = true ->
   (forall node, In node (walk parsed) -> ~ names_disallowed node) ->
   exists parsed', _enforce_limit parsed = Ok parsed' /\
                   validate_and_sanitize text = Ok (sql parsed')).
Proof.
  intros Hparse Hsv. unfold validate_and_sanitize. rewrite Hparse.
  unfold _enforce_select_only.
  repeat split.
  - now intros ->.
  - now intros -> ->.
  - intros (node & Hin & Hbad%disallowed_true).
    destruct (isinstance_Select parsed); [|reflexivity]. simpl negb. cbv iota.
    destruct (args_get parsed "from"); try reflexivity;
      (simpl;
       destruct (_enforce_limit parsed) as [parsed'|err] eqn:Hlim; [|reflexivity];
       simpl;
       assert (Hn : exists n, In n (walk parsed') /\ disallowed n = true)
         by (apply (_enforce_limit_keeps parsed parsed' Hsv Hlim); eauto);
       apply _enforce_disallowed_functions_raises in Hn;
       now destruct (_enforce_disallowed_functions parsed')).
  - intros -> Hfrom Hadm Hnone. simpl negb. cbv iota.
    rewrite <- _enforce_limit_returns in Hadm.
    destruct (_enforce_limit parsed) as [parsed'|e] eqn:Hlim; [|discriminate].
    exists parsed'. split; [reflexivity|].
    assert (Hok : _enforce_disallowed_functions parsed' = Ok tt).
    { destruct (_enforce_disallowed_functions parsed') as [[]|e] eqn:Hfun;
        [reflexivity|].
      assert (Hr : raises (_enforce_disallowed_functions parsed') = true)
        by now rewrite Hfun.
      apply _enforce_disallowed_functions_raises in Hr.
      apply (_enforce_limit_no_new parsed parsed' Hlim) in Hr
        as (n & Hn & Hd%disallowed_true).
      now destruct (Hnone n Hn). }
    destruct (args_get parsed "from"); [congruence| | |]; simpl; now rewrite Hok.
Qed.

End Validator.

(** *** The statements of the test module *)

(** The fixture of [tests/unit/test_sql_validator.py]. *)
Definition test_pg_cfg : PostgresConfig := {| max_limit := 100; sample_limit := 50 |}.
Definition test_guard_cfg : SQLGuardrailConfig :=
  {| row_threshold := 500000; cost_threshold := 100000;
     disallowed_functions := ["pg_sleep"] |}.

Definition column (id : string) : Expression :=
  Node (OtherClass "Column")
       [("this", AExpr (Node (OtherClass "Identifier") [("this", AText id)]))].

Definition table (id : string) : Expression :=
  Node (OtherClass "Table")
       [("this", AExpr (Node (OtherClass "Identifier") [("this", AText id)]))].

(** [SELECT id FROM users] *)
Definition select_id_from_users : Expression :=
  Node Select [("expressions", AList [column "id"]);
               ("from", AExpr (Node (OtherClass "From") [("this", AExpr (table "users"))]))].

(** [SELECT id FROM users LIMIT 1000], the row count under [expression] as
    the parser stores it. *)
Definition select_limit_1000 : Expression :=
  Node Select [("expressions", AList [column "id"]);
               ("from", AExpr (Node (OtherClass "From") [("this", AExpr (table "users"))]));
               ("limit", AExpr (Node Limit [("this", ANone);
                                            ("expression", AExpr (Literal "1000" false))]))].

(** The same statement with the row count under [this], where
    [_enforce_limit] looks for it. *)
Definition select_limit_this_1000 : Expression :=
  Node Select [("expressions", AList [column "id"]);
               ("from", AExpr (Node (OtherClass "From") [("this", AExpr (table "users"))]));
               ("limit", AExpr (Node Limit [("this", AExpr (Literal "1000" false))]))].

(** [SELECT pg_sleep(1)] *)
Definition select_pg_sleep : Expression :=
  Node Select [("expressions",
                AList [Node Func [("this", AText "pg_sleep");
                                  ("expressions", AList [Literal "1" false])]])].

(** [test_rejects_disallowed_function]: the statement has no FROM clause, and
    the validator refuses it for that before it looks at the functions. *)
Example select_pg_sleep_refused :
  validate_and_sanitize (fun _ => inr select_pg_sleep) (fun _ => "")
    test_pg_cfg test_guard_cfg "SELECT pg_sleep(1)"
  = Raise (SQLValidationError "SELECT must include FROM clause").
Proof. reflexivity. Qed.

Lemma validate_and_sanitize_verdict_witness :
  let parse_one := fun _ : string => inr select_id_from_users in
  let render := fun _ : Expression => "SELECT id FROM users" in
  parse_one "SELECT id FROM users" = inr select_id_from_users /\
  limit_single_valued select_id_from_users /\
  exists parsed',
    _enforce_limit test_pg_cfg select_id_from_users = Ok parsed' /\
    validate_and_sanitize parse_one render test_pg_cfg test_guard_cfg
      "SELECT id FROM users" = Ok (render parsed').
Proof.
  intros parse_one render.
  assert (Hsv : limit_single_valued select_id_from_users).
  { intros limit H. discriminate H. }
  split; [reflexivity|]. split; [exact Hsv|].
  apply (validate_and_sanitize_verdict parse_one render test_pg_cfg test_guard_cfg
           "SELECT id FROM users" select_id_from_users eq_refl Hsv).
  - reflexivity.
  - discriminate.
  - reflexivity.
  - intros node Hin [Hf _]. cbn in Hin.
    repeat (destruct Hin as [<- | Hin]; [discriminate Hf|]). destruct Hin.
Defined.

(** C2 (the LIMIT clamp).  [_enforce_limit] reads the row count from the
    [this] argument of the LIMIT node and writes the clamped count into its
    [expression] argument.  On the parsed statement of
    [test_clamps_limit] the count is not under [this], and the validator
    raises; with the count under [this] the validator returns, and the count
    it read is still 1000 in the returned tree. *)
Theorem _enforce_limit_clamp_misses_count :
  _enforce_limit test_pg_cfg select_limit_1000 =
    Raise (SQLValidationError "LIMIT must be numeric literal") /\
  exists parsed' limit',
    _enforce_limit test_pg_cfg select_limit_this_1000 = Ok parsed' /\
    args_get parsed' "limit" = AExpr limit' /\
    args_get limit' "this" = AExpr (Literal "1000" false) /\
    args_get limit' "expression" = AExpr (Literal "100" false).
Proof.
  split; [reflexivity|].
  eexists _, _. split; [reflexivity|]. repeat split.
Qed.

(** *** What the LIMIT step changes *)

Lemma dict_get_set_same {V : Type} (d : list (string * V)) (k : string) (v : V) :
  dict_get (dict_set d k v) k = Some v.
Proof.
  induction d as [|[k0 v0] d IH]; simpl.
  - now rewrite String.eqb_refl.
  - destruct (String.eqb k0 k) eqn:E; simpl; now rewrite E.
Qed.

Lemma dict_set_twice {V : Type} (d : list (string * V)) (k : string) (v : V) :
  dict_set (dict_set d k v) k v = dict_set d k v.
Proof.
  induction d as [|[k0 v0] d IH]; simpl.
  - now rewrite String.eqb_refl.
  - destruct (String.eqb k0 k) eqn:E; simpl; rewrite E; [reflexivity | now rewrite IH].
Qed.

Lemma set_twice (e : Expression) (k : string) (v : arg Expression) :
  set (set e k v) k v = set e k v.
Proof. destruct e; simpl; [reflexivity | now rewrite dict_set_twice]. Qed.

Lemma set_set (e : Expression) (k : string) (v w : arg Expression) :
  set (set e k v) k w = set e k w.
Proof.
  destruct e as [|c args]; simpl; [reflexivity|]. f_equal.
  induction args as [|[k0 v0] d IH]; simpl.
  - now rewrite String.eqb_refl.
  - destruct (String.eqb k0 k) eqn:E; simpl; rewrite E; [reflexivity | now rewrite IH].
Qed.

Lemma isinstance_Select_set (e : Expression) (k : string) (v : arg Expression) :
  isinstance_Select (set e k v) = isinstance_Select e.
Proof. now destruct e. Qed.

Section Sanitizer.

Variable pg_cfg : PostgresConfig.

(** X1. The LIMIT step leaves the statement what it was outside its
    [limit] argument: the class of the top node and every other argument are
    those of the input; and a statement without LIMIT gets a LIMIT node whose
    [this] is the literal [max_limit]. *)
Theorem _enforce_limit_only_sets_limit (expr expr' : Expression) :
  _enforce_limit pg_cfg expr = Ok expr' ->
  isinstance_Select expr' = isinstance_Select expr /\
  (forall key, key <> "limit" -> args_get expr' key = args_get expr key) /\
  (forall c args, expr = Node c args -> args_get expr "limit" = ANone ->
     args_get expr' "limit"
       = AExpr (Node Limit [("this", AExpr (Literal (str_of_Z (max_limit pg_cfg)) false))])).
Proof.
  unfold _enforce_limit. intros Hlim.
  assert (Hset : expr' = expr \/ exists v, expr' = set expr "limit" v).
  { destruct (args_get expr "limit") as [|limit|?|?]; try discriminate.
    - injection Hlim as <-. eauto.
    - destruct (numeric_literal _); [|discriminate].
      destruct (py_int _); [|discriminate].
      destruct (_ >? _); injection Hlim as <-; eauto. }
  repeat split.
  - destruct Hset as [-> | (v & ->)]; [reflexivity | apply isinstance_Select_set].
  - intros key Hkey. destruct Hset as [-> | (v & ->)]; [reflexivity|].
    apply args_get_set_ne. congruence.
  - intros c args -> Hnone. rewrite Hnone in Hlim. injection Hlim as <-.
    simpl. now rewrite dict_get_set_same.
Qed.

(** X2. Running the LIMIT step on its own result changes nothing: a
    statement that went through it goes through again, unchanged. *)
Theorem _enforce_limit_idempotent (expr expr' : Expression) :
  _enforce_limit pg_cfg expr = Ok expr' ->
  _enforce_limit pg_cfg expr' = Ok expr'.
Proof.
  intros Hlim. pose proof Hlim as Hagain. unfold _enforce_limit in Hlim.
  destruct (args_get expr "limit") as [|limit|?|?] eqn:Hget; try discriminate.
  - injection Hlim as <-. destruct expr as [t b|c args]; [exact Hagain|].
    unfold _enforce_limit. simpl args_get at 1. rewrite dict_get_set_same. simpl.
    rewrite PyFacts.py_int_str_of_Z.
    now rewrite Z.gtb_ltb, Z.ltb_irrefl.
  - destruct (numeric_literal (args_get limit "this")) as [t|] eqn:Hnum;
      [|discriminate].
    destruct (py_int t) as [n|] eqn:Hint; [|discriminate].
    destruct (n >? max_limit pg_cfg) eqn:Hgt; injection Hlim as <-;
      [|exact Hagain].
    destruct expr as [t0 b|c args]; [discriminate Hget|].
    unfold _enforce_limit. simpl args_get at 1. rewrite dict_get_set_same. simpl default.
    cbv iota beta. rewrite args_get_set_ne by discriminate.
    rewrite Hnum, Hint, Hgt. now rewrite set_twice, set_set.
Qed.

End Sanitizer.

Lemma _enforce_limit_only_sets_limit_witness :
  exists expr',
    _enforce_limit test_pg_cfg select_id_from_users = Ok expr' /\
    isinstance_Select expr' = true /\
    args_get expr' "from" = args_get select_id_from_users "from" /\
    args_get expr' "limit"
      = AExpr (Node Limit [("this", AExpr (Literal "100" false))]).
Proof.
  eexists. split; [reflexivity|].
  destruct (_enforce_limit_only_sets_limit test_pg_cfg select_id_from_users _ eq_refl)
    as (Hclass & Hargs & Hlimit).
  split; [exact Hclass|]. split; [apply Hargs; discriminate|].
  exact (Hlimit _ _ eq_refl eq_refl).
Defined.

Lemma _enforce_limit_idempotent_witness :
  exists expr',
    _enforce_limit test_pg_cfg select_limit_this_1000 = Ok expr' /\
    _enforce_limit test_pg_cfg expr' = Ok expr'.
Proof.
  eexists. split; [reflexivity|].
  exact (_enforce_limit_idempotent test_pg_cfg select_limit_this_1000 _ eq_refl).
Defined.

End SqlValidator.

(** ** [app/guardrails.py] *)

Module Guardrails.
Import Config.

(** The dictionary [_extract_metrics] builds. *)
Record Metrics : Type := {
  plan_rows : value;
  plan_width : value;
  total_cost : value;
  node_type : value;
}.

Section Engine.

Variable cfg : SQLGuardrailConfig.

(** [json.loads] of the standard library. *)
Variable json_loads : string -> result value.

(** [seq[0]] *)
Definition first {A : Type} (seq : list A) : result A :=
  match seq with
  | x :: _ => Ok x
  | [] => Raise (IndexError "list index out of range")
  end.

Definition first_item (v : value) : result value :=
  match v with
  | JList l => first l
  | JDict _ => Raise (KeyError "0")
  | JStr s => match s with
              | String c _ => Ok (JStr (String c EmptyString))
              | EmptyString => Raise (IndexError "string index out of range")
              end
  | _ => Raise (TypeError "object is not subscriptable")
  end.

(** [_run_explain], given what [conn.fetch] answered: the rows of the
    EXPLAIN, each a list of column values. *)
Definition _run_explain (fetched : result (list (list value))) : result value :=
  rows ← fetched;
  row ← first rows;
  plan_json ← first row;
  match plan_json with
  | JStr s => decoded ← json_loads s; first_item decoded
  | _ => first_item plan_json
  end.

Definition _extract_metrics (plan : value) : result Metrics :=
  root ← get plan "Plan" (JDict []);
  rows ← get root "Plan Rows" (JInt 0);
  width ← get root "Plan Width" (JInt 0);
  cost ← get root "Total Cost" (JFloat 0);
  node ← get root "Node Type" (JStr "");
  Ok {| plan_rows := rows; plan_width := width; total_cost := cost; node_type := node |}.

(** [v.lower()] *)
Definition lower_of (v : value) : result string :=
  match v with
  | JStr s => Ok (lower s)
  | _ => Raise (AttributeError "lower")
  end.

Definition _apply_rules (metrics : Metrics) : result bool :=
  over_rows ← gt (plan_rows metrics) (inject_Z (row_threshold cfg));
  if over_rows : bool then Ok false else
  over_cost ← gt (total_cost metrics) (inject_Z (cost_threshold cfg));
  if over_cost : bool then Ok false else
  lowered ← lower_of (node_type metrics);
  if String.eqb lowered "seq scan" then
    over_tenth ← gt (plan_rows metrics) (inject_Z (row_threshold cfg) / 10);
    if over_tenth : bool then Ok false else Ok true
  else Ok true.

Definition guardrail_check (fetched : result (list (list value)))
  : result (bool * Metrics) :=
  explain ← _run_explain fetched;
  metrics ← _extract_metrics explain;
  allowed ← _apply_rules metrics;
  Ok (allowed, metrics).

(** *** The verdict *)

Lemma Qgtb_true (a b : Q) : Qgtb a b = true <-> (b < a)%Q.
Proof.
  unfold Qgtb. rewrite negb_true_iff, <- not_true_iff_false, Qle_bool_iff.
  split; [apply Qnot_le_lt | apply Qlt_not_le].
Qed.

Lemma Qgtb_false (a b : Q) : Qgtb a b = false <-> (a <= b)%Q.
Proof. unfold Qgtb. now rewrite negb_false_iff, Qle_bool_iff. Qed.

Lemma gt_number (v : value) (q bound : Q) :
  number v = Some q -> gt v bound = Ok (Qgtb q bound).
Proof. unfold gt. now intros ->. Qed.

(** [_apply_rules] on well-typed metrics: the three rules, in order. *)
Lemma _apply_rules_typed (m : Metrics) (r c : Q) (t : string) :
  number (plan_rows m) = Some r ->
  number (total_cost m) = Some c ->
  node_type m = JStr t ->
  _apply_rules m =
    Ok (negb (Qgtb r (inject_Z (row_threshold cfg))
              || Qgtb c (inject_Z (cost_threshold cfg))
              || (String.eqb (lower t) "seq scan"
                  && Qgtb r (inject_Z (row_threshold cfg) / 10)))).
Proof.
  intros Hr Hc Ht. unfold _apply_rules.
  rewrite !(gt_number _ _ _ Hr), (gt_number _ _ _ Hc), Ht. simpl.
  destruct (Qgtb r (inject_Z (row_threshold cfg))); [reflexivity|].
  destruct (Qgtb c (inject_Z (cost_threshold cfg))); [reflexivity|].
  simpl. destruct (String.eqb (lower t) "seq scan"); [|reflexivity].
  simpl. now destruct (Qgtb r _).
Qed.

(** A refusal names the rule that fired. *)
Lemma _apply_rules_false (m : Metrics) :
  _apply_rules m = Ok false ->
  gt (plan_rows m) (inject_Z (row_threshold cfg)) = Ok true \/
  gt (total_cost m) (inject_Z (cost_threshold cfg)) = Ok true \/
  (exists t, node_type m = JStr t /\ lower t = "seq scan" /\
             gt (plan_rows m) (inject_Z (row_threshold cfg) / 10) = Ok true).
Proof.
  unfold _apply_rules.
  destruct (gt (plan_rows m) (inject_Z (row_threshold cfg))) as [[|]|?];
    simpl; [auto | | discriminate].
  destruct (gt (total_cost m) (inject_Z (cost_threshold cfg))) as [[|]|?];
    simpl; [auto | | discriminate].
  destruct (node_type m) as [| | | |t| |]; simpl; try discriminate.
  destruct (String.eqb_spec (lower t) "seq scan") as [Hseq|]; [|discriminate].
  destruct (gt (plan_rows m) (inject_Z (row_threshold cfg) / 10)) as [[|]|?];
    simpl; try discriminate.
  intros _. right; right. eauto.
Qed.

(** C3. For a plan whose metrics are a number of rows, a cost and a node
    type, the check answers with those metrics, and refuses exactly when one
    of the three rules fires. *)
Theorem guardrail_check_verdict (fetched : result (list (list value)))
  (plan : value) (m : Metrics) (r c : Q) (t : string) :
  _run_explain fetched = Ok plan ->
  _extract_metrics plan = Ok m ->
  number (plan_rows m) = Some r ->
  number (total_cost m) = Some c ->
  node_type m = JStr t ->
  exists allowed : bool,
    guardrail_check fetched = Ok (allowed, m) /\
    (allowed = false <->
       (inject_Z (row_threshold cfg) < r)%Q \/
       (inject_Z (cost_threshold cfg) < c)%Q \/
       (lower t = "seq scan" /\ (inject_Z (row_threshold cfg) / 10 < r)%Q)).
Proof.
  intros Hplan Hm Hr Hc Ht. unfold guardrail_check.
  rewrite Hplan. simpl. rewrite Hm. simpl.
  rewrite (_apply_rules_typed m r c t Hr Hc Ht). simpl.
  eexists. split; [reflexivity|].
  rewrite negb_false_iff, !orb_true_iff, andb_true_iff, !Qgtb_true,
    String.eqb_eq.
  tauto.
Qed.

Definition default_metrics : Metrics :=
  {| plan_rows := JInt 0; plan_width := JInt 0;
     total_cost := JFloat 0; node_type := JStr "" |}.

Lemma defaults_pass :
  SQLGuardrailConfig_valid cfg = true ->
  forall m : Metrics,
    plan_rows m = JInt 0 -> total_cost m = JFloat 0 -> node_type m = JStr "" ->
    _apply_rules m = Ok true.
Proof.
  unfold SQLGuardrailConfig_valid. intros [Hrow Hcost]%andb_true_iff m Hr Hc Ht.
  apply Z.leb_le in Hrow, Hcost.
  rewrite (_apply_rules_typed m 0 0 "") by (rewrite ?Hr, ?Hc; auto).
  assert (H1 : Qgtb 0 (inject_Z (row_threshold cfg)) = false).
  { apply Qgtb_false. change 0%Q with (inject_Z 0). rewrite <- Zle_Qle. lia. }
  assert (H2 : Qgtb 0 (inject_Z (cost_threshold cfg)) = false).
  { apply Qgtb_false. change 0%Q with (inject_Z 0). rewrite <- Zle_Qle. lia. }
  now rewrite H1, H2.
Qed.

(** C10. A plan without a [Plan] object, or whose [Plan] lacks a key, gets
    the defaults [0], [0.0] and [""] for what is missing; metrics that are all
    defaults pass every rule, so an empty plan is allowed; and a refusal
    always stems from metrics the plan does carry. *)
Theorem missing_metrics_never_reject (d : list (string * value)) :
  SQLGuardrailConfig_valid cfg = true ->
  (dict_get d "Plan" = None -> _extract_metrics (JDict d) = Ok default_metrics) /\
  (forall root, dict_get d "Plan" = Some (JDict root) ->
     _extract_metrics (JDict d) =
       Ok {| plan_rows := default (JInt 0) (dict_get root "Plan Rows");
             plan_width := default (JInt 0) (dict_get root "Plan Width");
             total_cost := default (JFloat 0) (dict_get root "Total Cost");
             node_type := default (JStr "") (dict_get root "Node Type") |}) /\
  (forall fetched m,
     _run_explain fetched = Ok (JDict d) ->
     _extract_metrics (JDict d) = Ok m ->
     plan_rows m = JInt 0 -> total_cost m = JFloat 0 -> node_type m = JStr "" ->
     guardrail_check fetched = Ok (true, m)) /\
  (forall fetched m,
     _run_explain fetched = Ok (JDict d) ->
     guardrail_check fetched = Ok (false, m) ->
     exists root, dict_get d "Plan" = Some (JDict root) /\
       ((exists v, dict_get root "Plan Rows" = Some v /\
                   gt v (inject_Z (row_threshold cfg)) = Ok true) \/
        (exists v, dict_get root "Total Cost" = Some v /\
                   gt v (inject_Z (cost_threshold cfg)) = Ok true) \/
        (exists v t, dict_get root "Plan Rows" = Some v /\
                     dict_get root "Node Type" = Some (JStr t) /\
                     lower t = "seq scan" /\
                     gt v (inject_Z (row_threshold cfg) / 10) = Ok true))).
Proof.
  intros Hvalid.
  assert (Hrow : gt (JInt 0) (inject_Z (row_threshold cfg)) = Ok false /\
                 gt (JInt 0) (inject_Z (row_threshold cfg) / 10) = Ok false /\
                 gt (JFloat 0) (inject_Z (cost_threshold cfg)) = Ok false).
  { unfold SQLGuardrailConfig_valid in Hvalid.
    apply andb_true_iff in Hvalid as [H1%Z.leb_le H2%Z.leb_le].
    unfold gt, number. repeat split; f_equal; apply Qgtb_false.
    - rewrite <- Zle_Qle. lia.
    - unfold Qle, Qdiv, Qmult, Qinv, inject_Z. simpl. lia.
    - change 0%Q with (inject_Z 0). rewrite <- Zle_Qle. lia. }
  destruct Hrow as (Hr0 & Hr10 & Hc0).
  assert (Hextract : _extract_metrics (JDict d) =
      match dict_get d "Plan" with
      | None | Some (JDict _) =>
          let root := match dict_get d "Plan" with
                      | Some (JDict root) => root
                      | _ => []
                      end in
          Ok {| plan_rows := default (JInt 0) (dict_get root "Plan Rows");
                plan_width := default (JInt 0) (dict_get root "Plan Width");
                total_cost := default (JFloat 0) (dict_get root "Total Cost");
                node_type := default (JStr "") (dict_get root "Node Type") |}
      | Some _ => Raise (AttributeError "get")
      end).
  { unfold _extract_metrics. simpl.
    destruct (dict_get d "Plan") as [[| | | | | |root]|]; reflexivity. }
  repeat split.
  - intros Hnone. rewrite Hextract, Hnone. reflexivity.
  - intros root Hroot. rewrite Hextract, Hroot. reflexivity.
  - intros fetched m Hplan Hm Hr Hc Ht. unfold guardrail_check.
    rewrite Hplan. simpl. rewrite Hm. simpl.
    now rewrite (defaults_pass Hvalid m Hr Hc Ht).
  - intros fetched m Hplan. unfold guardrail_check. rewrite Hplan. simpl.
    rewrite Hextract.
    destruct (dict_get d "Plan") as [rootv|] eqn:Hroot.
    + destruct rootv as [| | | | | |root]; try discriminate. simpl.
      match goal with
      | |- context [_apply_rules ?m0] =>
          destruct (_apply_rules m0) as [[|]|?] eqn:Hrules
      end; try discriminate.
      intros _. exists root. split; [reflexivity|].
      apply _apply_rules_false in Hrules. simpl in Hrules.
      destruct Hrules as [G | [G | (t & Hnode & Hseq & G)]].
      * left. destruct (dict_get root "Plan Rows") as [v|]; [eauto|].
        simpl in G. congruence.
      * right; left. destruct (dict_get root "Total Cost") as [v|]; [eauto|].
        simpl in G. congruence.
      * right; right.
        destruct (dict_get root "Plan Rows") as [v|];
          [|simpl in G; congruence].
        destruct (dict_get root "Node Type") as [node|]; simpl in Hnode.
        -- subst node. exists v, t. auto.
        -- injection Hnode as <-. discriminate Hseq.
    + simpl.
      rewrite (defaults_pass Hvalid) by reflexivity. discriminate.
Qed.

End Engine.

(** [SQLGuardrailConfig()] with its defaults. *)
Definition default_cfg : SQLGuardrailConfig :=
  {| row_threshold := 500000; cost_threshold := 100000; disallowed_functions := [] |}.

Definition no_json : string -> result value :=
  fun _ => Raise (ValueError "Expecting value").

(** An EXPLAIN answer estimating 600000 rows from a sequential scan. *)
Definition big_scan_plan : value :=
  JDict [("Plan", JDict [("Node Type", JStr "Seq Scan");
                         ("Plan Rows", JInt 600000);
                         ("Plan Width", JInt 8);
                         ("Total Cost", JFloat (12345 # 10))])].

Definition big_scan_metrics : Metrics :=
  {| plan_rows := JInt 600000; plan_width := JInt 8;
     total_cost := JFloat (12345 # 10); node_type := JStr "Seq Scan" |}.

Lemma guardrail_check_verdict_witness :
  exists allowed : bool,
    guardrail_check default_cfg no_json (Ok [[JList [big_scan_plan]]])
      = Ok (allowed, big_scan_metrics) /\
    (allowed = false <->
       (inject_Z 500000 < inject_Z 600000)%Q \/
       (inject_Z 100000 < 12345 # 10)%Q \/
       (lower "Seq Scan" = "seq scan" /\
        (inject_Z 500000 / 10 < inject_Z 600000)%Q)).
Proof.
  apply (guardrail_check_verdict default_cfg no_json
           (Ok [[JList [big_scan_plan]]]) big_scan_plan big_scan_metrics
           (inject_Z 600000) (12345 # 10) "Seq Scan");
    reflexivity.
Defined.

Lemma missing_metrics_never_reject_witness :
  SQLGuardrailConfig_valid default_cfg = true /\
  _extract_metrics (JDict []) = Ok default_metrics /\
  guardrail_check default_cfg no_json (Ok [[JList [JDict []]]])
    = Ok (true, default_metrics).
Proof.
  split; [reflexivity|].
  destruct (missing_metrics_never_reject default_cfg no_json [] eq_refl)
    as (Hdefault & _ & Hallowed & _).
  split; [exact (Hdefault eq_refl)|].
  apply Hallowed; reflexivity.
Defined.

(** *** Thresholds, rule order and the two forms of a plan *)

Lemma gt_monotone (v : value) (bound bound' : Q) :
  (bound <= bound')%Q -> gt v bound = Ok false -> gt v bound' = Ok false.
Proof.
  unfold gt. destruct (number v) as [q|]; [|discriminate].
  intros Hle [= Hq]. f_equal. apply Qgtb_false in Hq. apply Qgtb_false. lra.
Qed.

Lemma inject_Z_monotone (a b : Z) : a <= b -> (inject_Z a <= inject_Z b)%Q.
Proof. intros Hab. now rewrite <- Zle_Qle. Qed.

Lemma tenth_monotone (a b : Z) : a <= b -> (inject_Z a / 10 <= inject_Z b / 10)%Q.
Proof.
  intros Hab. apply Qmult_le_compat_r; [now apply inject_Z_monotone | discriminate].
Qed.

Lemma _apply_rules_monotone (cfg cfg' : SQLGuardrailConfig) (m : Metrics) :
  row_threshold cfg <= row_threshold cfg' ->
  cost_threshold cfg <= cost_threshold cfg' ->
  _apply_rules cfg m = Ok true -> _apply_rules cfg' m = Ok true.
Proof.
  intros Hrow Hcost. unfold _apply_rules.
  destruct (gt (plan_rows m) (inject_Z (row_threshold cfg))) as [[|]|?] eqn:Hr;
    simpl; try discriminate.
  rewrite (gt_monotone _ _ (inject_Z (row_threshold cfg')) (inject_Z_monotone _ _ Hrow) Hr).
  simpl.
  destruct (gt (total_cost m) (inject_Z (cost_threshold cfg))) as [[|]|?] eqn:Hc;
    simpl; try discriminate.
  rewrite (gt_monotone _ _ (inject_Z (cost_threshold cfg')) (inject_Z_monotone _ _ Hcost) Hc).
  simpl.
  destruct (lower_of (node_type m)) as [lowered|]; simpl; [|discriminate].
  destruct (String.eqb lowered "seq scan"); [|reflexivity].
  destruct (gt (plan_rows m) (inject_Z (row_threshold cfg) / 10)) as [[|]|?] eqn:Ht;
    simpl; try discriminate.
  now rewrite (gt_monotone _ _ (inject_Z (row_threshold cfg') / 10)
                 (tenth_monotone _ _ Hrow) Ht).
Qed.

(** X4. Raising the thresholds never turns an allowed plan into a refused
    one: a plan the check allows under one configuration is allowed, with
    the same metrics, under any configuration whose row and cost thresholds
    are at least as high. *)
Theorem guardrail_check_monotone (cfg cfg' : SQLGuardrailConfig)
  (json_loads : string -> result value) (fetched : result (list (list value)))
  (m : Metrics) :
  row_threshold cfg <= row_threshold cfg' ->
  cost_threshold cfg <= cost_threshold cfg' ->
  guardrail_check cfg json_loads fetched = Ok (true, m) ->
  guardrail_check cfg' json_loads fetched = Ok (true, m).
Proof.
  intros Hrow Hcost. unfold guardrail_check.
  destruct (_run_explain json_loads fetched) as [plan|]; simpl; [|discriminate].
  destruct (_extract_metrics plan) as [m0|]; simpl; [|discriminate].
  destruct (_apply_rules cfg m0) as [[|]|?] eqn:Hrules; simpl; try discriminate.
  intros [= <-]. now rewrite (_apply_rules_monotone cfg cfg' m0 Hrow Hcost Hrules).
Qed.

(** X5. The rules are tried in order and stop at the first that fires: a
    plan over the row threshold is refused whatever its cost and node type
    hold; a row estimate that is not a number raises [TypeError]; with the
    rows within the threshold a cost that is not a number raises [TypeError];
    and with rows and cost within their thresholds a node type that is not a
    string raises [AttributeError]. *)
Theorem _apply_rules_order (cfg : SQLGuardrailConfig) (m : Metrics) :
  (forall r, number (plan_rows m) = Some r ->
     (inject_Z (row_threshold cfg) < r)%Q -> _apply_rules cfg m = Ok false) /\
  (number (plan_rows m) = None ->
     exists msg, _apply_rules cfg m = Raise (TypeError msg)) /\
  (forall r, number (plan_rows m) = Some r ->
     (r <= inject_Z (row_threshold cfg))%Q -> number (total_cost m) = None ->
     exists msg, _apply_rules cfg m = Raise (TypeError msg)) /\
  (forall r c, number (plan_rows m) = Some r ->
     (r <= inject_Z (row_threshold cfg))%Q ->
     number (total_cost m) = Some c ->
     (c <= inject_Z (cost_threshold cfg))%Q ->
     (forall t, node_type m <> JStr t) ->
     exists msg, _apply_rules cfg m = Raise (AttributeError msg)).
Proof.
  unfold _apply_rules, gt. repeat split.
  - intros r -> Hr%Qgtb_true. simpl. now rewrite Hr.
  - intros ->. simpl. eauto.
  - intros r -> Hr%Qgtb_false ->. simpl. rewrite Hr. simpl. eauto.
  - intros r c -> Hr%Qgtb_false -> Hc%Qgtb_false Hnode. simpl. rewrite Hr. simpl.
    rewrite Hc. simpl.
    destruct (node_type m) as [| | | |t| |]; simpl; eauto. now destruct (Hnode t).
Qed.

(** X6. The driver may hand over the plan as JSON text or already decoded;
    when the text decodes to that document, the check answers the same for
    both. *)
Theorem guardrail_check_text_or_decoded (cfg : SQLGuardrailConfig)
  (json_loads : string -> result value) (s : string) (decoded : value)
  (columns : list value) (rows : list (list value)) :
  json_loads s = Ok decoded -> (forall t, decoded <> JStr t) ->
  guardrail_check cfg json_loads (Ok ((JStr s :: columns) :: rows))
  = guardrail_check cfg json_loads (Ok ((decoded :: columns) :: rows)).
Proof.
  intros Hloads Hdoc. unfold guardrail_check, _run_explain. simpl. rewrite Hloads.
  simpl. destruct decoded; try reflexivity. now destruct (Hdoc s0).
Qed.

(** A configuration with thresholds above the defaults, and a driver that
    hands over the plan of [big_scan_plan] as text. *)
Definition lenient_cfg : SQLGuardrailConfig :=
  {| row_threshold := 10000000; cost_threshold := 200000; disallowed_functions := [] |}.

Definition small_scan_plan : value :=
  JDict [("Plan", JDict [("Node Type", JStr "Index Scan");
                         ("Plan Rows", JInt 10);
                         ("Plan Width", JInt 8);
                         ("Total Cost", JFloat (83 # 10))])].

Definition small_scan_metrics : Metrics :=
  {| plan_rows := JInt 10; plan_width := JInt 8;
     total_cost := JFloat (83 # 10); node_type := JStr "Index Scan" |}.

Definition loads_small_scan : string -> result value :=
  fun _ => Ok (JList [small_scan_plan]).

Lemma guardrail_check_monotone_witness :
  guardrail_check default_cfg no_json (Ok [[JList [small_scan_plan]]])
    = Ok (true, small_scan_metrics) /\
  guardrail_check lenient_cfg no_json (Ok [[JList [small_scan_plan]]])
    = Ok (true, small_scan_metrics).
Proof.
  split; [reflexivity|].
  apply (guardrail_check_monotone default_cfg lenient_cfg no_json
           (Ok [[JList [small_scan_plan]]]) small_scan_metrics).
  - simpl. lia.
  - simpl. lia.
  - reflexivity.
Defined.

Lemma guardrail_check_text_or_decoded_witness :
  guardrail_check default_cfg loads_small_scan (Ok [[JStr "[{...}]"]])
  = guardrail_check default_cfg loads_small_scan (Ok [[JList [small_scan_plan]]]).
Proof.
  apply (guardrail_check_text_or_decoded default_cfg loads_small_scan "[{...}]"
           (JList [small_scan_plan]) [] []).
  - reflexivity.
  - discriminate.
Defined.

End Guardrails.

(** ** [app/rate_limiter.py] *)

Module RateLimiter.
Import Config.

(** [self._window] *)
Definition _window : Q := 60.

(** [while queue and queue[0] < window_start: queue.popleft()] *)
Fixpoint evict (window_start : Q) (queue : list Q) : list Q :=
  match queue with
  | t :: queue' =>
      if Qltb t window_start then evict window_start queue' else queue
  | [] => []
  end.

(** [allow], given the reading [now] of [time.time()].  The limiter's
    [_requests] is a [defaultdict(deque)]: a key not yet seen reads as the
    empty queue and is entered on first access.  The lock makes the body
    atomic, so a call is one step on the store. *)
Definition allow (cfg : SecurityConfig) (now : Q) (key : string)
  (_requests : gmap string (list Q)) : bool * gmap string (list Q) :=
  if negb (enable_rate_limiting cfg) then (true, _requests)
  else
    let window_start := (now - _window)%Q in
    let queue := evict window_start (default [] (_requests !! key)) in
    if Z.of_nat (length queue) >=? max_requests_per_minute cfg then
      (false, <[key := queue]> _requests)
    else (true, <[key := (queue ++ [now])%list]> _requests).

(** Successive calls for one key, at the given clock readings. *)
Fixpoint allow_each (cfg : SecurityConfig) (key : string) (times : list Q)
  (_requests : gmap string (list Q)) : list bool * gmap string (list Q) :=
  match times with
  | [] => ([], _requests)
  | now :: times' =>
      let (ok, st1) := allow cfg now key _requests in
      let (oks, st2) := allow_each cfg key times' st1 in
      (ok :: oks, st2)
  end.

(** *** Eviction *)

Lemma Qltb_true (a b : Q) : Qltb a b = true <-> (a < b)%Q.
Proof.
  unfold Qltb. rewrite negb_true_iff, <- not_true_iff_false, Qle_bool_iff.
  split; [apply Qnot_le_lt | apply Qlt_not_le].
Qed.

Lemma Qltb_false (a b : Q) : Qltb a b = false <-> (b <= a)%Q.
Proof. unfold Qltb. now rewrite negb_false_iff, Qle_bool_iff. Qed.

(** Timestamps inside the window stop the eviction in front of them. *)
Lemma evict_app (ws : Q) (old recent : list Q) :
  Forall (fun t => (ws <= t)%Q) recent ->
  evict ws (old ++ recent) = (evict ws old ++ recent)%list.
Proof.
  intros Hrecent. induction old as [|t old IH]; simpl.
  - destruct Hrecent as [|t recent Ht _]; [reflexivity|]. simpl.
    apply Qltb_false in Ht. now rewrite Ht.
  - destruct (Qltb t ws); [exact IH | reflexivity].
Qed.

Lemma evict_all (ws : Q) (queue : list Q) :
  Forall (fun t => (t < ws)%Q) queue -> evict ws queue = [].
Proof.
  induction 1 as [|t queue Ht _ IH]; simpl; [reflexivity|].
  apply Qltb_true in Ht. now rewrite Ht.
Qed.

(** The loop pops from the front: what it leaves is a tail of the queue. *)
Lemma evict_suffix (ws : Q) (queue : list Q) :
  exists old, queue = (old ++ evict ws queue)%list.
Proof.
  induction queue as [|t queue [old IH]]; simpl; [now exists []|].
  destruct (Qltb t ws); [|now exists []].
  exists (t :: old). simpl. now f_equal.
Qed.

(** On a queue in clock order the loop drops exactly the timestamps older
    than the window. *)
Lemma evict_sorted (ws : Q) (queue : list Q) :
  StronglySorted Qle queue ->
  evict ws queue = List.filter (fun t => negb (Qltb t ws)) queue.
Proof.
  induction 1 as [|t queue Hs IH Hall]; simpl; [reflexivity|].
  destruct (Qltb t ws) eqn:Ht; simpl; [exact IH|].
  f_equal. symmetry. apply forallb_filter_id, forallb_forall.
  intros u Hu. rewrite List.Forall_forall in Hall. specialize (Hall u Hu).
  apply Qltb_false in Ht. apply negb_true_iff, Qltb_false. lra.
Qed.

(** *** Bursts and quiescence *)

(** The readings that lie in one 60-second span starting at [lo]. *)
Definition in_window (lo t : Q) : Prop := (lo <= t /\ t <= lo + _window)%Q.

Definition queue_of (key : string) (_requests : gmap string (list Q)) : list Q :=
  default [] (_requests !! key).

Lemma sorted_snoc (queue : list Q) (now : Q) :
  StronglySorted Qle queue -> Forall (fun t => (t <= now)%Q) queue ->
  StronglySorted Qle (queue ++ [now]).
Proof.
  induction 1 as [|t queue Hs IH Hall]; intros Hnow; simpl.
  - repeat constructor.
  - apply Forall_cons in Hnow as [Ht Hnow]. constructor; [auto|].
    apply Forall_app. split; [exact Hall | now constructor].
Qed.

(** X7. While the clock does not run backwards the queue of a key stays in
    clock order: a call on a queue that is in order and holds no timestamp
    later than the clock reading leaves it so. *)
Lemma allow_keeps_clock_order (cfg : SecurityConfig) (now : Q) (key : string)
  (st : gmap string (list Q)) :
  StronglySorted Qle (queue_of key st) ->
  Forall (fun t => (t <= now)%Q) (queue_of key st) ->
  StronglySorted Qle (queue_of key (snd (allow cfg now key st))) /\
  Forall (fun t => (t <= now)%Q) (queue_of key (snd (allow cfg now key st))).
Proof.
  intros Hsorted Hpast. unfold allow.
  destruct (enable_rate_limiting cfg); simpl; [|auto].
  fold (queue_of key st).
  destruct (evict_suffix (now - _window) (queue_of key st)) as [old Hold].
  assert (Hkept : StronglySorted Qle (evict (now - _window) (queue_of key st)) /\
                  Forall (fun t => (t <= now)%Q)
                    (evict (now - _window) (queue_of key st))).
  { rewrite Hold in Hsorted, Hpast. split.
    - clear Hold Hpast. induction old as [|t old IH]; [exact Hsorted|].
      apply IH. now inversion Hsorted.
    - now apply Forall_app in Hpast as [_ Hpast]. }
  destruct Hkept as [Hs Hp].
  destruct (Z.of_nat _ >=? _); unfold queue_of; simpl;
    rewrite lookup_insert_eq; simpl.
  - auto.
  - split; [now apply sorted_snoc|].
    apply Forall_app. split; [exact Hp|]. constructor; [lra | constructor].
Qed.

Section Limiter.

Variable cfg : SecurityConfig.
Variable key : string.
Hypothesis enabled : enable_rate_limiting cfg = true.

Lemma allow_enabled (now : Q) (st : gmap string (list Q)) :
  allow cfg now key st =
    let kept := evict (now - _window) (queue_of key st) in
    if Z.of_nat (length kept) >=? max_requests_per_minute cfg
    then (false, <[key := kept]> st)
    else (true, <[key := (kept ++ [now])%list]> st).
Proof. unfold allow. now rewrite enabled. Qed.

Lemma queue_of_insert (q : list Q) (st : gmap string (list Q)) :
  queue_of key (<[key := q]> st) = q.
Proof. unfold queue_of. now rewrite lookup_insert_eq. Qed.

Lemma in_window_kept (lo now : Q) (recent : list Q) :
  in_window lo now -> Forall (in_window lo) recent ->
  Forall (fun t => (now - _window <= t)%Q) recent.
Proof.
  unfold in_window, _window. intros [_ Hnow] Hrecent.
  eapply List.Forall_impl; [|exact Hrecent]. simpl. intros t [Ht _]. lra.
Qed.

Lemma allow_each_app (a b : list Q) (st : gmap string (list Q)) :
  allow_each cfg key (a ++ b) st =
    let (oks, st1) := allow_each cfg key a st in
    let (oks', st2) := allow_each cfg key b st1 in
    ((oks ++ oks')%list, st2).
Proof.
  revert st. induction a as [|now a IH]; intros st; simpl.
  - now destruct (allow_each cfg key b st).
  - destruct (allow cfg now key st) as [ok st1]. rewrite IH.
    destruct (allow_each cfg key a st1) as [oks st2].
    now destruct (allow_each cfg key b st2).
Qed.

(** Calls of one span that were all allowed are all still in the queue. *)
Lemma burst_recorded (lo : Q) (times : list Q) :
  Forall (in_window lo) times ->
  forall (st : gmap string (list Q)) (old recent : list Q),
    queue_of key st = (old ++ recent)%list ->
    Forall (in_window lo) recent ->
    fst (allow_each cfg key times st) = repeat true (length times) ->
    exists old',
      queue_of key (snd (allow_each cfg key times st))
        = (old' ++ recent ++ times)%list.
Proof.
  induction 1 as [|now times Hnow Htimes IH]; intros st old recent Hq Hrecent Hall.
  - exists old. simpl. now rewrite app_nil_r.
  - simpl in Hall |- *. rewrite allow_enabled in Hall |- *. simpl in Hall |- *.
    rewrite Hq, (evict_app _ old recent) in Hall |- *
      by (eapply in_window_kept; eauto).
    destruct (Z.of_nat _ >=? _).
    + destruct (allow_each cfg key times _). discriminate Hall.
    + specialize (IH (<[key := ((evict (now - _window) old ++ recent) ++ [now])%list]> st)
                    (evict (now - _window) old) (recent ++ [now])%list).
      destruct (allow_each cfg key times _) as [oks st2] eqn:Heach.
      simpl in Hall |- *. injection Hall as Hall.
      destruct IH as (old' & Hold').
      * rewrite queue_of_insert. now rewrite <- app_assoc.
      * apply Forall_app. split; [exact Hrecent | now constructor].
      * exact Hall.
      * exists old'. simpl in Hold'. rewrite Hold', <- !app_assoc. reflexivity.
Qed.

(** On a queue that holds only timestamps of the span, calls are allowed
    while fewer than the limit are recorded. *)
Lemma burst_allowed (lo : Q) (times : list Q) :
  Forall (in_window lo) times ->
  forall (st : gmap string (list Q)),
    Forall (in_window lo) (queue_of key st) ->
    Z.of_nat (length (queue_of key st) + length times)
      <= max_requests_per_minute cfg ->
    fst (allow_each cfg key times st) = repeat true (length times) /\
    queue_of key (snd (allow_each cfg key times st))
      = (queue_of key st ++ times)%list.
Proof.
  induction 1 as [|now times Hnow Htimes IH]; intros st Hq Hlen.
  - simpl. now rewrite app_nil_r.
  - simpl. rewrite allow_enabled. simpl.
    assert (Hkept : evict (now - _window) (queue_of key st) = queue_of key st).
    { apply (evict_app _ [] (queue_of key st)). eapply in_window_kept; eauto. }
    rewrite Hkept.
    destruct (Z.geb_spec (Z.of_nat (length (queue_of key st)))
                (max_requests_per_minute cfg)) as [Hge|Hlt].
    { simpl in Hlen. lia. }
    specialize (IH (<[key := (queue_of key st ++ [now])%list]> st)).
    rewrite queue_of_insert in IH.
    destruct (allow_each cfg key times _) as [oks st2] eqn:Heach.
    simpl in IH |- *. destruct IH as [Hoks Hst2].
    + apply Forall_app. split; [exact Hq | now constructor].
    + rewrite length_app. simpl in Hlen |- *. lia.
    + rewrite Hoks, Hst2, <- app_assoc. auto.
Qed.

End Limiter.

(** C4. With rate limiting on and a limit the config accepts: a call first
    drops the timestamps older than 60 seconds, refuses without recording
    when the limit is reached and otherwise records the clock reading and
    allows; after as many allowed calls as the limit within one 60-second
    span the next call of the span is refused, on a key without recorded
    timestamps the calls up to the limit are allowed, and once every recorded
    timestamp is older than 60 seconds the next call is allowed.  With rate
    limiting off every call is allowed. *)
Theorem allow_sliding_window (cfg : SecurityConfig) (key : string)
  (st : gmap string (list Q)) :
  SecurityConfig_valid cfg = true ->
  (enable_rate_limiting cfg = true ->
   (forall now,
      let kept := evict (now - _window) (queue_of key st) in
      (StronglySorted Qle (queue_of key st) ->
       kept = List.filter (fun t => negb (Qltb t (now - _window))) (queue_of key st)) /\
      (max_requests_per_minute cfg <= Z.of_nat (length kept) ->
       allow cfg now key st = (false, <[key := kept]> st)) /\
      (Z.of_nat (length kept) < max_requests_per_minute cfg ->
       allow cfg now key st = (true, <[key := (kept ++ [now])%list]> st))) /\
   (forall lo burst last,
      Z.of_nat (length burst) = max_requests_per_minute cfg ->
      Forall (in_window lo) (burst ++ [last]) ->
      fst (allow_each cfg key burst st) = repeat true (length burst) ->
      fst (allow cfg last key (snd (allow_each cfg key burst st))) = false) /\
   (forall lo burst last,
      queue_of key st = [] ->
      Z.of_nat (length burst) = max_requests_per_minute cfg ->
      Forall (in_window lo) (burst ++ [last]) ->
      fst (allow_each cfg key (burst ++ [last]) st)
        = (repeat true (length burst) ++ [false])%list) /\
   (forall now,
      Forall (fun t => (t + _window < now)%Q) (queue_of key st) ->
      fst (allow cfg now key st) = true)) /\
  (enable_rate_limiting cfg = false ->
   forall now, allow cfg now key st = (true, st)).
Proof.
  intros Hvalid. unfold SecurityConfig_valid in Hvalid. apply Z.leb_le in Hvalid.
  split; [intros enabled | intros Hoff now; unfold allow; now rewrite Hoff].
  assert (Hrefused : forall lo burst last,
     Z.of_nat (length burst) = max_requests_per_minute cfg ->
     Forall (in_window lo) (burst ++ [last]) ->
     fst (allow_each cfg key burst st) = repeat true (length burst) ->
     fst (allow cfg last key (snd (allow_each cfg key burst st))) = false).
  { intros lo burst last Hlen Hspan Hall.
    apply Forall_app in Hspan as [Hburst Hlast].
    apply Forall_inv in Hlast.
    destruct (burst_recorded cfg key enabled lo burst Hburst st (queue_of key st) [])
      as (old' & Hq);
      [now rewrite app_nil_r | constructor | exact Hall |].
    rewrite allow_enabled by exact enabled. simpl. simpl in Hq. rewrite Hq.
    rewrite (evict_app _ old' burst) by (eapply in_window_kept; eauto).
    destruct (Z.geb_spec (Z.of_nat (length (evict (last - _window) old' ++ burst)))
                (max_requests_per_minute cfg)) as [Hge|Hlt]; [reflexivity|].
    rewrite length_app in Hlt. lia. }
  repeat split.
  - intros Hsorted. now apply evict_sorted.
  - intros Hfull. rewrite allow_enabled by exact enabled. simpl.
    destruct (Z.geb_spec (Z.of_nat (length (evict (now - _window) (queue_of key st))))
                (max_requests_per_minute cfg)); [reflexivity | lia].
  - intros Hroom. rewrite allow_enabled by exact enabled. simpl.
    destruct (Z.geb_spec (Z.of_nat (length (evict (now - _window) (queue_of key st))))
                (max_requests_per_minute cfg)); [lia | reflexivity].
  - exact Hrefused.
  - intros lo burst last Hempty Hlen Hspan.
    pose proof (proj1 (proj1 (Forall_app _ _ _) Hspan)) as Hburst.
    destruct (burst_allowed cfg key enabled lo burst Hburst st) as [Hall _].
    { rewrite Hempty. constructor. }
    { rewrite Hempty. simpl. lia. }
    specialize (Hrefused lo burst last Hlen Hspan Hall).
    rewrite allow_each_app.
    destruct (allow_each cfg key burst st) as [oks st1]. simpl in *.
    destruct (allow cfg last key st1) as [ok st2]. simpl in *.
    now rewrite Hall, Hrefused.
  - intros now Hold. rewrite allow_enabled by exact enabled. simpl.
    rewrite evict_all.
    + simpl length.
      destruct (Z.geb_spec (Z.of_nat 0) (max_requests_per_minute cfg));
        [lia | reflexivity].
    + eapply List.Forall_impl; [|exact Hold]. unfold _window. simpl. intros t Ht. lra.
Qed.

(** The limiter of [tests/unit/test_rate_limiter.py]: two requests a minute,
    three calls within a second. *)
Definition test_cfg : SecurityConfig :=
  {| enable_rate_limiting := true; max_requests_per_minute := 2 |}.

Lemma allow_sliding_window_witness :
  SecurityConfig_valid test_cfg = true /\
  fst (allow_each test_cfg "user" [1000; 1000 + (1 # 10); 1000 + (2 # 10)]%Q ∅)
    = [true; true; false].
Proof.
  split; [reflexivity|].
  destruct (allow_sliding_window test_cfg "user" ∅ eq_refl) as [Hon _].
  destruct (Hon eq_refl) as (_ & _ & Hfresh & _).
  apply (Hfresh 1000%Q [1000; 1000 + (1 # 10)]%Q (1000 + (2 # 10))%Q).
  - reflexivity.
  - reflexivity.
  - repeat constructor; unfold _window; simpl; lra.
Defined.

(** *** Keys, queue lengths and the window *)

(** Calls for any keys, one after the other, each at its clock reading. *)
Fixpoint allow_calls (cfg : SecurityConfig) (calls : list (Q * string))
  (_requests : gmap string (list Q)) : list bool * gmap string (list Q) :=
  match calls with
  | [] => ([], _requests)
  | (now, key) :: calls' =>
      let (ok, st1) := allow cfg now key _requests in
      let (oks, st2) := allow_calls cfg calls' st1 in
      (ok :: oks, st2)
  end.

(** The calls of a list of verdicts that were allowed. *)
Definition allowed_calls (oks : list bool) : nat := length (List.filter id oks).

Lemma evict_shorter (ws : Q) (queue : list Q) :
  (length (evict ws queue) <= length queue)%nat.
Proof.
  destruct (evict_suffix ws queue) as [old Hold].
  rewrite Hold at 2. rewrite length_app. lia.
Qed.

(** X8. A call for one key neither reads nor writes the queue of another:
    the other key's entry in the store is what it was, and the verdict is
    the same on any two stores that agree on the key's own queue. *)
Theorem allow_other_keys_untouched (cfg : SecurityConfig) (now : Q)
  (key other : string) (st st' : gmap string (list Q)) :
  other <> key ->
  snd (allow cfg now key st) !! other = st !! other /\
  (queue_of key st = queue_of key st' ->
   fst (allow cfg now key st) = fst (allow cfg now key st')).
Proof.
  intros Hne. unfold allow, queue_of. split.
  - destruct (enable_rate_limiting cfg); simpl; [|reflexivity].
    destruct (_ >=? _); simpl; now rewrite lookup_insert_ne.
  - intros ->. destruct (enable_rate_limiting cfg); simpl; [|reflexivity].
    now destruct (_ >=? _).
Qed.

Lemma allow_bound (cfg : SecurityConfig) (now : Q) (key : string)
  (st : gmap string (list Q)) :
  (forall k, Z.of_nat (length (queue_of k st)) <= max_requests_per_minute cfg) ->
  forall k,
    Z.of_nat (length (queue_of k (snd (allow cfg now key st))))
      <= max_requests_per_minute cfg.
Proof.
  intros Hst k. unfold allow.
  destruct (enable_rate_limiting cfg); simpl; [|apply Hst].
  fold (queue_of key st).
  pose proof (evict_shorter (now - _window) (queue_of key st)) as Hshort.
  pose proof (Hst key) as Hkey.
  destruct (Z.geb_spec (Z.of_nat (length (evict (now - _window) (queue_of key st))))
              (max_requests_per_minute cfg)) as [Hge|Hlt]; simpl;
    unfold queue_of at 1;
    (destruct (decide (k = key)) as [->|Hk];
     [rewrite lookup_insert_eq | rewrite lookup_insert_ne by congruence; apply Hst]);
    simpl; rewrite ?length_app; simpl; lia.
Qed.

(** X9. The store never holds more than [max_requests_per_minute]
    timestamps for a key: whatever calls were made, for whatever keys and at
    whatever clock readings, since the limiter was created. *)
Theorem queue_never_exceeds_limit (cfg : SecurityConfig)
  (calls : list (Q * string)) (key : string) :
  SecurityConfig_valid cfg = true ->
  Z.of_nat (length (queue_of key (snd (allow_calls cfg calls ∅))))
    <= max_requests_per_minute cfg.
Proof.
  intros Hvalid%Z.leb_le.
  enough (Hinv : forall st,
             (forall k, Z.of_nat (length (queue_of k st)) <= max_requests_per_minute cfg) ->
             forall k, Z.of_nat (length (queue_of k (snd (allow_calls cfg calls st))))
                       <= max_requests_per_minute cfg).
  { apply Hinv. intros k. unfold queue_of. rewrite lookup_empty. simpl. lia. }
  induction calls as [|[now key0] calls IH]; intros st Hst k; simpl; [apply Hst|].
  pose proof (allow_bound cfg now key0 st Hst) as Hstep.
  destruct (allow cfg now key0 st) as [ok st1]. simpl in Hstep.
  specialize (IH st1 Hstep k).
  now destruct (allow_calls cfg calls st1).
Qed.

Lemma window_allowed (cfg : SecurityConfig) (key : string) (lo : Q) (times : list Q) :
  enable_rate_limiting cfg = true ->
  Forall (in_window lo) times ->
  forall (st : gmap string (list Q)) (old recent : list Q),
    queue_of key st = (old ++ recent)%list ->
    Forall (in_window lo) recent ->
    allowed_calls (fst (allow_each cfg key times st)) = 0%nat \/
    Z.of_nat (length recent + allowed_calls (fst (allow_each cfg key times st)))
      <= max_requests_per_minute cfg.
Proof.
  intros enabled. induction 1 as [|now times Hnow Htimes IH];
    intros st old recent Hq Hrecent; [now left|].
  simpl. rewrite (allow_enabled cfg key enabled). simpl.
  rewrite Hq, (evict_app _ old recent) by (eapply in_window_kept; eauto).
  destruct (Z.geb_spec (Z.of_nat (length (evict (now - _window) old ++ recent)))
              (max_requests_per_minute cfg)) as [Hge|Hlt].
  - specialize (IH (<[key := (evict (now - _window) old ++ recent)%list]> st)
                  (evict (now - _window) old) recent).
    destruct (allow_each cfg key times _) as [oks st2]. simpl in *.
    apply IH; [apply (queue_of_insert key) | exact Hrecent].
  - specialize (IH (<[key := ((evict (now - _window) old ++ recent) ++ [now])%list]> st)
                  (evict (now - _window) old) (recent ++ [now])%list).
    destruct (allow_each cfg key times _) as [oks st2]. simpl in *.
    right. rewrite length_app in Hlt. unfold allowed_calls in *. simpl.
    destruct IH as [Hnone | Hsome].
    + rewrite (queue_of_insert key). now rewrite <- app_assoc.
    + apply Forall_app. split; [exact Hrecent | now constructor].
    + rewrite Hnone. lia.
    + rewrite length_app in Hsome. simpl in Hsome. lia.
Qed.

(** X10. With rate limiting on, no more than [max_requests_per_minute]
    calls of a key are allowed within any span of 60 seconds, whatever the
    store held before and in whatever order the clock readings come. *)
Theorem at_most_limit_per_window (cfg : SecurityConfig) (key : string) (lo : Q)
  (times : list Q) (st : gmap string (list Q)) :
  SecurityConfig_valid cfg = true ->
  enable_rate_limiting cfg = true ->
  Forall (in_window lo) times ->
  Z.of_nat (allowed_calls (fst (allow_each cfg key times st)))
    <= max_requests_per_minute cfg.
Proof.
  intros Hvalid%Z.leb_le enabled Hspan.
  destruct (window_allowed cfg key lo times enabled Hspan st (queue_of key st) [])
    as [Hnone | Hsome].
  - now rewrite app_nil_r.
  - constructor.
  - rewrite Hnone. simpl. lia.
  - simpl in Hsome. exact Hsome.
Qed.

Lemma allow_keeps_clock_order_witness :
  let st : gmap string (list Q) := {["user" := [990; 995]%Q]} in
  StronglySorted Qle (queue_of "user" st) /\
  queue_of "user" (snd (allow test_cfg 1000 "user" st)) = [990; 995]%Q /\
  StronglySorted Qle (queue_of "user" (snd (allow test_cfg 1000 "user" st))).
Proof.
  intros st.
  assert (Hsorted : StronglySorted Qle (queue_of "user" st)).
  { repeat constructor. unfold Qle. simpl. lia. }
  assert (Hpast : Forall (fun t => (t <= 1000)%Q) (queue_of "user" st)).
  { repeat constructor; unfold Qle; simpl; lia. }
  split; [exact Hsorted|]. split; [reflexivity|].
  exact (proj1 (allow_keeps_clock_order test_cfg 1000 "user" st Hsorted Hpast)).
Defined.

Lemma allow_other_keys_untouched_witness :
  let st : gmap string (list Q) := {["alice" := [990]%Q]} in
  snd (allow test_cfg 1000 "bob" st) !! "alice" = Some [990]%Q.
Proof.
  intros st.
  assert (Hne : "alice" <> "bob") by discriminate.
  exact (proj1 (allow_other_keys_untouched test_cfg 1000 "bob" "alice" st st Hne)).
Defined.

Lemma queue_never_exceeds_limit_witness :
  Z.of_nat (length (queue_of "user"
     (snd (allow_calls test_cfg
             [(1000, "user"); (1001, "user"); (1002, "other"); (1003, "user")]%Q ∅))))
  <= 2.
Proof.
  exact (queue_never_exceeds_limit test_cfg
           [(1000, "user"); (1001, "user"); (1002, "other"); (1003, "user")]%Q
           "user" eq_refl).
Defined.

Lemma at_most_limit_per_window_witness :
  let st : gmap string (list Q) := {["user" := [100; 990]%Q]} in
  Z.of_nat (allowed_calls (fst (allow_each test_cfg "user" [1030; 1000; 1059]%Q st)))
  <= 2.
Proof.
  intros st.
  apply (at_most_limit_per_window test_cfg "user" 1000%Q [1030; 1000; 1059]%Q st).
  - reflexivity.
  - reflexivity.
  - repeat constructor; unfold _window, Qle; simpl; lia.
Defined.

End RateLimiter.

(** ** [app/llm_reasoner.py] *)

Module LlmReasoner.

Section Reasoner.

(** [str(v)] as an f-string formats a value that is not a string. *)
Variable repr : value -> string.

(** The messages of [self._prompts.reasoner_validator.iter_errors(result)]. *)
Variable iter_errors : value -> list string.

Definition fmt (v : value) : string :=
  match v with
  | JStr s => s
  | _ => repr v
  end.

Definition check_table (allowed_tables : gset string) (table : value) : result unit :=
  known ← member table allowed_tables;
  if known : bool then Ok tt
  else Raise (ValueError ("LLM referenced unknown table " ++ fmt table)).

Definition check_column (table : string) (allowed_columns : gset string)
  (column : value) : result unit :=
  known ← member column allowed_columns;
  if known : bool then Ok tt
  else Raise (ValueError ("LLM referenced unknown column " ++ table ++ "." ++ fmt column)).

Definition check_context (schema_slice : value) (allowed_tables : gset string)
  (item : string * value) : result unit :=
  let (table, payload) := item in
  if negb (bool_decide (table ∈ allowed_tables)) then
    Raise (ValueError ("LLM referenced unknown context table " ++ table))
  else
    tables ← subscript schema_slice "tables";
    meta ← subscript tables table;
    columns ← subscript meta "columns";
    names ← keys columns;
    listed ← get payload "columns" (JList []);
    listed ← iter listed;
    for_each (check_column table (list_to_set names)) listed.

Definition _enforce_schema_bounds (result schema_slice : value) : Py.result unit :=
  tables ← get schema_slice "tables" (JDict []);
  names ← keys tables;
  let allowed_tables : gset string := list_to_set names in
  relevant ← get result "relevant_tables" (JList []);
  relevant ← iter relevant;
  for_each (check_table allowed_tables) relevant ;;
  context ← get result "schema_context" (JDict []);
  context ← items context;
  for_each (check_context schema_slice allowed_tables) context.

Definition join (sep : string) (parts : list string) : string :=
  match parts with
  | [] => ""
  | p :: ps => fold_left (fun acc q => acc ++ sep ++ q) ps p
  end.

(** [reason_schema_with_llm], given what [complete_json] answered. *)
Definition reason_schema_with_llm (completion : Py.result value)
  (schema_slice : value) : Py.result value :=
  result ← completion;
  match iter_errors result with
  | [] => _enforce_schema_bounds result schema_slice ;; Ok result
  | errors =>
      Raise (ValueError ("Reasoner returned invalid schema: " ++ join "; " errors))
  end.

(** *** Schema bounds *)

(** The tables of a slice, the tables and context a reasoner output names,
    and the columns a context entry lists, read the way the code reads them. *)
Definition slice_tables (schema_slice : value) : list (string * value) :=
  match get schema_slice "tables" (JDict []) ≫= items with
  | Ok tables => tables
  | Raise _ => []
  end.

Definition relevant_tables (result : value) : list value :=
  match get result "relevant_tables" (JList []) ≫= iter with
  | Ok l => l
  | Raise _ => []
  end.

Definition schema_context (result : value) : list (string * value) :=
  match get result "schema_context" (JDict []) ≫= items with
  | Ok l => l
  | Raise _ => []
  end.

Definition listed_columns (payload : value) : list value :=
  match get payload "columns" (JList []) ≫= iter with
  | Ok l => l
  | Raise _ => []
  end.

Definition is_slice_table (schema_slice : value) (table : string) : Prop :=
  is_Some (dict_get (slice_tables schema_slice) table).

Definition is_slice_column (schema_slice : value) (table column : string) : Prop :=
  exists meta columns,
    dict_get (slice_tables schema_slice) table = Some meta /\
    subscript meta "columns" = Ok (JDict columns) /\
    is_Some (dict_get columns column).

Definition in_bounds (result schema_slice : value) : Prop :=
  Forall (fun table => exists t, table = JStr t /\ is_slice_table schema_slice t)
         (relevant_tables result) /\
  Forall (fun item =>
            is_slice_table schema_slice (fst item) /\
            Forall (fun column =>
                      exists c, column = JStr c /\
                                is_slice_column schema_slice (fst item) c)
                   (listed_columns (snd item)))
         (schema_context result).

(** A slice as the selector builds it from a snapshot: a [tables] dictionary
    whose entries each carry a [columns] dictionary. *)
Definition slice_shaped (schema_slice : value) : Prop :=
  exists d tables,
    schema_slice = JDict d /\ dict_get d "tables" = Some (JDict tables) /\
    forall table meta, dict_get tables table = Some meta ->
      exists columns, subscript meta "columns" = Ok (JDict columns).

(** A reasoner output of the shape its JSON schema describes: lists of names. *)
Definition result_shaped (result : value) : Prop :=
  (exists names, get result "relevant_tables" (JList []) = Ok (JList (map JStr names))) /\
  (exists context,
     get result "schema_context" (JDict []) = Ok (JDict context) /\
     Forall (fun item => exists names,
               get (snd item) "columns" (JList []) = Ok (JList (map JStr names)))
            context).

Lemma for_each_Ok {A : Type} (body : A -> Py.result unit) (l : list A) :
  for_each body l = Ok tt <-> Forall (fun x => body x = Ok tt) l.
Proof.
  induction l as [|x l IH]; simpl.
  - split; [constructor | reflexivity].
  - rewrite Forall_cons, <- IH. destruct (body x) as [[]|e]; simpl.
    + tauto.
    + split; [discriminate | intros [H _]; discriminate H].
Qed.

Lemma for_each_Raise {A : Type} (body : A -> Py.result unit) (l : list A) (e : exn) :
  for_each body l = Raise e -> Exists (fun x => body x = Raise e) l.
Proof.
  induction l as [|x l IH]; simpl; [discriminate|].
  destruct (body x) as [[]|e'] eqn:Hx; simpl.
  - intros H. right. auto.
  - intros [= ->]. now left.
Qed.

Lemma elem_of_keys (d : list (string * value)) (k : string) :
  k ∈ (list_to_set (map fst d) : gset string) <-> is_Some (dict_get d k).
Proof.
  rewrite elem_of_list_to_set. induction d as [|[k0 v] d IH]; simpl.
  - rewrite elem_of_nil. split; [tauto | intros [? ?]; discriminate].
  - rewrite elem_of_cons, IH. simpl.
    destruct (String.eqb_spec k0 k) as [->|Hne].
    + split; eauto.
    + split; [intros [-> | H]; [congruence | exact H] | auto].
Qed.

Lemma member_true (v : value) (allowed : gset string) :
  member v allowed = Ok true <-> exists t, v = JStr t /\ t ∈ allowed.
Proof.
  destruct v; simpl; split; try discriminate;
    try (intros (t & Ht & _); discriminate Ht).
  - intros [= H%bool_decide_eq_true]. eauto.
  - intros (t & [= <-] & Ht). now rewrite bool_decide_eq_true_2.
Qed.

Lemma check_table_Ok (allowed : gset string) (table : value) :
  check_table allowed table = Ok tt <-> exists t, table = JStr t /\ t ∈ allowed.
Proof.
  rewrite <- member_true. unfold check_table.
  destruct (member table allowed) as [[|]|e]; simpl; split;
    congruence || discriminate.
Qed.

Lemma check_column_Ok (table : string) (allowed : gset string) (column : value) :
  check_column table allowed column = Ok tt <->
  exists c, column = JStr c /\ c ∈ allowed.
Proof.
  rewrite <- member_true. unfold check_column.
  destruct (member column allowed) as [[|]|e]; simpl; split;
    congruence || discriminate.
Qed.

Lemma subscript_tables (schema_slice tables_v : value) (table : string)
  (meta : value) :
  subscript schema_slice "tables" = Ok tables_v ->
  subscript tables_v table = Ok meta ->
  dict_get (slice_tables schema_slice) table = Some meta.
Proof.
  unfold slice_tables.
  destruct schema_slice as [| | | | | |d]; try discriminate. simpl.
  destruct (dict_get d "tables") as [v|]; [|discriminate]. intros [= ->].
  destruct tables_v as [| | | | | |tables]; try discriminate. simpl.
  destruct (dict_get tables table); [|discriminate]. now intros [= ->].
Qed.

Lemma check_context_Ok (schema_slice : value) (item : string * value) :
  check_context schema_slice
    (list_to_set (map fst (slice_tables schema_slice))) item = Ok tt ->
  is_slice_table schema_slice (fst item) /\
  Forall (fun column =>
            exists c, column = JStr c /\ is_slice_column schema_slice (fst item) c)
         (listed_columns (snd item)).
Proof.
  destruct item as [table payload]. unfold check_context, listed_columns. simpl.
  destruct (bool_decide_reflect
              (table ∈ (list_to_set (map fst (slice_tables schema_slice)) : gset string)))
    as [Hin|]; [|discriminate]. simpl.
  apply elem_of_keys in Hin.
  destruct (subscript schema_slice "tables") as [tv|] eqn:Htv; [|discriminate].
  simpl. destruct (subscript tv table) as [meta|] eqn:Hmeta; [|discriminate].
  simpl. destruct (subscript meta "columns") as [cols|] eqn:Hcols; [|discriminate].
  simpl. destruct cols as [| | | | | |cl]; try discriminate. simpl.
  destruct (get payload "columns" (JList [])) as [listed|]; [|discriminate].
  simpl. destruct (iter listed) as [l|]; [|discriminate]. simpl.
  intros Hall%for_each_Ok. split; [exact Hin|].
  eapply List.Forall_impl; [|exact Hall]. simpl.
  intros column (c & -> & Hc%elem_of_keys)%check_column_Ok.
  exists c. split; [reflexivity|]. exists meta, cl.
  eauto using subscript_tables.
Qed.

(** What the check lets through is within the slice. *)
Lemma _enforce_schema_bounds_Ok (result schema_slice : value) :
  _enforce_schema_bounds result schema_slice = Ok tt ->
  in_bounds result schema_slice.
Proof.
  unfold _enforce_schema_bounds, in_bounds, relevant_tables, schema_context.
  assert (Htables : forall tv names,
            get schema_slice "tables" (JDict []) = Ok tv -> keys tv = Ok names ->
            names = map fst (slice_tables schema_slice)).
  { intros tv names Htv Hnames. unfold slice_tables. rewrite Htv. simpl.
    destruct tv; try discriminate. simpl in *. congruence. }
  destruct (get schema_slice "tables" (JDict [])) as [tv|] eqn:Htv; [|discriminate].
  simpl. destruct (keys tv) as [names|] eqn:Hnames; [|discriminate]. simpl.
  rewrite (Htables tv names eq_refl Hnames).
  destruct (get result "relevant_tables" (JList [])) as [rel|]; [|discriminate].
  simpl. destruct (iter rel) as [rl|]; [|discriminate]. simpl.
  destruct (for_each _ rl) as [[]|] eqn:Hrel; [|discriminate]. simpl.
  destruct (get result "schema_context" (JDict [])) as [ctx|]; [|discriminate].
  simpl. destruct (items ctx) as [cl|]; [|discriminate]. simpl.
  intros Hctx%for_each_Ok. apply for_each_Ok in Hrel. split.
  - eapply List.Forall_impl; [|exact Hrel]. simpl.
    intros table (t & -> & Ht%elem_of_keys)%check_table_Ok. eauto.
  - eapply List.Forall_impl; [|exact Hctx]. intros item. apply check_context_Ok.
Qed.

(** On names, the two membership checks raise nothing but [ValueError]. *)
Lemma check_table_Raise (allowed : gset string) (t : string) (e : exn) :
  check_table allowed (JStr t) = Raise e -> exists msg, e = ValueError msg.
Proof.
  unfold check_table. simpl. destruct (bool_decide _); [discriminate|].
  intros [= <-]. eauto.
Qed.

Lemma check_column_Raise (table : string) (allowed : gset string) (c : string)
  (e : exn) :
  check_column table allowed (JStr c) = Raise e -> exists msg, e = ValueError msg.
Proof.
  unfold check_column. simpl. destruct (bool_decide _); [discriminate|].
  intros [= <-]. eauto.
Qed.

Lemma Exists_map_JStr (P : value -> Prop) (names : list string) :
  Exists P (map JStr names) -> exists t, P (JStr t).
Proof.
  intros H. apply List.Exists_exists in H as (v & Hv & HP).
  apply in_map_iff in Hv as (t & <- & _). eauto.
Qed.

Lemma check_context_shaped (d tables : list (string * value))
  (item : string * value) (names : list string) :
  dict_get d "tables" = Some (JDict tables) ->
  (forall table meta, dict_get tables table = Some meta ->
     exists columns, subscript meta "columns" = Ok (JDict columns)) ->
  get (snd item) "columns" (JList []) = Ok (JList (map JStr names)) ->
  let verdict := check_context (JDict d) (list_to_set (map fst tables)) item in
  (is_slice_table (JDict d) (fst item) /\
   Forall (fun column =>
             exists c, column = JStr c /\ is_slice_column (JDict d) (fst item) c)
          (listed_columns (snd item)) ->
   verdict = Ok tt) /\
  (forall e, verdict = Raise e -> exists msg, e = ValueError msg).
Proof.
  intros Htables Hcolumns Hlisted. destruct item as [table payload].
  simpl in Hlisted.
  assert (Hslice : slice_tables (JDict d) = tables).
  { unfold slice_tables. simpl. now rewrite Htables. }
  unfold check_context, is_slice_table, is_slice_column, listed_columns.
  rewrite Hslice. simpl fst. simpl snd. cbv zeta.
  destruct (bool_decide_reflect
              (table ∈ (list_to_set (map fst tables) : gset string))) as [Hin|Hout].
  2:{ simpl. split.
      - intros [Hin _]. now apply elem_of_keys in Hin.
      - intros e [= <-]. eauto. }
  apply elem_of_keys in Hin as [meta Hmeta].
  destruct (Hcolumns table meta Hmeta) as (cols & Hcols).
  simpl. rewrite Htables. simpl. rewrite Hmeta. simpl. rewrite Hcols. simpl.
  rewrite Hlisted. simpl. split.
  - intros [_ Hall]. apply for_each_Ok.
    eapply List.Forall_impl; [|exact Hall]. simpl.
    intros column (c & -> & meta' & cols' & Hm & Hc & Hsome).
    apply check_column_Ok. exists c. split; [reflexivity|].
    apply elem_of_keys. congruence.
  - intros e He%for_each_Raise%Exists_map_JStr. destruct He as (c & He).
    eauto using check_column_Raise.
Qed.

(** On a well-formed slice and a well-formed output the check passes exactly
    the outputs within bounds, and fails with a [ValueError] otherwise. *)
Lemma _enforce_schema_bounds_shaped (result schema_slice : value) :
  slice_shaped schema_slice -> result_shaped result ->
  (in_bounds result schema_slice ->
   _enforce_schema_bounds result schema_slice = Ok tt) /\
  (forall e, _enforce_schema_bounds result schema_slice = Raise e ->
             exists msg, e = ValueError msg).
Proof.
  intros (d & tables & -> & Htables & Hcolumns)
         ((names & Hrel) & (context & Hctx & Hpayloads)).
  assert (Hslice : slice_tables (JDict d) = tables).
  { unfold slice_tables. simpl. now rewrite Htables. }
  unfold _enforce_schema_bounds, in_bounds, relevant_tables, schema_context.
  assert (Hget : get (JDict d) "tables" (JDict []) = Ok (JDict tables))
    by (simpl; now rewrite Htables).
  rewrite Hget, Hrel, Hctx. simpl.
  assert (Hitems : Forall (fun item =>
     let verdict := check_context (JDict d) (list_to_set (map fst tables)) item in
     (is_slice_table (JDict d) (fst item) /\
      Forall (fun column =>
                exists c, column = JStr c /\ is_slice_column (JDict d) (fst item) c)
             (listed_columns (snd item)) ->
      verdict = Ok tt) /\
     (forall e, verdict = Raise e -> exists msg, e = ValueError msg)) context).
  { eapply List.Forall_impl; [|exact Hpayloads]. simpl.
    intros item (cols & Hcols). now apply (check_context_shaped d tables item cols). }
  split.
  - intros [Hin_rel Hin_ctx].
    assert (Hfirst : for_each (check_table (list_to_set (map fst tables)))
                       (map JStr names) = Ok tt).
    { apply for_each_Ok. eapply List.Forall_impl; [|exact Hin_rel]. simpl.
      intros table (t & -> & Ht). apply check_table_Ok. exists t.
      split; [reflexivity|]. apply elem_of_keys. now rewrite <- Hslice. }
    rewrite Hfirst. simpl. apply for_each_Ok.
    rewrite List.Forall_forall in Hitems, Hin_ctx |- *.
    intros item Hitem. apply (Hitems item Hitem), (Hin_ctx item Hitem).
  - intros e.
    destruct (for_each (check_table _) (map JStr names)) as [[]|e'] eqn:Hfirst; simpl.
    + intros He%for_each_Raise. apply List.Exists_exists in He as (item & Hitem & He).
      rewrite List.Forall_forall in Hitems. now apply (Hitems item Hitem).
    + intros [= <-]. apply for_each_Raise, Exists_map_JStr in Hfirst as (t & Ht).
      eauto using check_table_Raise.
Qed.

(** C5. A result the reasoner returns is the completion it was given and
    lies within the slice: its relevant tables and context keys are slice
    tables and every listed column is a column of its slice table.  On a
    well-formed slice and output that passed the schema validator, an output
    within bounds is returned and any other fails with a [ValueError]. *)
Theorem reasoner_output_in_bounds (completion : Py.result value)
  (schema_slice : value) :
  (forall result,
     reason_schema_with_llm completion schema_slice = Ok result ->
     completion = Ok result /\ in_bounds result schema_slice) /\
  (forall result,
     completion = Ok result -> iter_errors result = [] ->
     slice_shaped schema_slice -> result_shaped result ->
     (in_bounds result schema_slice ->
      reason_schema_with_llm completion schema_slice = Ok result) /\
     (~ in_bounds result schema_slice ->
      exists msg,
        reason_schema_with_llm completion schema_slice = Raise (ValueError msg))).
Proof.
  unfold reason_schema_with_llm. split.
  - intros result. destruct completion as [r|e]; simpl; [|discriminate].
    destruct (iter_errors r); [|discriminate].
    destruct (_enforce_schema_bounds r schema_slice) as [[]|e] eqn:Hcheck;
      simpl; [|discriminate].
    intros [= <-]. split; [reflexivity|]. now apply _enforce_schema_bounds_Ok.
  - intros result -> Hvalid Hslice Hresult. simpl. rewrite Hvalid.
    destruct (_enforce_schema_bounds_shaped result schema_slice Hslice Hresult)
      as [Hpass Hfail].
    split.
    + intros Hin. now rewrite (Hpass Hin).
    + intros Hout.
      destruct (_enforce_schema_bounds result schema_slice) as [[]|e] eqn:Hcheck.
      * destruct Hout. now apply _enforce_schema_bounds_Ok.
      * destruct (Hfail e eq_refl) as (msg & ->). simpl. eauto.
Qed.

End Reasoner.

(** A slice with one table and a reasoner output about it. *)
Definition claims_slice : value :=
  JDict [("tables",
          JDict [("public.claims",
                  JDict [("columns", JDict [("claim_id", JDict []);
                                            ("status", JDict [])])])]);
         ("foreign_keys", JList [])].

Definition claims_output : value :=
  JDict [("query_intent", JStr "open claims");
         ("relevant_tables", JList [JStr "public.claims"]);
         ("schema_context",
          JDict [("public.claims", JDict [("columns", JList [JStr "status"])])])].

Lemma reasoner_output_in_bounds_witness :
  reason_schema_with_llm (fun _ => "") (fun _ => []) (Ok claims_output) claims_slice
    = Ok claims_output /\
  in_bounds claims_output claims_slice.
Proof.
  assert (Hrun : reason_schema_with_llm (fun _ => "") (fun _ => [])
                   (Ok claims_output) claims_slice = Ok claims_output)
    by (vm_compute; reflexivity).
  split; [exact Hrun|].
  apply (proj1 (reasoner_output_in_bounds (fun _ => "") (fun _ => [])
                  (Ok claims_output) claims_slice) claims_output Hrun).
Defined.

(** *** Larger slices *)

(** Every table and column of the first slice is one of the second. *)
Definition slice_within (schema_slice schema_slice' : value) : Prop :=
  (forall table, is_slice_table schema_slice table ->
                 is_slice_table schema_slice' table) /\
  (forall table column, is_slice_column schema_slice table column ->
                        is_slice_column schema_slice' table column).

Lemma in_bounds_within (result schema_slice schema_slice' : value) :
  slice_within schema_slice schema_slice' ->
  in_bounds result schema_slice -> in_bounds result schema_slice'.
Proof.
  intros [Htables Hcolumns] [Hrel Hctx]. split.
  - eapply List.Forall_impl; [|exact Hrel]. simpl. intros v (t & -> & Ht). eauto.
  - eapply List.Forall_impl; [|exact Hctx]. simpl. intros item [Ht Hcols].
    split; [auto|]. eapply List.Forall_impl; [|exact Hcols]. simpl.
    intros v (c & -> & Hc). eauto.
Qed.

Section LargerSlice.

Variable repr : value -> string.

(** X11. An output the bounds check lets through for one slice is let
    through for every well-formed slice that holds the tables and columns of
    the first. *)
Theorem _enforce_schema_bounds_larger_slice (result schema_slice schema_slice' : value) :
  slice_within schema_slice schema_slice' ->
  slice_shaped schema_slice' -> result_shaped result ->
  _enforce_schema_bounds repr result schema_slice = Ok tt ->
  _enforce_schema_bounds repr result schema_slice' = Ok tt.
Proof.
  intros Hwithin Hshaped Hresult Hok.
  apply (_enforce_schema_bounds_shaped repr result schema_slice' Hshaped Hresult).
  apply (in_bounds_within result schema_slice); [exact Hwithin|].
  now apply (_enforce_schema_bounds_Ok repr).
Qed.

End LargerSlice.

(** A slice that holds the tables of [claims_slice] and one more. *)
Definition wider_slice : value :=
  JDict [("tables",
          JDict [("public.claims",
                  JDict [("columns", JDict [("claim_id", JDict []);
                                            ("status", JDict [])])]);
                 ("public.customers",
                  JDict [("columns", JDict [("customer_id", JDict [])])])]);
         ("foreign_keys", JList [])].

Lemma _enforce_schema_bounds_larger_slice_witness :
  _enforce_schema_bounds (fun _ => "") claims_output claims_slice = Ok tt /\
  _enforce_schema_bounds (fun _ => "") claims_output wider_slice = Ok tt.
Proof.
  split; [reflexivity|].
  apply (_enforce_schema_bounds_larger_slice (fun _ => "") claims_output
           claims_slice wider_slice).
  - assert (Hclaims : slice_tables claims_slice
                      = [("public.claims",
                          JDict [("columns", JDict [("claim_id", JDict []);
                                                    ("status", JDict [])])])])
      by reflexivity.
    assert (Hwider : slice_tables wider_slice
                     = [("public.claims",
                         JDict [("columns", JDict [("claim_id", JDict []);
                                                   ("status", JDict [])])]);
                        ("public.customers",
                         JDict [("columns", JDict [("customer_id", JDict [])])])])
      by reflexivity.
    unfold slice_within, is_slice_table, is_slice_column.
    rewrite Hclaims, Hwider. cbn [dict_get]. split.
    + intros table. destruct (String.eqb "public.claims" table); [eauto|].
      intros [? H]; discriminate H.
    + intros table column. destruct (String.eqb "public.claims" table); [auto|].
      intros (meta & columns & H & _). discriminate H.
  - exists [("tables",
             JDict [("public.claims",
                     JDict [("columns", JDict [("claim_id", JDict []);
                                               ("status", JDict [])])]);
                    ("public.customers",
                     JDict [("columns", JDict [("customer_id", JDict [])])])]);
            ("foreign_keys", JList [])].
    eexists. split; [reflexivity|]. split; [reflexivity|].
    intros table meta. cbn [dict_get].
    destruct (String.eqb "public.claims" table); [intros [= <-]; eexists; reflexivity|].
    destruct (String.eqb "public.customers" table);
      [intros [= <-]; eexists; reflexivity | discriminate].
  - split.
    + exists ["public.claims"]. reflexivity.
    + eexists. split; [reflexivity|]. repeat constructor.
      exists ["status"]. reflexivity.
  - reflexivity.
Defined.

End LlmReasoner.

(** ** [app/schema_selector.py] *)

Module SchemaSelector.
Import Config.

(** [_extract_fk_column]: any exception inside gives the empty string. *)
Definition _extract_fk_column (definition : value) (index : nat) : string :=
  match definition with
  | JStr text =>
      match nth_error (split_on "(" text) index with
      | Some part => strip (hd "" (split_on ")" part))
      | None => ""
      end
  | _ => ""
  end.

Section Selector.

(** [json.dumps] of the standard library; its output is ASCII, so the UTF-8
    encoding has one byte per character. *)
Variable json_dumps : value -> string.

Variable cfg : SchemaConfig.

(** [len(json.dumps(meta).encode("utf-8"))] *)
Definition encoded_len (meta : value) : Z :=
  Z.of_nat (String.length (json_dumps meta)).

(** The first loop, from the state [(slice_tables, total_bytes)] on. *)
Fixpoint walk_tables (tables : value) (table_ids : list string)
  (slice_tables : list (string * value)) (total_bytes : Z)
  : result (list (string * value)) :=
  match table_ids with
  | [] => Ok slice_tables
  | table_id :: rest =>
      meta ← get tables table_id JNull;
      if negb (truthy meta) then walk_tables tables rest slice_tables total_bytes
      else
        let total_bytes := total_bytes + encoded_len meta in
        if total_bytes >? max_schema_slice_bytes cfg then Ok slice_tables
        else walk_tables tables rest (dict_set slice_tables table_id meta) total_bytes
  end.

(** The second loop: the foreign keys whose two tables are in the slice. *)
Fixpoint project_fks (fks : list value) (slice_keys : gset string)
  : result (list value) :=
  match fks with
  | [] => Ok []
  | fk :: rest =>
      table ← get fk "table" JNull;
      foreign_table ← get fk "foreign_table" JNull;
      has_table ← member table slice_keys;
      has_foreign ← member foreign_table slice_keys;
      if has_table && has_foreign then
        definition ← get fk "definition" (JStr "");
        fk_set ← project_fks rest slice_keys;
        Ok (JList [table; JStr (_extract_fk_column definition 1);
                   foreign_table; JStr (_extract_fk_column definition 2)]
            :: fk_set)
      else project_fks rest slice_keys
  end.

Definition select_schema_slice (snapshot : value) (table_ids : list string)
  : result value :=
  tables ← get snapshot "tables" (JDict []);
  slice_tables ← walk_tables tables table_ids [] 0;
  fks ← get snapshot "foreign_keys" (JList []);
  fks ← iter fks;
  fk_set ← project_fks fks (list_to_set (map fst slice_tables));
  Ok (JDict [("tables", JDict slice_tables); ("foreign_keys", JList fk_set)]).

(** *** The byte budget *)

(** The ranked tables the snapshot knows, in rank order, with their meta. *)
Fixpoint candidates (tables : list (string * value)) (table_ids : list string)
  : list (string * value) :=
  match table_ids with
  | [] => []
  | table_id :: rest =>
      let meta := default JNull (dict_get tables table_id) in
      if truthy meta then (table_id, meta) :: candidates tables rest
      else candidates tables rest
  end.

(** Bytes of a sequence of tables, serialized one by one. *)
Definition spent (entries : list (string * value)) : Z :=
  fold_right (fun entry acc => encoded_len (snd entry) + acc) 0 entries.

(** The longest prefix whose serializations fit the budget. *)
Fixpoint within_budget (budget : Z) (entries : list (string * value))
  : list (string * value) :=
  match entries with
  | [] => []
  | entry :: rest =>
      if encoded_len (snd entry) <=? budget
      then entry :: within_budget (budget - encoded_len (snd entry)) rest
      else []
  end.

(** [d[k] = v] for each entry in turn. *)
Definition dict_update (d entries : list (string * value)) : list (string * value) :=
  fold_left (fun d entry => dict_set d (fst entry) (snd entry)) entries d.

Lemma encoded_len_nonneg (meta : value) : 0 <= encoded_len meta.
Proof. unfold encoded_len. lia. Qed.

Lemma spent_nonneg (entries : list (string * value)) : 0 <= spent entries.
Proof.
  induction entries as [|e l IH]; simpl; [lia|].
  pose proof (encoded_len_nonneg (snd e)). lia.
Qed.

(** The loop is the insertion of the longest affordable prefix. *)
Lemma walk_tables_spec (tables : list (string * value)) (table_ids : list string) :
  forall slice_tables total_bytes,
    walk_tables (JDict tables) table_ids slice_tables total_bytes =
      Ok (dict_update slice_tables
            (within_budget (max_schema_slice_bytes cfg - total_bytes)
               (candidates tables table_ids))).
Proof.
  induction table_ids as [|table_id rest IH]; intros slice_tables total_bytes;
    simpl; [reflexivity|].
  destruct (truthy (default JNull (dict_get tables table_id))); simpl; [|apply IH].
  set (len := encoded_len (default JNull (dict_get tables table_id))).
  destruct (Z.gtb_spec (total_bytes + len) (max_schema_slice_bytes cfg)) as [Hgt|Hle];
    destruct (Z.leb_spec len (max_schema_slice_bytes cfg - total_bytes)); try lia.
  - reflexivity.
  - rewrite IH. simpl. do 3 f_equal. lia.
Qed.

Lemma within_budget_prefix (entries : list (string * value)) :
  forall budget,
    within_budget budget entries
      = take (length (within_budget budget entries)) entries.
Proof.
  induction entries as [|e l IH]; intros budget; simpl; [reflexivity|].
  destruct (encoded_len (snd e) <=? budget); simpl; [|reflexivity].
  now rewrite <- IH.
Qed.

(** The table at rank [n] is taken exactly when the bytes up to and including
    it fit the budget. *)
Lemma within_budget_length (entries : list (string * value)) :
  forall budget n,
    (n < length entries)%nat ->
    ((n < length (within_budget budget entries))%nat <->
     spent (take (S n) entries) <= budget).
Proof.
  induction entries as [|e l IH]; intros budget n Hn; simpl in Hn; [lia|].
  simpl within_budget. simpl take.
  change (spent (e :: take n l)) with (encoded_len (snd e) + spent (take n l)).
  pose proof (spent_nonneg (take n l)).
  destruct (Z.leb_spec (encoded_len (snd e)) budget) as [Hle|Hgt]; simpl.
  - destruct n as [|n].
    + simpl. split; [lia | intros _; lia].
    + rewrite <- Nat.succ_lt_mono, (IH (budget - encoded_len (snd e)) n) by lia.
      lia.
  - split; [lia | intros; lia].
Qed.

Lemma spent_within_budget (entries : list (string * value)) :
  forall budget, 0 <= budget -> spent (within_budget budget entries) <= budget.
Proof.
  induction entries as [|e l IH]; intros budget Hb; simpl; [lia|].
  destruct (Z.leb_spec (encoded_len (snd e)) budget); simpl; [|lia].
  pose proof (encoded_len_nonneg (snd e)).
  specialize (IH (budget - encoded_len (snd e))). lia.
Qed.

Lemma spent_dict_set (d : list (string * value)) (k : string) (v : value) :
  spent (dict_set d k v) <= spent d + encoded_len v.
Proof.
  induction d as [|[k0 v0] d IH]; simpl; [lia|].
  pose proof (encoded_len_nonneg v0).
  destruct (String.eqb k0 k); simpl; lia.
Qed.

Lemma spent_dict_update (entries d : list (string * value)) :
  spent (dict_update d entries) <= spent d + spent entries.
Proof.
  revert d. induction entries as [|e l IH]; intros d; simpl; [lia|].
  unfold dict_update in IH |- *. simpl.
  specialize (IH (dict_set d (fst e) (snd e))).
  pose proof (spent_dict_set d (fst e) (snd e)). lia.
Qed.

(** [snapshot["tables"]] as the loop reads it. *)
Definition snapshot_tables (snapshot : value) : list (string * value) :=
  match get snapshot "tables" (JDict []) with
  | Ok (JDict tables) => tables
  | _ => []
  end.

Lemma walk_tables_Ok (tables : value) (table_ids : list string)
  (slice_tables out : list (string * value)) (total_bytes : Z) :
  walk_tables tables table_ids slice_tables total_bytes = Ok out ->
  out = dict_update slice_tables
          (within_budget (max_schema_slice_bytes cfg - total_bytes)
             (candidates (match tables with JDict t => t | _ => [] end) table_ids)).
Proof.
  destruct tables as [| | | | | |t];
    try (destruct table_ids; simpl; [now intros [= <-] | discriminate]).
  rewrite walk_tables_spec. now intros [= <-].
Qed.

(** A foreign key the projection can test: a dict whose table names can be
    hashed. *)
Definition hashable (v : value) : Prop :=
  match v with
  | JList _ | JDict _ => False
  | _ => True
  end.

Definition fk_shaped (fk : value) : Prop :=
  exists d, fk = JDict d /\
            hashable (default JNull (dict_get d "table")) /\
            hashable (default JNull (dict_get d "foreign_table")).

Lemma member_hashable (v : value) (allowed : gset string) :
  hashable v -> exists b, member v allowed = Ok b.
Proof. destruct v; simpl; intros H; try contradiction; eauto. Qed.

Lemma project_fks_total (fks : list value) (slice_keys : gset string) :
  Forall fk_shaped fks -> exists fk_set, project_fks fks slice_keys = Ok fk_set.
Proof.
  induction 1 as [|fk fks (d & -> & Ht & Hf) _ (fk_set & IH)]; simpl; [eauto|].
  destruct (member_hashable _ slice_keys Ht) as (b1 & ->).
  destruct (member_hashable _ slice_keys Hf) as (b2 & ->). simpl.
  rewrite IH. destruct (b1 && b2); simpl; eauto.
Qed.

(** C6. With a budget the config accepts, the slice holds the ranked tables
    of the snapshot up to the first one whose serialization takes the running
    byte count over [max_schema_slice_bytes]: the table at rank [n] is in
    exactly when the bytes of ranks [0..n] fit, nothing after the first
    exceedance is in, and the bytes of the slice tables stay within the
    budget.  The selector returns on every snapshot whose [tables] is a dict
    and whose foreign keys are well formed. *)
Theorem select_schema_slice_budget (snapshot : value) (table_ids : list string) :
  SchemaConfig_valid cfg = true ->
  let ranked := candidates (snapshot_tables snapshot) table_ids in
  let budget := max_schema_slice_bytes cfg in
  (forall slice,
     select_schema_slice snapshot table_ids = Ok slice ->
     exists included,
       subscript slice "tables" = Ok (JDict (dict_update [] included)) /\
       included = take (length included) ranked /\
       (forall n, (n < length ranked)%nat ->
          ((n < length included)%nat <-> spent (take (S n) ranked) <= budget)) /\
       spent (dict_update [] included) <= budget) /\
  (forall tables fks,
     get snapshot "tables" (JDict []) = Ok (JDict tables) ->
     (get snapshot "foreign_keys" (JList []) ≫= iter) = Ok fks ->
     Forall fk_shaped fks ->
     exists slice, select_schema_slice snapshot table_ids = Ok slice).
Proof.
  intros Hvalid ranked budget. unfold SchemaConfig_valid in Hvalid.
  apply andb_true_iff in Hvalid as [_ Hbudget%Z.leb_le]. split.
  - intros slice. unfold select_schema_slice.
    destruct (get snapshot "tables" (JDict [])) as [tv|] eqn:Htv; [|discriminate].
    simpl. destruct (walk_tables tv table_ids [] 0) as [out|] eqn:Hwalk;
      [|discriminate].
    apply walk_tables_Ok in Hwalk. rewrite Z.sub_0_r in Hwalk.
    assert (Hranked : candidates (match tv with JDict t => t | _ => [] end) table_ids
                      = ranked).
    { unfold ranked, snapshot_tables. rewrite Htv. destruct tv; try reflexivity;
        induction table_ids; simpl; auto. }
    rewrite Hranked in Hwalk. fold budget in Hwalk. simpl.
    destruct (get snapshot "foreign_keys" (JList [])) as [fv|]; [|discriminate].
    simpl. destruct (iter fv) as [fks|]; [|discriminate]. simpl.
    destruct (project_fks fks _) as [fk_set|]; [|discriminate]. simpl.
    intros [= <-]. exists (within_budget budget ranked). subst out.
    split; [reflexivity|]. split; [apply within_budget_prefix|].
    split; [intros n Hn; now apply within_budget_length|].
    pose proof (spent_dict_update (within_budget budget ranked) []).
    pose proof (spent_within_budget ranked budget). simpl in *. unfold budget in *.
    lia.
  - intros tables fks Htables Hfks Hshaped. unfold select_schema_slice.
    rewrite Htables. simpl. rewrite walk_tables_spec. simpl.
    destruct (get snapshot "foreign_keys" (JList [])) as [fv|]; [|discriminate].
    simpl in Hfks |- *. rewrite Hfks. simpl.
    destruct (project_fks_total fks
                (list_to_set (map fst (dict_update []
                   (within_budget (max_schema_slice_bytes cfg - 0)
                      (candidates tables table_ids))))) Hshaped) as (fk_set & ->).
    simpl. eauto.
Qed.

End Selector.

(** The snapshot of [tests/unit/test_schema_selector.py], with a budget of
    200 bytes. *)
Definition test_table : value := JDict [("columns", JDict [("col", JDict [])])].

Definition test_snapshot : value :=
  JDict [("tables", JDict [("public.table0", test_table);
                           ("public.table1", test_table);
                           ("public.table2", test_table)]);
         ("foreign_keys",
          JList [JDict [("table", JStr "public.table0");
                        ("foreign_table", JStr "public.table1");
                        ("definition",
                         JStr "FOREIGN KEY (col) REFERENCES public.table1(col)")]])].

Definition test_cfg : SchemaConfig :=
  {| refresh_interval_s := 3600; max_schema_slice_bytes := 2048 |}.

(** A serializer for the witness: every table takes 1000 bytes. *)
Definition kilobyte : value -> string :=
  fun _ => String.concat "" (repeat "0123456789" 100).

Lemma select_schema_slice_budget_witness :
  SchemaConfig_valid test_cfg = true /\
  exists slice,
    select_schema_slice kilobyte test_cfg test_snapshot
      ["public.table0"; "public.table1"; "public.table2"] = Ok slice /\
    subscript slice "tables"
      = Ok (JDict [("public.table0", test_table); ("public.table1", test_table)]).
Proof.
  split; [reflexivity|].
  destruct (select_schema_slice_budget kilobyte test_cfg test_snapshot
              ["public.table0"; "public.table1"; "public.table2"] eq_refl)
    as [_ Htotal].
  edestruct Htotal as (slice & Hslice).
  - reflexivity.
  - reflexivity.
  - repeat constructor. eexists. split; [reflexivity|]. split; exact I.
  - exists slice. split; [exact Hslice|].
    revert Hslice. vm_compute. now intros [= <-].
Defined.

(** *** Foreign key definitions, and what a slice holds *)

#[local] Arguments String.append !s1 s2 : simpl nomatch.

(** [sep not in s] *)
Fixpoint absent (sep : ascii) (s : string) : bool :=
  match s with
  | EmptyString => true
  | String c s' => negb (Ascii.eqb c sep) && absent sep s'
  end.

Lemma append_empty (s : string) : s ++ "" = s.
Proof. induction s as [|c s IH]; simpl; [reflexivity | now rewrite IH]. Qed.

Lemma split_on_nonempty (sep : ascii) (s : string) : split_on sep s <> [].
Proof.
  induction s as [|c s IH]; simpl; [discriminate|].
  destruct (Ascii.eqb c sep); [discriminate|].
  destruct (split_on sep s); [now destruct IH | discriminate].
Qed.

(** Splitting after a prefix without the separator: the prefix joins the
    first piece. *)
Lemma split_on_app (sep : ascii) (x y : string) :
  absent sep x = true ->
  split_on sep (x ++ y) = (x ++ hd "" (split_on sep y)) :: tl (split_on sep y).
Proof.
  induction x as [|c x IH]; simpl.
  - intros _. pose proof (split_on_nonempty sep y). now destruct (split_on sep y).
  - intros [Hc Hx]%andb_true_iff. apply negb_true_iff in Hc. rewrite Hc.
    now rewrite (IH Hx).
Qed.

Lemma split_on_sep (sep : ascii) (x y : string) :
  absent sep x = true ->
  split_on sep (x ++ String sep y) = x :: split_on sep y.
Proof.
  intros Hx. rewrite (split_on_app sep x _ Hx). simpl.
  rewrite Ascii.eqb_refl. simpl. now rewrite append_empty.
Qed.

Lemma split_on_absent (sep : ascii) (x : string) :
  absent sep x = true -> split_on sep x = [x].
Proof.
  intros Hx. rewrite <- (append_empty x) at 1.
  rewrite (split_on_app sep x "" Hx). simpl. now rewrite append_empty.
Qed.

(** X12. [_extract_fk_column] reads the two parenthesised column lists of
    a constraint definition [FOREIGN KEY (c1) REFERENCES t(c2)]: the text
    between the first pair of parentheses for index 1 and between the second
    pair for index 2, stripped of surrounding blanks, whatever follows the
    second pair.  A definition without an opening parenthesis, or one that is
    not a string, gives the empty string. *)
Theorem _extract_fk_column_parses (a c1 b c2 rest text : string) (other : value) :
  (absent "(" a = true -> absent "(" c1 = true -> absent ")" c1 = true ->
   absent "(" b = true -> absent "(" c2 = true -> absent ")" c2 = true ->
   let definition :=
     JStr (a ++ "(" ++ c1 ++ ")" ++ b ++ "(" ++ c2 ++ ")" ++ rest) in
   _extract_fk_column definition 1 = strip c1 /\
   _extract_fk_column definition 2 = strip c2) /\
  (absent "(" text = true ->
   _extract_fk_column (JStr text) 1 = "" /\ _extract_fk_column (JStr text) 2 = "") /\
  ((forall s, other <> JStr s) -> forall index, _extract_fk_column other index = "").
Proof.
  split; [|split].
  - intros Ha Hc1 Hc1' Hb Hc2 Hc2'. unfold _extract_fk_column.
    change (a ++ "(" ++ c1 ++ ")" ++ b ++ "(" ++ c2 ++ ")" ++ rest)
      with (a ++ String "(" (c1 ++ String ")" (b ++ String "(" (c2 ++ String ")" rest)))).
    rewrite (split_on_sep "(" a _ Ha).
    assert (Hmid : absent "(" (c1 ++ String ")" b) = true).
    { clear -Hc1 Hb. induction c1 as [|c c1 IH]; simpl in *; [exact Hb|].
      apply andb_true_iff in Hc1 as [-> Hc1]. simpl. auto. }
    assert (Hassoc : c1 ++ String ")" (b ++ String "(" (c2 ++ String ")" rest))
                     = (c1 ++ String ")" b) ++ String "(" (c2 ++ String ")" rest)).
    { clear. induction c1 as [|c c1 IH]; simpl; [reflexivity | now rewrite IH]. }
    rewrite Hassoc, (split_on_sep "(" _ _ Hmid). split.
    + simpl nth_error. cbv iota beta. now rewrite (split_on_sep ")" c1 b Hc1').
    + simpl nth_error. rewrite (split_on_app "(" c2 _ Hc2). simpl hd.
      destruct (split_on "(" rest) as [|part parts]; simpl hd;
        now rewrite (split_on_sep ")" c2 _ Hc2').
  - intros Htext. unfold _extract_fk_column.
    now rewrite (split_on_absent "(" text Htext).
  - intros Hother index. destruct other; try reflexivity. now destruct (Hother s).
Qed.

Lemma in_candidates (tables : list (string * value)) (table_ids : list string)
  (table : string) (meta : value) :
  In (table, meta) (candidates tables table_ids) ->
  In table table_ids /\ dict_get tables table = Some meta /\ truthy meta = true.
Proof.
  induction table_ids as [|id rest IH]; simpl; [tauto|].
  destruct (truthy (default JNull (dict_get tables id))) eqn:Htruthy.
  - intros [[= <- <-] | H].
    + split; [auto|]. split; [|exact Htruthy].
      destruct (dict_get tables id); [reflexivity | discriminate Htruthy].
    + destruct (IH H) as (? & ? & ?). auto.
  - intros H. destruct (IH H) as (? & ? & ?). auto.
Qed.

Lemma dict_get_dict_set (d : list (string * value)) (k k' : string) (v : value) :
  dict_get (dict_set d k v) k' = if String.eqb k k' then Some v else dict_get d k'.
Proof.
  induction d as [|[k0 v0] d IH]; simpl; [reflexivity|].
  destruct (String.eqb_spec k0 k) as [->|Hne]; simpl.
  - now destruct (String.eqb k k').
  - rewrite IH. destruct (String.eqb_spec k k') as [->|]; [|reflexivity].
    now destruct (String.eqb_spec k0 k').
Qed.

(** A key of the updated dictionary was there before or came with an entry. *)
Lemma dict_get_dict_update (entries d : list (string * value)) (k : string) (v : value) :
  dict_get (dict_update d entries) k = Some v ->
  dict_get d k = Some v \/ In (k, v) entries.
Proof.
  revert d. induction entries as [|[k0 v0] l IH]; intros d; [auto|].
  unfold dict_update. simpl. intros H. apply IH in H as [H | H]; [|auto].
  rewrite dict_get_dict_set in H.
  destruct (String.eqb_spec k0 k) as [->|]; [injection H as ->|]; auto.
Qed.

Lemma dict_update_keys (entries d : list (string * value)) (k : string) :
  is_Some (dict_get (dict_update d entries) k) <->
  is_Some (dict_get d k) \/ In k (map fst entries).
Proof.
  revert d. induction entries as [|[k0 v0] l IH]; intros d.
  - simpl. tauto.
  - unfold dict_update. simpl. fold (dict_update (dict_set d k0 v0) l).
    rewrite IH, dict_get_dict_set.
    destruct (String.eqb_spec k0 k) as [->|Hne]; [split; eauto|].
    split; [tauto | intros [H | [H | H]]; tauto || congruence].
Qed.

Section SliceContents.

Variable json_dumps : value -> string.
Variable cfg : SchemaConfig.

Lemma in_within_budget (entries : list (string * value)) (entry : string * value) :
  forall budget,
    In entry (within_budget json_dumps budget entries) -> In entry entries.
Proof.
  induction entries as [|e l IH]; intros budget; simpl; [tauto|].
  destruct (_ <=? _); simpl; [|tauto]. intros [H | H]; eauto.
Qed.

(** The slice a call returned: its tables and its foreign keys. *)
Lemma select_schema_slice_Ok (snapshot : value) (table_ids : list string)
  (slice : value) :
  select_schema_slice json_dumps cfg snapshot table_ids = Ok slice ->
  exists fks fk_set,
    let tables :=
      dict_update [] (within_budget json_dumps (max_schema_slice_bytes cfg)
                        (candidates (snapshot_tables snapshot) table_ids)) in
    slice = JDict [("tables", JDict tables); ("foreign_keys", JList fk_set)] /\
    project_fks fks (list_to_set (map fst tables)) = Ok fk_set.
Proof.
  unfold select_schema_slice.
  destruct (get snapshot "tables" (JDict [])) as [tv|] eqn:Htv; [|discriminate].
  simpl. destruct (walk_tables json_dumps cfg tv table_ids [] 0) as [out|] eqn:Hwalk;
    [|discriminate].
  apply walk_tables_Ok in Hwalk. rewrite Z.sub_0_r in Hwalk.
  assert (Hranked : candidates (match tv with JDict t => t | _ => [] end) table_ids
                    = candidates (snapshot_tables snapshot) table_ids).
  { unfold snapshot_tables. rewrite Htv. destruct tv; try reflexivity;
      induction table_ids; simpl; auto. }
  rewrite Hranked in Hwalk. simpl.
  destruct (get snapshot "foreign_keys" (JList [])) as [fv|]; [|discriminate].
  simpl. destruct (iter fv) as [fks|]; [|discriminate]. simpl.
  destruct (project_fks fks _) as [fk_set|] eqn:Hfks; [|discriminate]. simpl.
  intros [= <-]. subst out. eauto.
Qed.

(** X13. The slice invents nothing: every table it holds is one of the
    ranked ids, is a table of the snapshot, and carries the snapshot's meta
    for it unchanged. *)
Theorem slice_tables_from_snapshot (snapshot : value) (table_ids : list string)
  (slice : value) :
  select_schema_slice json_dumps cfg snapshot table_ids = Ok slice ->
  exists tables,
    subscript slice "tables" = Ok (JDict tables) /\
    forall table meta, dict_get tables table = Some meta ->
      In table table_ids /\
      dict_get (snapshot_tables snapshot) table = Some meta /\
      truthy meta = true.
Proof.
  intros (fks & fk_set & -> & _)%select_schema_slice_Ok.
  eexists. split; [reflexivity|]. intros table meta Hget.
  apply dict_get_dict_update in Hget as [Hget | Hin]; [discriminate Hget|].
  apply in_within_budget in Hin. now apply in_candidates in Hin.
Qed.

Lemma project_fks_closed (fks : list value) (slice_keys : gset string)
  (fk_set : list value) :
  project_fks fks slice_keys = Ok fk_set ->
  Forall (fun fk => exists table column foreign_table foreign_column,
            fk = JList [JStr table; JStr column;
                        JStr foreign_table; JStr foreign_column] /\
            table ∈ slice_keys /\ foreign_table ∈ slice_keys)
         fk_set.
Proof.
  revert fk_set. induction fks as [|fk rest IH]; intros fk_set; simpl.
  - intros [= <-]. constructor.
  - destruct (get fk "table" JNull) as [table|]; [|discriminate]. simpl.
    destruct (get fk "foreign_table" JNull) as [foreign|]; [|discriminate]. simpl.
    destruct (member table slice_keys) as [[|]|] eqn:Ht; try discriminate; simpl.
    + destruct (member foreign slice_keys) as [[|]|] eqn:Hf; try discriminate; simpl.
      * destruct (get fk "definition" (JStr "")) as [definition|]; [|discriminate].
        simpl. destruct (project_fks rest slice_keys) as [more|]; [|discriminate].
        simpl. intros [= <-].
        apply LlmReasoner.member_true in Ht as (t & -> & Ht).
        apply LlmReasoner.member_true in Hf as (f & -> & Hf).
        constructor; [eauto 10 | now apply IH].
      * apply IH.
    + destruct (member foreign slice_keys) as [[|]|]; try discriminate; apply IH.
Qed.

(** X14. A slice is closed under its foreign keys: each one it lists is a
    quadruple of table, column, referenced table and referenced column, and
    both tables are tables of the slice. *)
Theorem slice_foreign_keys_closed (snapshot : value) (table_ids : list string)
  (slice : value) :
  select_schema_slice json_dumps cfg snapshot table_ids = Ok slice ->
  exists tables fk_set,
    slice = JDict [("tables", JDict tables); ("foreign_keys", JList fk_set)] /\
    Forall (fun fk => exists table column foreign_table foreign_column,
              fk = JList [JStr table; JStr column;
                          JStr foreign_table; JStr foreign_column] /\
              is_Some (dict_get tables table) /\
              is_Some (dict_get tables foreign_table))
           fk_set.
Proof.
  intros (fks & fk_set & -> & Hfks)%select_schema_slice_Ok.
  eexists _, fk_set. split; [reflexivity|].
  apply project_fks_closed in Hfks.
  eapply List.Forall_impl; [|exact Hfks]. simpl.
  intros fk (t & c & f & fc & -> & Ht & Hf).
  exists t, c, f, fc. split; [reflexivity|].
  split; now apply LlmReasoner.elem_of_keys.
Qed.

End SliceContents.

Lemma within_budget_more (json_dumps : value -> string)
  (entries : list (string * value)) (entry : string * value) :
  forall budget budget',
    budget <= budget' ->
    In entry (within_budget json_dumps budget entries) ->
    In entry (within_budget json_dumps budget' entries).
Proof.
  induction entries as [|e l IH]; intros budget budget' Hle; simpl; [tauto|].
  destruct (Z.leb_spec (encoded_len json_dumps (snd e)) budget) as [Hfit|Hover];
    [|intros []].
  destruct (Z.leb_spec (encoded_len json_dumps (snd e)) budget') as [Hfit'|Hover];
    [|lia].
  intros [Hhead | Htail]; [now left | right].
  apply (IH (budget - encoded_len json_dumps (snd e))); [lia | exact Htail].
Qed.

(** X15. A larger byte budget never loses a table: with the same
    serializer, snapshot and ranking, every table of the slice cut under the
    smaller budget is in the slice cut under the larger one, with the same
    meta. *)
Theorem slice_grows_with_budget (json_dumps : value -> string)
  (cfg cfg' : SchemaConfig) (snapshot : value) (table_ids : list string)
  (slice slice' : value) :
  max_schema_slice_bytes cfg <= max_schema_slice_bytes cfg' ->
  select_schema_slice json_dumps cfg snapshot table_ids = Ok slice ->
  select_schema_slice json_dumps cfg' snapshot table_ids = Ok slice' ->
  exists tables tables',
    subscript slice "tables" = Ok (JDict tables) /\
    subscript slice' "tables" = Ok (JDict tables') /\
    forall table meta, dict_get tables table = Some meta ->
                       dict_get tables' table = Some meta.
Proof.
  intros Hle (fks & fk_set & -> & _)%select_schema_slice_Ok
         (fks' & fk_set' & -> & _)%select_schema_slice_Ok.
  eexists _, _. split; [reflexivity|]. split; [reflexivity|].
  intros table meta Hget.
  apply dict_get_dict_update in Hget as [Hget | Hin]; [discriminate Hget|].
  pose proof (within_budget_more json_dumps _ _ _ _ Hle Hin) as Hin'.
  assert (Hkey : is_Some (dict_get (dict_update []
                   (within_budget json_dumps (max_schema_slice_bytes cfg')
                      (candidates (snapshot_tables snapshot) table_ids))) table)).
  { apply (proj2 (dict_update_keys _ _ _)). right.
    apply in_map_iff. now exists (table, meta). }
  destruct Hkey as [meta' Hmeta']. rewrite Hmeta'. f_equal.
  apply dict_get_dict_update in Hmeta' as [Hmeta' | Hin2]; [discriminate Hmeta'|].
  apply in_within_budget, in_candidates in Hin as (_ & H1 & _).
  apply in_within_budget, in_candidates in Hin2 as (_ & H2 & _).
  congruence.
Qed.

Definition test_ranking : list string :=
  ["public.table0"; "public.table1"; "public.table2"].

Definition roomy_cfg : SchemaConfig :=
  {| refresh_interval_s := 3600; max_schema_slice_bytes := 8192 |}.

Lemma slice_tables_from_snapshot_witness :
  exists slice tables,
    select_schema_slice kilobyte test_cfg test_snapshot test_ranking = Ok slice /\
    subscript slice "tables" = Ok (JDict tables) /\
    forall table meta, dict_get tables table = Some meta ->
      In table test_ranking /\
      dict_get (snapshot_tables test_snapshot) table = Some meta /\
      truthy meta = true.
Proof.
  assert (Hrun : exists slice,
             select_schema_slice kilobyte test_cfg test_snapshot test_ranking = Ok slice)
    by (eexists; vm_compute; reflexivity).
  destruct Hrun as [slice Hrun].
  destruct (slice_tables_from_snapshot kilobyte test_cfg test_snapshot test_ranking
              slice Hrun) as (tables & Hsub & Hall).
  exists slice, tables. auto.
Defined.

Lemma slice_foreign_keys_closed_witness :
  exists slice tables,
    select_schema_slice kilobyte test_cfg test_snapshot test_ranking = Ok slice /\
    slice = JDict [("tables", JDict tables);
                   ("foreign_keys",
                    JList [JList [JStr "public.table0"; JStr "col";
                                  JStr "public.table1"; JStr "col"]])] /\
    is_Some (dict_get tables "public.table0") /\
    is_Some (dict_get tables "public.table1").
Proof.
  assert (Hrun : select_schema_slice kilobyte test_cfg test_snapshot test_ranking
                 = Ok (JDict [("tables", JDict [("public.table0", test_table);
                                                ("public.table1", test_table)]);
                              ("foreign_keys",
                               JList [JList [JStr "public.table0"; JStr "col";
                                             JStr "public.table1"; JStr "col"]])]))
    by (vm_compute; reflexivity).
  destruct (slice_foreign_keys_closed kilobyte test_cfg test_snapshot test_ranking
              _ Hrun) as (tables & fk_set & Hslice & Hclosed).
  injection Hslice as <- <-.
  eexists _, _. split; [exact Hrun|]. split; [reflexivity|].
  apply Forall_inv in Hclosed as (t & c & f & fc & [= <- <- <- <-] & Ht & Hf).
  auto.
Defined.

Lemma slice_grows_with_budget_witness :
  exists slice slice' tables tables',
    select_schema_slice kilobyte test_cfg test_snapshot test_ranking = Ok slice /\
    select_schema_slice kilobyte roomy_cfg test_snapshot test_ranking = Ok slice' /\
    subscript slice "tables" = Ok (JDict tables) /\
    subscript slice' "tables" = Ok (JDict tables') /\
    forall table meta, dict_get tables table = Some meta ->
                       dict_get tables' table = Some meta.
Proof.
  assert (Hrun : exists slice,
             select_schema_slice kilobyte test_cfg test_snapshot test_ranking = Ok slice)
    by (eexists; vm_compute; reflexivity).
  assert (Hrun' : exists slice,
             select_schema_slice kilobyte roomy_cfg test_snapshot test_ranking = Ok slice)
    by (eexists; vm_compute; reflexivity).
  destruct Hrun as [slice Hrun]. destruct Hrun' as [slice' Hrun'].
  assert (Hle : max_schema_slice_bytes test_cfg <= max_schema_slice_bytes roomy_cfg)
    by (simpl; lia).
  destruct (slice_grows_with_budget kilobyte test_cfg roomy_cfg test_snapshot
              test_ranking slice slice' Hle Hrun Hrun')
    as (tables & tables' & Hsub & Hsub' & Hall).
  exists slice, slice', tables, tables'. auto.
Defined.

End SchemaSelector.

(** ** [app/sql_generator.py] *)

Module SqlGenerator.
Import Config.

Definition newline : string := String (ascii_of_nat 10) EmptyString.

(** [sep.join(parts)] *)
Definition join (sep : string) (parts : list string) : string :=
  match parts with
  | [] => ""
  | p :: ps => fold_left (fun acc q => acc ++ sep ++ q) ps p
  end.

(** [s.replace(".", "_")] *)
Fixpoint dots_to_underscores (s : string) : string :=
  match s with
  | EmptyString => EmptyString
  | String c s' =>
      String (if Ascii.eqb c "." then "_"%char else c) (dots_to_underscores s')
  end.

#[local] Arguments String.append !s1 s2 : simpl nomatch.

Lemma append_assoc (a b c : string) : (a ++ b) ++ c = a ++ (b ++ c).
Proof. induction a as [|x a IH]; simpl; [reflexivity | now rewrite IH]. Qed.



(** *** The text of the query intent

    The intent is text a user typed, and [_build_where_clauses] reads numbers
    in it with [\d] and [int()], which take the decimal digits of every
    script.  The intent is therefore the list of its code points. *)
Definition unicode : Type := list N.

(** A string literal of the source (all of them are ASCII). *)
Definition literal (s : string) : unicode := map N_of_ascii (list_ascii_of_string s).

(** [s.startswith(p)] *)
Fixpoint has_prefix (p s : unicode) : bool :=
  match p, s with
  | [], _ => true
  | _ :: _, [] => false
  | a :: p', b :: s' => if (a =? b)%N then has_prefix p' s' else false
  end.

(** [needle in hay] *)
Fixpoint has_substring (needle hay : unicode) : bool :=
  if has_prefix needle hay then true
  else match hay with
       | [] => false
       | _ :: hay' => has_substring needle hay'
       end.

(** [re.search(pattern, s)]: the match at the leftmost position, given the
    match of the pattern at the start of a text. *)
Fixpoint search (match_at : unicode -> option unicode) (s : unicode) : option unicode :=
  match match_at s with
  | Some group => Some group
  | None => match s with
            | [] => None
            | _ :: s' => search match_at s'
            end
  end.

(** What [date_parser.parse(text).date().isoformat()] comes to: a date, a
    [ValueError] or [OverflowError], which the code catches, or an exception
    of another class. *)
Inductive parsed_date : Type :=
| IsoDate (iso_date : string)
| Refused
| Failed (e : exn).

Section Generator.

Variable cfg : PostgresConfig.

(** [str.lower] *)
Variable lower : unicode -> unicode.

(** The interpreter's Unicode database: the decimal digit a code point beyond
    ASCII stands for, if it is one ([unicodedata.decimal]). *)
Variable wide_decimal : N -> option Z.

(** [sys.get_int_max_str_digits()]: the longest decimal numeral [int()]
    converts, 4300 unless configured, 0 for no limit. *)
Variable int_max_str_digits : Z.

(** The date library. *)
Variable parse_date : unicode -> parsed_date.

(** The decimal digit a character stands for. *)
Definition decimal (c : N) : option Z :=
  if (c <? 128)%N then
    if ((48 <=? c)%N && (c <=? 57)%N)%bool then Some (Z.of_N c - 48) else None
  else wide_decimal c.

(** The class [\d] of a [str] pattern. *)
Definition is_decimal (c : N) : bool :=
  match decimal c with
  | Some _ => true
  | None => false
  end.

(** The longest run of digits a text starts with, and what follows it. *)
Fixpoint span_digits (s : unicode) : unicode * unicode :=
  match s with
  | c :: s' =>
      if is_decimal c then
        let (ds, rest) := span_digits s' in (c :: ds, rest)
      else ([], s)
  | [] => ([], [])
  end.

(** The pattern [last (\d+) day] matched at the start of [s]: the group.
    The digits are followed by a space, so the greedy [\d+] never gives any
    back. *)
Definition match_last_days (s : unicode) : option unicode :=
  if has_prefix (literal "last ") s then
    let (ds, rest) := span_digits (drop 5 s) in
    match ds with
    | [] => None
    | _ => if has_prefix (literal " day") rest then Some ds else None
    end
  else None.

(** The pattern [(\d{4}-\d{2}-\d{2})] matched at the start of [s]. *)
Definition match_iso_date (s : unicode) : option unicode :=
  match s with
  | y1 :: y2 :: y3 :: y4 :: h1 :: m1 :: m2 :: h2 :: d1 :: d2 :: _ =>
      if (is_decimal y1 && is_decimal y2 && is_decimal y3 && is_decimal y4
          && (h1 =? 45)%N && is_decimal m1 && is_decimal m2
          && (h2 =? 45)%N && is_decimal d1 && is_decimal d2)%bool
      then Some [y1; y2; y3; y4; h1; m1; m2; h2; d1; d2]
      else None
  | _ => None
  end.

(** The number a run of digits writes. *)
Definition digits_value (ds : unicode) : Z :=
  fold_left (fun acc c => 10 * acc + default 0 (decimal c)) ds 0.

(** [int(group)] for the group [\d+] captured, which is digits throughout.
    A numeral of more than 640 digits is checked against the interpreter's
    limit; the text of the message is that of CPython 3.12. *)
Definition int_of_digits (group : unicode) : result Z :=
  let digits := Z.of_nat (length group) in
  if ((640 <? digits) && (0 <? int_max_str_digits)
      && (int_max_str_digits <? digits))%bool then
    Raise (ValueError
             ("Exceeds the limit (" ++ str_of_Z int_max_str_digits
                ++ " digits) for integer string conversion: value has "
                ++ str_of_Z digits
                ++ " digits; use sys.set_int_max_str_digits() to increase the limit"))
  else Ok (digits_value group).

Definition _build_where_clauses (query_intent : unicode) : result (list string) :=
  let lowered := lower query_intent in
  let clauses := [] in
  clauses ←
    (if has_substring (literal "last") lowered
        && has_substring (literal "day") lowered then
       days ← match search match_last_days lowered with
              | Some group => int_of_digits group
              | None => Ok 30
              end;
       Ok (clauses ++ [("created_at >= CURRENT_DATE - INTERVAL '"
                          ++ str_of_Z days ++ " days'")%string])%list
     else Ok clauses);
  let clauses :=
    if has_substring (literal "active") lowered
    then (clauses ++ ["status = 'active'"])%list
    else clauses in
  match search match_iso_date lowered with
  | Some group =>
      match parse_date group with
      | IsoDate iso_date =>
          Ok (clauses ++ [("created_at >= DATE '" ++ iso_date ++ "'")%string])%list
      | Refused => Ok clauses
      | Failed e => Raise e
      end
  | None => Ok clauses
  end.

(** [schema_context.get(table, {}).get("columns", [])] on a context that maps
    tables to column lists. *)
Definition columns_of (schema_context : list (string * list string))
  (table : string) : list string :=
  default [] (dict_get schema_context table).

Definition _build_select_columns (schema_context : list (string * list string))
  (relevant_tables : list string) : list string :=
  let columns :=
    flat_map (fun table =>
                map (fun column =>
                       table ++ "." ++ column ++ " AS "
                         ++ dots_to_underscores table ++ "_" ++ column)
                    (take 5 (columns_of schema_context table)))
             relevant_tables in
  match columns with
  | [] => ["*"]
  | _ => columns
  end.

Definition _build_from_clause (relevant_tables : list string)
  (foreign_keys_map : list (string * string * string * string)) : result string :=
  match relevant_tables with
  | [] => Raise (ValueError "No tables provided for SQL generation")
  | base :: _ =>
      let joins :=
        flat_map (fun fk =>
                    let '(left_table, left_col, right_table, right_col) := fk in
                    if bool_decide (left_table ∈ relevant_tables)
                       && bool_decide (right_table ∈ relevant_tables)
                    then ["LEFT JOIN " ++ right_table ++ " ON " ++ left_table ++ "."
                            ++ left_col ++ " = " ++ right_table ++ "." ++ right_col]
                    else [])
                 foreign_keys_map in
      Ok (join " " (base :: joins))
  end.

Definition _compose_sql (select_cols : list string) (from_clause : string)
  (where_clauses : list string) : string :=
  let select_clause := join ("," ++ newline ++ "       ") select_cols in
  let where_clause :=
    match where_clauses with
    | [] => ""
    | _ => newline ++ "WHERE " ++ join " AND " where_clauses
    end in
  let limit_clause := newline ++ "LIMIT " ++ str_of_Z (sample_limit cfg) in
  "SELECT" ++ newline ++ "       " ++ select_clause ++ newline ++ "FROM "
    ++ from_clause ++ where_clause ++ limit_clause ++ ";".

(** [SQLPlan] *)
Record SQLPlan : Type := {
  sql : string;
  purpose : unicode;
  expected_rows : string;
}.

Definition generate (query_intent : unicode)
  (schema_context : list (string * list string)) (relevant_tables : list string)
  (foreign_keys_map : list (string * string * string * string))
  : result (list SQLPlan) :=
  let select_cols := _build_select_columns schema_context relevant_tables in
  from_clause ← _build_from_clause relevant_tables foreign_keys_map;
  where_clauses ← _build_where_clauses query_intent;
  let sql := _compose_sql select_cols from_clause where_clauses in
  Ok [{| sql := sql; purpose := query_intent; expected_rows := "unknown" |}].

(** *** What the two patterns and the substring tests find *)


Definition all_decimal (s : unicode) : bool := forallb is_decimal s.

(** [s] starts with [last <digits> day]. *)
Definition last_days_at (s group : unicode) : Prop :=
  exists post, s = (literal "last " ++ group ++ literal " day" ++ post)%list /\
               all_decimal group = true /\ group <> [].





Lemma has_prefix_spec (p s : unicode) :
  has_prefix p s = true <-> exists post, s = (p ++ post)%list.
Proof.
  revert s. induction p as [|a p IH]; intros s; simpl.
  - split; eauto.
  - destruct s as [|b s].
    + split; [discriminate | intros (post & H); discriminate H].
    + destruct (N.eqb_spec a b) as [->|Hne].
      * rewrite IH. split; intros (post & H); exists post; simpl in *; congruence.
      * split; [discriminate | intros (post & H); simpl in H; congruence].
Qed.


Lemma search_Some (match_at : unicode -> option unicode) (s group : unicode) :
  search match_at s = Some group ->
  exists pre suf,
    s = (pre ++ suf)%list /\ match_at suf = Some group /\
    forall pre' suf',
      s = (pre' ++ suf')%list -> (length pre' < length pre)%nat ->
      match_at suf' = None.
Proof.
  induction s as [|c s IH]; simpl.
  - destruct (match_at []) eqn:Hm; [|discriminate]. intros [= ->].
    exists [], []. repeat split; auto. simpl. intros; lia.
  - destruct (match_at (c :: s)) eqn:Hm.
    + intros [= ->]. exists [], (c :: s). repeat split; auto.
      simpl. intros; lia.
    + intros (pre & suf & -> & Hsuf & Hfirst)%IH.
      exists (c :: pre), suf. repeat split; auto.
      intros [|c' pre'] suf' Heq Hlen; simpl in Heq.
      * now subst suf'.
      * injection Heq as _ Heq. simpl in Hlen. apply (Hfirst pre' suf' Heq). lia.
Qed.



Lemma span_digits_spec (s : unicode) :
  s = (fst (span_digits s) ++ snd (span_digits s))%list /\
  all_decimal (fst (span_digits s)) = true.
Proof.
  induction s as [|c s [IH1 IH2]]; simpl; [auto|].
  destruct (is_decimal c) eqn:Hc; simpl; [|auto].
  destruct (span_digits s) as [ds rest]. simpl in *. rewrite Hc, IH2.
  split; [now rewrite <- IH1 | reflexivity].
Qed.

Lemma span_digits_app (ds rest : unicode) :
  all_decimal ds = true -> has_prefix (literal " ") rest = true ->
  span_digits (ds ++ rest)%list = (ds, rest).
Proof.
  intros Hds (post & ->)%has_prefix_spec.
  induction ds as [|c ds IH]; simpl in *; [reflexivity|].
  apply andb_true_iff in Hds as [-> Hds]. now rewrite (IH Hds).
Qed.

Lemma match_last_days_spec (s group : unicode) :
  match_last_days s = Some group <-> last_days_at s group.
Proof.
  unfold match_last_days, last_days_at. split.
  - destruct (has_prefix (literal "last ") s) eqn:Hlast; [|discriminate].
    apply has_prefix_spec in Hlast as (tail & ->).
    change (drop 5 (literal "last " ++ tail)%list) with tail.
    destruct (span_digits_spec tail) as [Htail Hdigits].
    destruct (span_digits tail) as [ds rest]. simpl in Htail, Hdigits.
    destruct ds as [|c ds]; [discriminate|].
    destruct (has_prefix (literal " day") rest) eqn:Hday; [|discriminate].
    apply has_prefix_spec in Hday as (post & ->). intros [= <-].
    exists post. repeat split; [now rewrite Htail | exact Hdigits | discriminate].
  - intros (post & -> & Hdigits & Hne).
    assert (Hlast : has_prefix (literal "last ")
                      (literal "last " ++ group ++ literal " day" ++ post)%list = true)
      by (apply has_prefix_spec; eauto).
    rewrite Hlast.
    change (drop 5 (literal "last " ++ group ++ literal " day" ++ post)%list)
      with (group ++ literal " day" ++ post)%list.
    rewrite (span_digits_app group (literal " day" ++ post)%list Hdigits eq_refl).
    destruct group; [congruence|].
    assert (Hday : has_prefix (literal " day") (literal " day" ++ post)%list = true)
      by (apply has_prefix_spec; eauto).
    now rewrite Hday.
Qed.


(** The numeral a pattern captured is no longer than the text. *)
Lemma search_last_days_length (s group : unicode) :
  search match_last_days s = Some group -> (length group <= length s)%nat.
Proof.
  intros (pre & suf & -> & Hm & _)%search_Some.
  apply match_last_days_spec in Hm as (post & -> & _).
  rewrite !length_app. lia.
Qed.



End Generator.

(** *** Intents of the scenarios

    [str.lower] on text whose cased characters are ASCII. *)
Definition lower_ascii_text (s : unicode) : unicode :=
  map (fun c => if ((65 <=? c)%N && (c <=? 90)%N)%bool then (c + 32)%N else c) s.

(** The Arabic-Indic digits, U+0660 to U+0669. *)
Definition arabic_indic (c : N) : option Z :=
  if ((1632 <=? c)%N && (c <=? 1641)%N)%bool then Some (Z.of_N c - 1632) else None.

(** A date library that accepts one date. *)
Definition one_date (text : unicode) : parsed_date :=
  if bool_decide (text = literal "2024-01-02") then IsoDate "2024-01-02" else Refused.

(** The intent of the end-to-end scenario. *)
Example scenario_where_clauses :
  _build_where_clauses lower_ascii_text arabic_indic 4300 one_date
    (literal "Show claims from active customers in last 30 days")
  = Ok ["created_at >= CURRENT_DATE - INTERVAL '30 days'"; "status = 'active'"].
Proof. vm_compute. reflexivity. Qed.

(** Only the leftmost text of the shape of a date is tried. *)
Example first_date_only :
  _build_where_clauses lower_ascii_text arabic_indic 4300 one_date
    (literal "claims from 2024-13-45 to 2024-01-02") = Ok [].
Proof. vm_compute. reflexivity. Qed.

(** [last <U+0667> days]: a digit of another script is read as its value. *)
Example arabic_indic_days :
  _build_where_clauses lower_ascii_text arabic_indic 4300 one_date
    (literal "last " ++ [1639%N] ++ literal " days")%list
  = Ok ["created_at >= CURRENT_DATE - INTERVAL '7 days'"].
Proof. vm_compute. reflexivity. Qed.

(** A numeral of 4301 digits is more than [int()] converts. *)
Example long_numeral_raises :
  exists msg,
    _build_where_clauses lower_ascii_text arabic_indic 4300 one_date
      (literal "last " ++ repeat 49%N 4301 ++ literal " days")%list
    = Raise (ValueError msg).
Proof. eexists. vm_compute. reflexivity. Qed.

(** *** The plan and its select list *)

(** X16. [generate] returns exactly one plan or raises, and never returns
    an empty list.  With no table it raises [ValueError], whatever the
    intent.  With a table it raises what [_build_where_clauses] raises, and
    otherwise returns one plan whose purpose is the intent, whose expected
    rows are unknown and whose statement opens with SELECT and closes with
    the sample limit.  For an intent whose lower-cased text has at most 640
    characters and a date library that raises only what the code catches, it
    returns a plan. *)
Theorem generate_one_plan (cfg : PostgresConfig) (lower : unicode -> unicode)
  (wide_decimal : N -> option Z) (int_max_str_digits : Z)
  (parse_date : unicode -> parsed_date)
  (query_intent : unicode) (schema_context : list (string * list string))
  (relevant_tables : list string)
  (foreign_keys_map : list (string * string * string * string)) :
  let plans :=
    generate cfg lower wide_decimal int_max_str_digits parse_date query_intent
      schema_context relevant_tables foreign_keys_map in
  (relevant_tables = [] ->
   plans = Raise (ValueError "No tables provided for SQL generation")) /\
  (relevant_tables <> [] ->
   match _build_where_clauses lower wide_decimal int_max_str_digits parse_date
           query_intent with
   | Raise e => plans = Raise e
   | Ok _ =>
       exists body,
         plans = Ok [{| sql := "SELECT" ++ newline ++ body ++ newline ++ "LIMIT "
                                 ++ str_of_Z (sample_limit cfg) ++ ";";
                        purpose := query_intent;
                        expected_rows := "unknown" |}]
   end) /\
  (relevant_tables <> [] -> (length (lower query_intent) <= 640)%nat ->
   (forall text e, parse_date text <> Failed e) ->
   exists plan, plans = Ok [plan]) /\
  plans <> Ok [].
Proof.
  intros plans. subst plans. unfold generate, _build_from_clause.
  split; [|split; [|split]].
  - now intros ->.
  - intros Hne. destruct relevant_tables as [|base rest]; [now destruct Hne|].
    cbn [mbind result_bind].
    destruct (_build_where_clauses _ _ _ _ _) as [where_clauses|e]; [|reflexivity].
    cbn [mbind result_bind]. unfold _compose_sql.
    exists ("       "
            ++ join ("," ++ newline ++ "       ")
                 (_build_select_columns schema_context (base :: rest))
            ++ newline ++ "FROM "
            ++ join " " (base :: flat_map
                 (fun fk : string * string * string * string =>
                    let '(left_table, left_col, right_table, right_col) := fk in
                    if bool_decide (left_table ∈ base :: rest)
                       && bool_decide (right_table ∈ base :: rest)
                    then ["LEFT JOIN " ++ right_table ++ " ON " ++ left_table ++ "."
                            ++ left_col ++ " = " ++ right_table ++ "." ++ right_col]
                    else [])
                 foreign_keys_map)
            ++ match where_clauses with
               | [] => ""
               | _ => newline ++ "WHERE " ++ join " AND " where_clauses
               end).
    do 3 f_equal. now rewrite !append_assoc.
  - intros Hne Hshort Hdate.
    destruct relevant_tables as [|base rest]; [now destruct Hne|].
    cbn [mbind result_bind].
    assert (Hwhere : exists where_clauses,
               _build_where_clauses lower wide_decimal int_max_str_digits parse_date
                 query_intent = Ok where_clauses).
    { unfold _build_where_clauses.
      assert (Hdays : exists days,
                 match search (match_last_days wide_decimal) (lower query_intent) with
                 | Some group => int_of_digits wide_decimal int_max_str_digits group
                 | None => Ok 30
                 end = Ok days).
      { destruct (search _ _) as [group|] eqn:Hsearch; [|eauto].
        apply search_last_days_length in Hsearch.
        unfold int_of_digits.
        replace (640 <? Z.of_nat (length group)) with false
          by (symmetry; apply Z.ltb_ge; lia).
        eauto. }
      destruct Hdays as (days & ->).
      destruct (_ && _); cbn [mbind result_bind];
        destruct (has_substring (literal "active") _);
        destruct (search (match_iso_date wide_decimal) _) as [group|]; eauto;
        (destruct (parse_date group) as [iso| |e] eqn:Hparse;
         [eauto | eauto | now destruct (Hdate group e)]). }
    destruct Hwhere as (where_clauses & ->). cbn [mbind result_bind]. eauto.
  - destruct relevant_tables; [discriminate|]. cbn [mbind result_bind].
    destruct (_build_where_clauses _ _ _ _ _); discriminate.
Qed.

Lemma flat_map_take_length {A B : Type} (f : A -> list B) (n : nat) (l : list A) :
  (forall x, length (f x) <= n)%nat -> (length (flat_map f l) <= n * length l)%nat.
Proof.
  intros Hf. induction l as [|x l IH]; simpl; [lia|].
  rewrite length_app. specialize (Hf x). lia.
Qed.

(** X17. The select list is never empty and holds at most five columns for
    each relevant table; when the context lists no column for any relevant
    table it is the single star. *)
Theorem _build_select_columns_bounds (schema_context : list (string * list string))
  (relevant_tables : list string) :
  let columns := _build_select_columns schema_context relevant_tables in
  columns <> [] /\
  (length columns <= Nat.max 1 (5 * length relevant_tables))%nat /\
  ((forall table, In table relevant_tables -> columns_of schema_context table = []) ->
   columns = ["*"]).
Proof.
  unfold _build_select_columns.
  set (render := fun table : string => map _ (take 5 (columns_of schema_context table))).
  assert (Hlen : (length (flat_map render relevant_tables)
                  <= 5 * length relevant_tables)%nat).
  { apply flat_map_take_length. intros table. unfold render.
    rewrite length_map, length_take. lia. }
  repeat split.
  - destruct (flat_map render relevant_tables); discriminate.
  - destruct (flat_map render relevant_tables); simpl in *; lia.
  - intros Hnone.
    assert (Hempty : flat_map render relevant_tables = []).
    { clear Hlen. induction relevant_tables as [|table rest IH]; [reflexivity|].
      simpl. unfold render at 1. rewrite (Hnone table) by now left.
      simpl. apply IH. intros t Ht. apply Hnone. now right. }
    now rewrite Hempty.
Qed.

End SqlGenerator.

(** ** [app/audit.py], [app/pipeline.py] and the endpoint of [app/api.py] *)

Module Pipeline.
Import Config.

Definition newline_of_file : string := String (ascii_of_nat 10) EmptyString.

(** [models.py] *)
Record QueryRequest : Type := {
  query : string;
  user_id : option string;
  refresh_schema : bool;
}.

Record QueryResponse : Type := {
  answer : string;
  response_sql : string;
  rows : value;
  metadata : value;
}.

(** What a request can change: the limiter's queues, the request counter by
    status label, the lines of the audit file, and the events logged. *)
Record State : Type := {
  _requests : gmap string (list Q);
  REQUEST_COUNTER : gmap string nat;
  audit_file : list string;
  logged : list string;
}.

(** Statements that read and write the state and may raise. *)
Definition M (A : Type) : Type := State -> result A * State.

#[global]
Instance M_ret : MRet M := fun A a st => (Ok a, st).
#[global]
Instance M_bind : MBind M := fun A B k m st =>
  match m st with
  | (Ok a, st') => k a st'
  | (Raise e, st') => (Raise e, st')
  end.

Definition lift {A : Type} (r : result A) : M A := fun st => (r, st).

Definition raise {A : Type} (e : exn) : M A := fun st => (Raise e, st).

(** [REQUEST_COUNTER.labels(status=status).inc()] *)
Definition inc (status : string) : M unit := fun st =>
  (Ok tt,
   {| _requests := _requests st;
      REQUEST_COUNTER :=
        <[status := S (default O (REQUEST_COUNTER st !! status))]> (REQUEST_COUNTER st);
      audit_file := audit_file st;
      logged := logged st |}).

(** [logger.info(event, ...)] and [logger.exception(event, ...)] *)
Definition log (event : string) : M unit := fun st =>
  (Ok tt,
   {| _requests := _requests st;
      REQUEST_COUNTER := REQUEST_COUNTER st;
      audit_file := audit_file st;
      logged := (logged st ++ [event])%list |}).

Section Components.

(** The collaborators handed to [QueryPipeline.__init__], each by what it
    answers; the readings of [time.time()]; [json.dumps]; and the file
    system, which appends a line to the audit file or raises. *)
Variable security_cfg : SecurityConfig.
Variable now : Q.
Variable _get_schema_snapshot : bool -> result value.
Variable rank_tables : string -> value -> result (list string).
Variable select_schema_slice : value -> list string -> result value.
Variable reason_schema_with_llm : string -> value -> result value.
Variable generate : value -> value -> value -> value -> result (list value).
Variable validate_and_sanitize : string -> result string.
Variable guardrail_check : string -> value -> result (bool * value).
Variable execute_sql : string -> result value.
Variable synthesize : string -> string -> value -> value -> result string.
Variable json_dumps : value -> string.
Variable append_line : list string -> string -> result (list string).

(** [self._rate_limiter.allow(key)] *)
Definition allow (key : string) : M bool := fun st =>
  let (ok, requests) := RateLimiter.allow security_cfg now key (_requests st) in
  (Ok ok,
   {| _requests := requests;
      REQUEST_COUNTER := REQUEST_COUNTER st;
      audit_file := audit_file st;
      logged := logged st |}).

(** [AuditLogger.write]: the entry is the payload under a timestamp; the
    line is appended, then the event is logged.  Nothing is caught. *)
Definition AuditLogger_write (payload : list (string * value)) : M unit :=
  let entry := JDict (("timestamp", JFloat now) :: payload) in
  (fun st =>
     match append_line (audit_file st) (json_dumps entry ++ newline_of_file) with
     | Ok lines =>
         (Ok tt,
          {| _requests := _requests st;
             REQUEST_COUNTER := REQUEST_COUNTER st;
             audit_file := lines;
             logged := logged st |})
     | Raise e => (Raise e, st)
     end) ;;
  log "audit_event".

(** [str(v)] for the statement a plan carries. *)
Definition as_text (v : value) : result string :=
  match v with
  | JStr text => Ok text
  | _ => Raise (TypeError "expected str")
  end.

(** The stages inside [with record_latency("total")]: what the tail of
    [handle] uses of them. *)
Record Staged : Type := {
  sanitized_sql : string;
  guard_metrics : value;
  execution_result : value;
  staged_answer : string;
}.

Definition _stages (request : QueryRequest) : M Staged :=
  schema_snapshot ← lift (_get_schema_snapshot (refresh_schema request));
  ranked_tables ← lift (rank_tables (query request) schema_snapshot);
  schema_slice ← lift (select_schema_slice schema_snapshot ranked_tables);
  reasoner_output ← lift (reason_schema_with_llm (query request) schema_slice);
  intent ← lift (get reasoner_output "query_intent" (JStr (query request)));
  context ← lift (get reasoner_output "schema_context" (JDict []));
  relevant ← lift (get reasoner_output "relevant_tables" (JList []));
  fk_map ← lift (get reasoner_output "foreign_keys_map" (JList []));
  plans ← lift (generate intent context relevant fk_map);
  match plans with
  | [] => raise (ValueError "SQL generator returned no plans")
  | plan :: _ =>
      primary_sql ← lift (subscript plan "sql" ≫= as_text);
      sanitized_sql ← lift (validate_and_sanitize primary_sql);
      table_stats ← lift (get schema_snapshot "table_stats" (JDict []));
      verdict ← lift (guardrail_check sanitized_sql table_stats);
      if negb (fst verdict) then
        inc "rejected" ;; raise (ValueError "Guardrails rejected query")
      else
        execution_result ← lift (execute_sql sanitized_sql);
        data ← lift (subscript execution_result "data");
        metadata ← lift (subscript execution_result "metadata");
        answer ← lift (synthesize (query request) sanitized_sql data metadata);
        mret {| sanitized_sql := sanitized_sql; guard_metrics := snd verdict;
                execution_result := execution_result; staged_answer := answer |}
  end.

(** [request.user_id or "anonymous"] *)
Definition user_key_of (request : QueryRequest) : string :=
  match user_id request with
  | Some id => if String.eqb id "" then "anonymous" else id
  | None => "anonymous"
  end.

Definition handle (request : QueryRequest) : M QueryResponse :=
  let user_key := user_key_of request in
  allowed ← allow user_key;
  if negb allowed then
    inc "rate_limited" ;; raise (RateLimitExceeded "Rate limit exceeded")
  else
    staged ← _stages request;
    inc "success" ;;
    metadata ← lift (get (execution_result staged) "metadata" (JDict []));
    AuditLogger_write [("user_id", JStr user_key);
                       ("query", JStr (query request));
                       ("sql", JStr (sanitized_sql staged));
                       ("metadata", metadata);
                       ("guard_metrics", guard_metrics staged)] ;;
    data ← lift (subscript (execution_result staged) "data");
    metadata ← lift (subscript (execution_result staged) "metadata");
    mret {| answer := staged_answer staged; response_sql := sanitized_sql staged;
            rows := data; metadata := metadata |}.

(** What [run_query] of [api.py] answers. *)
Inductive Http : Type :=
| Http200 (response : QueryResponse)
| HttpError (status_code : Z) (detail : string).

Definition run_query (request : QueryRequest) (st : State) : Http * State :=
  match handle request st with
  | (Ok response, st') => (Http200 response, st')
  | (Raise (RateLimitExceeded msg), st') => (HttpError 429 msg, st')
  | (Raise _, st') =>
      (HttpError 500 "Query processing failed", snd (log "query_failed" st'))
  end.

(** *** The tail of [handle] *)

(** The audit entry [handle] writes for a request whose stages succeeded. *)
Definition audit_payload (request : QueryRequest) (staged : Staged)
  (metadata : value) : list (string * value) :=
  [("user_id", JStr (user_key_of request));
   ("query", JStr (query request));
   ("sql", JStr (sanitized_sql staged));
   ("metadata", metadata);
   ("guard_metrics", guard_metrics staged)].

Definition audit_line (request : QueryRequest) (staged : Staged)
  (metadata : value) : string :=
  json_dumps (JDict (("timestamp", JFloat now) :: audit_payload request staged metadata))
    ++ newline_of_file.

(** Stages that succeeded left an execution result with data and metadata. *)
Lemma _stages_Ok (request : QueryRequest) (st st' : State) (staged : Staged) :
  _stages request st = (Ok staged, st') ->
  exists data metadata,
    subscript (execution_result staged) "data" = Ok data /\
    subscript (execution_result staged) "metadata" = Ok metadata.
Proof.
  unfold _stages, lift, raise, inc, mbind, M_bind, mret, M_ret.
  repeat match goal with
         | |- context [match ?x with _ => _ end] =>
             lazymatch x with
             | context [match _ with _ => _ end] => fail
             | _ => destruct x eqn:?
             end
         end;
    intros [= <- <-] || discriminate.
  simpl. eauto.
Qed.

Lemma subscript_get (v : value) (key : string) (x dflt : value) :
  subscript v key = Ok x -> get v key dflt = Ok x.
Proof.
  destruct v; try discriminate. simpl.
  destruct (dict_get d key); [|discriminate]. now intros [= ->].
Qed.

(** C8 as the code has it.  When the limiter allows the request, the stages
    through synthesis succeed and appending the audit line raises an I/O
    error, [handle] raises that error: nothing is caught, the success
    counter has been incremented, no audit line is written and no audit
    event is logged.  The endpoint then logs the failure and answers 500.
    When the line is appended, [handle] returns the response. *)
Theorem audit_write_error_propagates (request : QueryRequest)
  (st st1 st2 : State) (staged : Staged) :
  allow (user_key_of request) st = (Ok true, st1) ->
  _stages request st1 = (Ok staged, st2) ->
  exists data metadata (st3 : State),
    subscript (execution_result staged) "data" = Ok data /\
    subscript (execution_result staged) "metadata" = Ok metadata /\
    inc "success" st2 = (Ok tt, st3) /\
    (forall msg,
       append_line (audit_file st3) (audit_line request staged metadata)
         = Raise (OSError msg) ->
       handle request st = (Raise (OSError msg), st3) /\
       run_query request st
         = (HttpError 500 "Query processing failed", snd (log "query_failed" st3))) /\
    (forall lines,
       append_line (audit_file st3) (audit_line request staged metadata)
         = Ok lines ->
       fst (handle request st)
         = Ok {| answer := staged_answer staged;
                 response_sql := sanitized_sql staged;
                 rows := data; metadata := metadata |} /\
       audit_file (snd (handle request st)) = lines).
Proof.
  intros Hallow Hstages.
  destruct (_stages_Ok request st1 st2 staged Hstages)
    as (data & metadata & Hdata & Hmeta).
  exists data, metadata, (snd (inc "success" st2)).
  do 3 (split; [assumption || reflexivity|]).
  assert (Hhandle : handle request st =
    match append_line (audit_file (snd (inc "success" st2)))
            (audit_line request staged metadata) with
    | Ok lines =>
        (Ok {| answer := staged_answer staged;
               response_sql := sanitized_sql staged;
               rows := data; metadata := metadata |},
         snd (log "audit_event"
                {| _requests := _requests (snd (inc "success" st2));
                   REQUEST_COUNTER := REQUEST_COUNTER (snd (inc "success" st2));
                   audit_file := lines;
                   logged := logged (snd (inc "success" st2)) |}))
    | Raise e => (Raise e, snd (inc "success" st2))
    end).
  { unfold handle, mbind, M_bind. rewrite Hallow.
    change (negb true) with false. cbv beta iota.
    rewrite Hstages. simpl. unfold lift.
    rewrite (subscript_get _ _ _ (JDict []) Hmeta).
    unfold AuditLogger_write, mbind, M_bind, audit_line, audit_payload. simpl.
    destruct (append_line _ _); [|reflexivity]. simpl. now rewrite Hdata, Hmeta. }
  split.
  - intros msg Hfail. unfold run_query. rewrite Hhandle, Hfail. auto.
  - intros lines Hlines. rewrite Hhandle, Hlines. auto.
Qed.

End Components.

(** *** A request that succeeds until the audit file cannot be written *)

Definition demo_security : SecurityConfig :=
  {| enable_rate_limiting := true; max_requests_per_minute := 60 |}.

Definition demo_execution : value :=
  JDict [("status", JStr "success"); ("data", JList []);
         ("metadata", JDict [("rows_returned", JInt 0); ("truncated", JBool false)])].

Definition demo_request : QueryRequest :=
  {| query := "Show claims"; user_id := Some "u1"; refresh_schema := false |}.

Definition empty_state : State :=
  {| _requests := ∅; REQUEST_COUNTER := ∅; audit_file := []; logged := [] |}.

(** The file system with no space left, and one that appends. *)
Definition full_disk : list string -> string -> result (list string) :=
  fun _ _ => Raise (OSError "No space left on device").

Definition appending : list string -> string -> result (list string) :=
  fun lines line => Ok (lines ++ [line])%list.

Definition demo_handle (append_line : list string -> string -> result (list string))
  : M QueryResponse :=
  handle demo_security 1000
    (fun _ => Ok (JDict []))
    (fun _ _ => Ok [])
    (fun _ _ => Ok (JDict []))
    (fun _ _ => Ok (JDict []))
    (fun _ _ _ _ => Ok [JDict [("sql", JStr "SELECT id FROM claims")]])
    (fun text => Ok (text ++ " LIMIT 1000"))
    (fun _ _ => Ok (true, JDict []))
    (fun _ => Ok demo_execution)
    (fun _ _ _ _ => Ok "Returned 0 rows.")
    (fun _ => "{}")
    append_line
    demo_request.

Definition demo_response : QueryResponse :=
  {| answer := "Returned 0 rows.";
     response_sql := "SELECT id FROM claims LIMIT 1000";
     rows := JList [];
     metadata := JDict [("rows_returned", JInt 0); ("truncated", JBool false)] |}.

(** C8 as the claim states it fails: every stage through synthesis succeeds
    (the request is answered when the audit line can be appended), the append
    raises an I/O error, and [handle] raises it instead of returning the
    response. *)
Lemma audit_write_error_is_not_swallowed :
  fst (demo_handle appending empty_state) = Ok demo_response /\
  fst (demo_handle full_disk empty_state)
    = Raise (OSError "No space left on device") /\
  logged (snd (demo_handle full_disk empty_state)) = [] /\
  ~ (exists response, fst (demo_handle full_disk empty_state) = Ok response).
Proof.
  assert (H : fst (demo_handle full_disk empty_state)
              = Raise (OSError "No space left on device"))
    by (vm_compute; reflexivity).
  repeat split; try (vm_compute; reflexivity); try exact H.
  intros (response & Hok). rewrite H in Hok. discriminate Hok.
Qed.

Definition demo_staged : Staged :=
  {| sanitized_sql := "SELECT id FROM claims LIMIT 1000";
     guard_metrics := JDict [];
     execution_result := demo_execution;
     staged_answer := "Returned 0 rows." |}.

Lemma audit_write_error_propagates_witness :
  exists st1 : State,
    allow demo_security 1000 "u1" empty_state = (Ok true, st1) /\
    _stages (fun _ => Ok (JDict [])) (fun _ _ => Ok []) (fun _ _ => Ok (JDict []))
      (fun _ _ => Ok (JDict []))
      (fun _ _ _ _ => Ok [JDict [("sql", JStr "SELECT id FROM claims")]])
      (fun text => Ok (text ++ " LIMIT 1000")) (fun _ _ => Ok (true, JDict []))
      (fun _ => Ok demo_execution) (fun _ _ _ _ => Ok "Returned 0 rows.")
      demo_request st1 = (Ok demo_staged, st1) /\
    fst (demo_handle full_disk empty_state)
      = Raise (OSError "No space left on device").
Proof.
  exists (snd (allow demo_security 1000 "u1" empty_state)).
  assert (Hallow : allow demo_security 1000 "u1" empty_state
                   = (Ok true, snd (allow demo_security 1000 "u1" empty_state)))
    by (vm_compute; reflexivity).
  split; [exact Hallow|]. split; [reflexivity|].
  destruct (audit_write_error_propagates demo_security 1000
              (fun _ => Ok (JDict [])) (fun _ _ => Ok []) (fun _ _ => Ok (JDict []))
              (fun _ _ => Ok (JDict []))
              (fun _ _ _ _ => Ok [JDict [("sql", JStr "SELECT id FROM claims")]])
              (fun text => Ok (text ++ " LIMIT 1000")) (fun _ _ => Ok (true, JDict []))
              (fun _ => Ok demo_execution) (fun _ _ _ _ => Ok "Returned 0 rows.")
              (fun _ => "{}") full_disk demo_request empty_state _ _ demo_staged
              Hallow eq_refl)
    as (data & metadata & st3 & _ & _ & _ & Hfail & _).
  destruct (Hfail "No space left on device" eq_refl) as [Hhandle _].
  unfold demo_handle. now rewrite Hhandle.
Defined.

(** *** What a request leaves behind *)

Section Outcomes.

Variable security_cfg : SecurityConfig.
Variable now : Q.
Variable _get_schema_snapshot : bool -> result value.
Variable rank_tables : string -> value -> result (list string).
Variable select_schema_slice : value -> list string -> result value.
Variable reason_schema_with_llm : string -> value -> result value.
Variable generate : value -> value -> value -> value -> result (list value).
Variable validate_and_sanitize : string -> result string.
Variable guardrail_check : string -> value -> result (bool * value).
Variable execute_sql : string -> result value.
Variable synthesize : string -> string -> value -> value -> result string.
Variable json_dumps : value -> string.
Variable append_line : list string -> string -> result (list string).

Local Abbreviation stages :=
  (_stages _get_schema_snapshot rank_tables select_schema_slice
     reason_schema_with_llm generate validate_and_sanitize guardrail_check
     execute_sql synthesize).
Local Abbreviation handle_request :=
  (handle security_cfg now _get_schema_snapshot rank_tables select_schema_slice
     reason_schema_with_llm generate validate_and_sanitize guardrail_check
     execute_sql synthesize json_dumps append_line).
Local Abbreviation run :=
  (run_query security_cfg now _get_schema_snapshot rank_tables select_schema_slice
     reason_schema_with_llm generate validate_and_sanitize guardrail_check
     execute_sql synthesize json_dumps append_line).

(** The stages touch nothing but the request counter, and that only to
    count a guardrail refusal. *)
Lemma _stages_state (request : QueryRequest) (st st' : State) (r : result Staged) :
  stages request st = (r, st') ->
  _requests st' = _requests st /\ audit_file st' = audit_file st /\
  logged st' = logged st /\
  (REQUEST_COUNTER st' = REQUEST_COUNTER st \/
   r = Raise (ValueError "Guardrails rejected query") /\
   REQUEST_COUNTER st'
     = <["rejected" := S (default O (REQUEST_COUNTER st !! "rejected"))]>
         (REQUEST_COUNTER st)).
Proof.
  unfold _stages, lift, raise, inc, mbind, M_bind, mret, M_ret.
  repeat match goal with
         | |- context [match ?x with _ => _ end] =>
             lazymatch x with
             | context [match _ with _ => _ end] => fail
             | _ => destruct x eqn:?
             end
         end;
    intros [= <- <-]; simpl; auto 10.
Qed.

(** X18. A request the limiter refuses is answered 429 and goes no
    further: [handle] raises [RateLimitExceeded], the [rate_limited] counter
    goes up by one, and neither the audit file nor the log changes. *)
Theorem rate_limited_request (request : QueryRequest) (st : State) :
  fst (RateLimiter.allow security_cfg now (user_key_of request) (_requests st)) = false ->
  let st' := snd (handle_request request st) in
  fst (handle_request request st) = Raise (RateLimitExceeded "Rate limit exceeded") /\
  run request st = (HttpError 429 "Rate limit exceeded", st') /\
  REQUEST_COUNTER st'
    = <["rate_limited" := S (default O (REQUEST_COUNTER st !! "rate_limited"))]>
        (REQUEST_COUNTER st) /\
  audit_file st' = audit_file st /\ logged st' = logged st.
Proof.
  intros Hrefused. unfold run_query, handle, mbind, M_bind, allow.
  destruct (RateLimiter.allow security_cfg now (user_key_of request) (_requests st))
    as [ok requests]. simpl in Hrefused. subst ok. simpl. auto.
Qed.

(** X19. Whatever becomes of a request, it has been counted against its
    user's quota: the limiter's store after [handle] is the store after the
    one call of [allow] for the user key, also when a later stage fails. *)
Theorem every_request_counts_against_quota (request : QueryRequest) (st : State) :
  _requests (snd (handle_request request st))
  = snd (RateLimiter.allow security_cfg now (user_key_of request) (_requests st)).
Proof.
  unfold handle, mbind, M_bind, allow.
  destruct (RateLimiter.allow security_cfg now (user_key_of request) (_requests st))
    as [[|] requests]; simpl; [|reflexivity].
  destruct (stages request _) as [[staged|e] st2] eqn:Hstages;
    apply _stages_state in Hstages as (Hrequests & _); simpl in Hrequests;
    [|exact Hrequests].
  unfold lift, AuditLogger_write, mbind, M_bind. simpl.
  destruct (get (execution_result staged) "metadata" (JDict [])); [|exact Hrequests].
  destruct (append_line _ _); simpl; [|exact Hrequests].
  destruct (subscript (execution_result staged) "data"); simpl; [|exact Hrequests].
  destruct (subscript (execution_result staged) "metadata"); exact Hrequests.
Qed.

(** X20. A request that fails in a stage is answered 500 with a fixed
    detail that does not carry the exception: [handle] raises the stage's
    exception, nothing is written to the audit file, the [success] counter
    stands, and the only counter that can move is [rejected], for a
    guardrail refusal. *)
Theorem failed_stage_outcome (request : QueryRequest) (st st1 st2 : State) (e : exn) :
  allow security_cfg now (user_key_of request) st = (Ok true, st1) ->
  stages request st1 = (Raise e, st2) ->
  handle_request request st = (Raise e, st2) /\
  audit_file st2 = audit_file st /\ logged st2 = logged st /\
  REQUEST_COUNTER st2 !! "success" = REQUEST_COUNTER st !! "success" /\
  (REQUEST_COUNTER st2 = REQUEST_COUNTER st \/
   e = ValueError "Guardrails rejected query" /\
   REQUEST_COUNTER st2
     = <["rejected" := S (default O (REQUEST_COUNTER st !! "rejected"))]>
         (REQUEST_COUNTER st)) /\
  ((forall msg, e <> RateLimitExceeded msg) ->
   run request st
   = (HttpError 500 "Query processing failed", snd (log "query_failed" st2))).
Proof.
  intros Hallow Hstages.
  assert (Hst1 : audit_file st1 = audit_file st /\ logged st1 = logged st /\
                 REQUEST_COUNTER st1 = REQUEST_COUNTER st).
  { unfold allow in Hallow. destruct (RateLimiter.allow _ _ _ _).
    injection Hallow as _ <-. auto. }
  destruct Hst1 as (Haudit & Hlogged & Hcounter).
  pose proof (_stages_state request st1 st2 _ Hstages) as (_ & Ha & Hl & Hc).
  assert (Hhandle : handle_request request st = (Raise e, st2)).
  { unfold handle, mbind, M_bind. rewrite Hallow. simpl. now rewrite Hstages. }
  split; [exact Hhandle|]. split; [congruence|]. split; [congruence|].
  split; [|split].
  - destruct Hc as [-> | [_ ->]]; [now rewrite Hcounter|].
    rewrite lookup_insert_ne by discriminate. now rewrite Hcounter.
  - destruct Hc as [Hc | [[= ->] Hc]]; [left; congruence | right].
    split; [reflexivity|]. now rewrite Hc, Hcounter.
  - intros Hother. unfold run_query. rewrite Hhandle.
    destruct e; try reflexivity. now destruct (Hother msg).
Qed.

(** Stages that succeeded: the statement is what the validator returned and
    the guardrail allowed, the execution result is the executor's for that
    statement, and the answer is the synthesizer's for the request, the
    statement and the executor's data and metadata. *)
Lemma _stages_collaborators (request : QueryRequest) (st st' : State) (staged : Staged) :
  stages request st = (Ok staged, st') ->
  exists (primary_sql : string) (table_stats data metadata : value),
    validate_and_sanitize primary_sql = Ok (sanitized_sql staged) /\
    guardrail_check (sanitized_sql staged) table_stats
      = Ok (true, guard_metrics staged) /\
    execute_sql (sanitized_sql staged) = Ok (execution_result staged) /\
    subscript (execution_result staged) "data" = Ok data /\
    subscript (execution_result staged) "metadata" = Ok metadata /\
    synthesize (query request) (sanitized_sql staged) data metadata
      = Ok (staged_answer staged).
Proof.
  unfold _stages, lift, raise, inc, mbind, M_bind, mret, M_ret.
  repeat match goal with
         | |- context [match ?x with _ => _ end] =>
             lazymatch x with
             | context [match _ with _ => _ end] => fail
             | _ => destruct x eqn:?
             end
         end;
    intros [= <- <-] || discriminate.
  simpl.
  match goal with
  | H : guardrail_check _ _ = Ok ?p, Hallowed : negb (fst ?p) = false |- _ =>
      destruct p as [[|] metrics]; [|discriminate Hallowed]
  end.
  eauto 12.
Qed.

(** X21. No answer without an audit line: when [handle] returns a
    response, the limiter allowed the request and the stages succeeded; the
    response carries the statement the validator returned and the guardrail
    allowed, the answer the synthesizer gave for it, and the data and
    metadata of the executor's result; the audit file has grown by the line
    that records the request, the audit event has been logged, and the
    [success] counter has gone up by one. *)
Theorem answered_request_is_audited (request : QueryRequest) (st st' : State)
  (response : QueryResponse) :
  handle_request request st = (Ok response, st') ->
  exists (st1 st2 : State) (staged : Staged)
         (primary_sql : string) (table_stats data metadata : value),
    allow security_cfg now (user_key_of request) st = (Ok true, st1) /\
    stages request st1 = (Ok staged, st2) /\
    validate_and_sanitize primary_sql = Ok (sanitized_sql staged) /\
    guardrail_check (sanitized_sql staged) table_stats
      = Ok (true, guard_metrics staged) /\
    execute_sql (sanitized_sql staged) = Ok (execution_result staged) /\
    subscript (execution_result staged) "data" = Ok data /\
    subscript (execution_result staged) "metadata" = Ok metadata /\
    synthesize (query request) (sanitized_sql staged) data metadata
      = Ok (staged_answer staged) /\
    response = {| answer := staged_answer staged;
                  response_sql := sanitized_sql staged;
                  rows := data; metadata := metadata |} /\
    append_line (audit_file st) (audit_line now json_dumps request staged metadata)
      = Ok (audit_file st') /\
    logged st' = (logged st ++ ["audit_event"])%list /\
    REQUEST_COUNTER st'
      = <["success" := S (default O (REQUEST_COUNTER st !! "success"))]>
          (REQUEST_COUNTER st).
Proof.
  unfold handle, mbind, M_bind.
  destruct (allow security_cfg now (user_key_of request) st) as [[[|]|?] st1] eqn:Hallow;
    simpl; try discriminate.
  assert (Hst1 : audit_file st1 = audit_file st /\ logged st1 = logged st /\
                 REQUEST_COUNTER st1 = REQUEST_COUNTER st).
  { unfold allow in Hallow. destruct (RateLimiter.allow _ _ _ _).
    injection Hallow as _ <-. auto. }
  destruct Hst1 as (Haudit & Hlogged & Hcounter).
  destruct (stages request st1) as [[staged|e] st2] eqn:Hstages; [|discriminate].
  pose proof (_stages_state request st1 st2 _ Hstages) as (_ & Ha & Hl & Hc).
  destruct Hc as [Hc | [? _]]; [|discriminate].
  destruct (_stages_collaborators request st1 st2 staged Hstages)
    as (primary_sql & table_stats & data & metadata
        & Hvalid & Hguard & Hexec & Hdata & Hmeta & Hanswer).
  unfold lift, AuditLogger_write, mbind, M_bind. simpl.
  rewrite (subscript_get _ _ _ (JDict []) Hmeta).
  destruct (append_line _ _) as [lines|] eqn:Happend; simpl; [|discriminate].
  rewrite Hdata, Hmeta. simpl.
  intros [= <- <-].
  exists st1, st2, staged, primary_sql, table_stats, data, metadata. simpl.
  rewrite Ha, Haudit in Happend. rewrite Hl, Hlogged, Hc, Hcounter.
  repeat (split; [assumption || reflexivity|]). reflexivity.
Qed.

End Outcomes.

(** *** Requests that are refused, fail and succeed *)

Definition strict_security : SecurityConfig :=
  {| enable_rate_limiting := true; max_requests_per_minute := 1 |}.

(** A store that holds a request of [u1] one second old. *)
Definition busy_state : State :=
  {| _requests := {["u1" := [999%Q]]}; REQUEST_COUNTER := ∅;
     audit_file := []; logged := [] |}.

Lemma rate_limited_request_witness :
  fst (RateLimiter.allow strict_security 1000 "u1" (_requests busy_state)) = false /\
  fst (run_query strict_security 1000
         (fun _ => Ok (JDict [])) (fun _ _ => Ok []) (fun _ _ => Ok (JDict []))
         (fun _ _ => Ok (JDict []))
         (fun _ _ _ _ => Ok [JDict [("sql", JStr "SELECT id FROM claims")]])
         (fun text => Ok (text ++ " LIMIT 1000")) (fun _ _ => Ok (true, JDict []))
         (fun _ => Ok demo_execution) (fun _ _ _ _ => Ok "Returned 0 rows.")
         (fun _ => "{}") appending demo_request busy_state)
  = HttpError 429 "Rate limit exceeded".
Proof.
  assert (Hrefused : fst (RateLimiter.allow strict_security 1000 "u1"
                            (_requests busy_state)) = false)
    by (vm_compute; reflexivity).
  split; [exact Hrefused|].
  destruct (rate_limited_request strict_security 1000
              (fun _ => Ok (JDict [])) (fun _ _ => Ok []) (fun _ _ => Ok (JDict []))
              (fun _ _ => Ok (JDict []))
              (fun _ _ _ _ => Ok [JDict [("sql", JStr "SELECT id FROM claims")]])
              (fun text => Ok (text ++ " LIMIT 1000")) (fun _ _ => Ok (true, JDict []))
              (fun _ => Ok demo_execution) (fun _ _ _ _ => Ok "Returned 0 rows.")
              (fun _ => "{}") appending demo_request busy_state Hrefused)
    as (_ & Hrun & _).
  now rewrite Hrun.
Defined.

(** The demo pipeline with a validator that refuses every statement. *)
Definition refusing_validator : string -> result string :=
  fun _ => Raise (SQLValidationError "Only SELECT statements are allowed").

Lemma failed_stage_outcome_witness :
  fst (run_query demo_security 1000
         (fun _ => Ok (JDict [])) (fun _ _ => Ok []) (fun _ _ => Ok (JDict []))
         (fun _ _ => Ok (JDict []))
         (fun _ _ _ _ => Ok [JDict [("sql", JStr "DELETE FROM claims")]])
         refusing_validator (fun _ _ => Ok (true, JDict []))
         (fun _ => Ok demo_execution) (fun _ _ _ _ => Ok "Returned 0 rows.")
         (fun _ => "{}") appending demo_request empty_state)
  = HttpError 500 "Query processing failed".
Proof.
  assert (Hallow : allow demo_security 1000 "u1" empty_state
                   = (Ok true, snd (allow demo_security 1000 "u1" empty_state)))
    by (vm_compute; reflexivity).
  destruct (failed_stage_outcome demo_security 1000
              (fun _ => Ok (JDict [])) (fun _ _ => Ok []) (fun _ _ => Ok (JDict []))
              (fun _ _ => Ok (JDict []))
              (fun _ _ _ _ => Ok [JDict [("sql", JStr "DELETE FROM claims")]])
              refusing_validator (fun _ _ => Ok (true, JDict []))
              (fun _ => Ok demo_execution) (fun _ _ _ _ => Ok "Returned 0 rows.")
              (fun _ => "{}") appending demo_request empty_state _ _
              (SQLValidationError "Only SELECT statements are allowed")
              Hallow eq_refl)
    as (_ & _ & _ & _ & _ & Hrun).
  rewrite Hrun; [reflexivity | discriminate].
Defined.

Lemma answered_request_is_audited_witness :
  exists st' : State,
    demo_handle appending empty_state = (Ok demo_response, st') /\
    length (audit_file st') = 1%nat /\
    logged st' = ["audit_event"] /\
    REQUEST_COUNTER st' !! "success" = Some 1%nat.
Proof.
  exists (snd (demo_handle appending empty_state)).
  assert (Hrun : demo_handle appending empty_state
                 = (Ok demo_response, snd (demo_handle appending empty_state)))
    by (vm_compute; reflexivity).
  split; [exact Hrun|].
  destruct (answered_request_is_audited demo_security 1000
              (fun _ => Ok (JDict [])) (fun _ _ => Ok []) (fun _ _ => Ok (JDict []))
              (fun _ _ => Ok (JDict []))
              (fun _ _ _ _ => Ok [JDict [("sql", JStr "SELECT id FROM claims")]])
              (fun text => Ok (text ++ " LIMIT 1000")) (fun _ _ => Ok (true, JDict []))
              (fun _ => Ok demo_execution) (fun _ _ _ _ => Ok "Returned 0 rows.")
              (fun _ => "{}") appending demo_request empty_state _ demo_response Hrun)
    as (st1 & st2 & staged & primary_sql & table_stats & data & metadata
        & _ & _ & _ & _ & _ & _ & _ & _ & _ & Happend & Hlogged & Hcounter).
  split; [|split].
  - pose proof (f_equal (fun r : result (list string) =>
                           match r with Ok lines => length lines | Raise _ => O end)
                        Happend) as Hlen.
    simpl in Hlen. now rewrite <- Hlen.
  - exact Hlogged.
  - rewrite Hcounter. apply lookup_insert_eq.
Defined.

End Pipeline.

(** ** [app/schema_extractor.py]: concurrent calls of [get_schema_snapshot] *)

Module SchemaExtractor.
Import Config.

(** The extractor object: the memoized snapshot, its timestamp, and whether
    [self._lock] is held. *)
Record Extractor : Type := {
  _snapshot : value;
  _timestamp : option Q;
  _lock : bool;
}.

(** [_is_stale], at the clock reading [now]. *)
Definition _is_stale (cfg : SchemaConfig) (ext : Extractor) (now : Q) : bool :=
  if negb (truthy (_snapshot ext)) then true
  else match _timestamp ext with
       | None => true
       | Some stamp => Qgtb (now - stamp) (inject_Z (refresh_interval_s cfg))
       end.

(** Where a call of [get_schema_snapshot] stands.  The event loop runs a task
    from one suspension point to the next: a call starts, waits for the lock,
    is suspended inside [await self._collect(conn)] while holding the lock,
    and has returned a snapshot or raised. *)
Inductive Pc : Type :=
| Start
| Waiting
| Collecting
| Returned (snapshot : value)
| Failed (e : exn).

Record Task : Type := {
  refresh : bool;
  pc : Pc;
}.

(** The process: the extractor, the calls in flight, and the number of times
    [_collect] has been called. *)
Record System : Type := {
  extractor : Extractor;
  tasks : list Task;
  collect_calls : nat;
}.

Definition at_pc (t : Task) (p : Pc) : Task := {| refresh := refresh t; pc := p |}.

(** One scheduling step of the event loop, for the task [i]. *)
Inductive step (cfg : SchemaConfig) : System -> System -> Prop :=
| step_fresh (sys : System) (i : nat) (t : Task) (now : Q) :
    (* the first test fails: the memoized snapshot is returned *)
    tasks sys !! i = Some t -> pc t = Start ->
    refresh t || _is_stale cfg (extractor sys) now = false ->
    step cfg sys
      {| extractor := extractor sys;
         tasks := <[i := at_pc t (Returned (_snapshot (extractor sys)))]> (tasks sys);
         collect_calls := collect_calls sys |}
| step_enter (sys : System) (i : nat) (t : Task) (now : Q) :
    (* the first test holds: the call goes for the lock *)
    tasks sys !! i = Some t -> pc t = Start ->
    refresh t || _is_stale cfg (extractor sys) now = true ->
    step cfg sys
      {| extractor := extractor sys;
         tasks := <[i := at_pc t Waiting]> (tasks sys);
         collect_calls := collect_calls sys |}
| step_collect (sys : System) (i : nat) (t : Task) (now : Q) :
    (* the lock is free and the second test holds: [_collect] is called *)
    tasks sys !! i = Some t -> pc t = Waiting ->
    _lock (extractor sys) = false ->
    refresh t || _is_stale cfg (extractor sys) now = true ->
    step cfg sys
      {| extractor := {| _snapshot := _snapshot (extractor sys);
                         _timestamp := _timestamp (extractor sys);
                         _lock := true |};
         tasks := <[i := at_pc t Collecting]> (tasks sys);
         collect_calls := S (collect_calls sys) |}
| step_shared (sys : System) (i : nat) (t : Task) (now : Q) :
    (* the lock is free and the second test fails: another call refreshed *)
    tasks sys !! i = Some t -> pc t = Waiting ->
    _lock (extractor sys) = false ->
    refresh t || _is_stale cfg (extractor sys) now = false ->
    step cfg sys
      {| extractor := extractor sys;
         tasks := <[i := at_pc t (Returned (_snapshot (extractor sys)))]> (tasks sys);
         collect_calls := collect_calls sys |}
| step_collected (sys : System) (i : nat) (t : Task) (now : Q) (collected : value) :
    (* [_collect] answers: the snapshot is stored, the lock released *)
    tasks sys !! i = Some t -> pc t = Collecting ->
    step cfg sys
      {| extractor := {| _snapshot := collected;
                         _timestamp := Some now;
                         _lock := false |};
         tasks := <[i := at_pc t (Returned collected)]> (tasks sys);
         collect_calls := collect_calls sys |}
| step_failed (sys : System) (i : nat) (t : Task) (e : exn) :
    (* [_collect] raises: the lock is released and the exception goes up *)
    tasks sys !! i = Some t -> pc t = Collecting ->
    step cfg sys
      {| extractor := {| _snapshot := _snapshot (extractor sys);
                         _timestamp := _timestamp (extractor sys);
                         _lock := false |};
         tasks := <[i := at_pc t (Failed e)]> (tasks sys);
         collect_calls := collect_calls sys |}.

(** [n] concurrent calls on an extractor whose lock is free. *)
Definition concurrent_calls (ext : Extractor) (forced : bool) (n : nat) : System :=
  {| extractor := ext;
     tasks := replicate n {| refresh := forced; pc := Start |};
     collect_calls := 0 |}.

Definition idle (snapshot : value) (stamp : option Q) : Extractor :=
  {| _snapshot := snapshot; _timestamp := stamp; _lock := false |}.

(** [QueryPipeline._get_schema_snapshot]: the [refresh] argument it calls
    the extractor with, or [None] when it answers from the cache. *)
Definition pipeline_calls_extractor (refresh : bool) (cached : option value)
  : option bool :=
  if negb refresh then
    match cached with
    | Some snapshot => if truthy snapshot then None else Some refresh
    | None => Some refresh
    end
  else Some refresh.

(** *** Forced refresh *)

(** A forced request never reads the pipeline's cache: it reaches the
    extractor, and with [refresh=True]. *)
Lemma forced_request_reaches_extractor (cached : option value) :
  pipeline_calls_extractor true cached = Some true.
Proof. reflexivity. Qed.

Definition past_lock (p : Pc) : bool :=
  match p with
  | Start | Waiting => false
  | _ => true
  end.

Definition in_collect (p : Pc) : bool :=
  match p with
  | Collecting => true
  | _ => false
  end.

Definition is_over (p : Pc) : bool :=
  match p with
  | Returned _ | Failed _ => true
  | _ => false
  end.

Definition started (t : Task) : bool := past_lock (pc t).
Definition collecting (t : Task) : bool := in_collect (pc t).
Definition finished (t : Task) : bool := is_over (pc t).

Fixpoint count (P : Task -> bool) (l : list Task) : nat :=
  match l with
  | [] => 0
  | t :: l' => (if P t then 1 else 0) + count P l'
  end.

Lemma count_insert (P : Task -> bool) (l : list Task) (i : nat) (old new : Task) :
  l !! i = Some old ->
  (count P (<[i := new]> l) + (if P old then 1 else 0)
   = count P l + (if P new then 1 else 0))%nat.
Proof.
  revert i. induction l as [|t l IH]; intros [|i]; simpl; try discriminate.
  - intros [= ->]. lia.
  - intros Hi. specialize (IH i Hi). lia.
Qed.

Lemma count_all (P : Task -> bool) (l : list Task) :
  Forall (fun t => P t = true) l -> count P l = length l.
Proof. induction 1 as [|t l Ht _ IH]; simpl; [reflexivity|]. rewrite Ht, IH. lia. Qed.

Lemma count_replicate_false (P : Task -> bool) (t : Task) (n : nat) :
  P t = false -> count P (replicate n t) = 0%nat.
Proof. intros Ht. induction n as [|n IH]; simpl; [reflexivity|]. now rewrite Ht. Qed.

(** What holds throughout when every call forces the refresh: every call
    past the lock has called [_collect] once, and the lock is held exactly
    while one call is inside [_collect]. *)
Definition forced_invariant (n : nat) (sys : System) : Prop :=
  length (tasks sys) = n /\
  Forall (fun t => refresh t = true) (tasks sys) /\
  collect_calls sys = count started (tasks sys) /\
  count collecting (tasks sys) = (if _lock (extractor sys) then 1 else 0)%nat.

Lemma Forall_insert_task (P : Task -> Prop) (l : list Task) (i : nat) (t : Task) :
  Forall P l -> P t -> Forall P (<[i := t]> l).
Proof. intros Hl Ht. now apply Forall_insert. Qed.

Lemma forced_invariant_step (cfg : SchemaConfig) (n : nat) (sys sys' : System) :
  forced_invariant n sys -> step cfg sys sys' -> forced_invariant n sys'.
Proof.
  intros (Hlen & Hforced & Hcalls & Hlock) Hstep.
  assert (Hrefresh : forall i t, tasks sys !! i = Some t -> refresh t = true).
  { intros i t Hi. rewrite Forall_lookup in Hforced. eauto. }
  destruct Hstep as [sys i t now Hi Hpc Htest | sys i t now Hi Hpc Htest
                    | sys i t now Hi Hpc Hfree Htest | sys i t now Hi Hpc Hfree Htest
                    | sys i t now collected Hi Hpc | sys i t e Hi Hpc];
    try (rewrite (Hrefresh i t Hi) in Htest; discriminate Htest);
    unfold forced_invariant; simpl;
    pose proof (count_insert started (tasks sys) i t) as Hs;
    pose proof (count_insert collecting (tasks sys) i t) as Hc;
    (split; [now rewrite length_insert|]);
    (split; [apply Forall_insert_task; [exact Hforced | simpl; eauto]|]).
  - specialize (Hs (at_pc t Waiting) Hi). specialize (Hc (at_pc t Waiting) Hi).
    unfold started at 2 4 in Hs. unfold collecting at 2 4 in Hc.
    rewrite Hpc in Hs, Hc. simpl in Hs, Hc.
    split; lia.
  - specialize (Hs (at_pc t Collecting) Hi). specialize (Hc (at_pc t Collecting) Hi).
    unfold started at 2 4 in Hs. unfold collecting at 2 4 in Hc.
    rewrite Hpc in Hs, Hc. simpl in Hs, Hc.
    rewrite Hfree in Hlock. split; lia.
  - specialize (Hs (at_pc t (Returned collected)) Hi).
    specialize (Hc (at_pc t (Returned collected)) Hi).
    unfold started at 2 4 in Hs. unfold collecting at 2 4 in Hc.
    rewrite Hpc in Hs, Hc. simpl in Hs, Hc.
    destruct (_lock (extractor sys)); split; lia.
  - specialize (Hs (at_pc t (Failed e)) Hi). specialize (Hc (at_pc t (Failed e)) Hi).
    unfold started at 2 4 in Hs. unfold collecting at 2 4 in Hc.
    rewrite Hpc in Hs, Hc. simpl in Hs, Hc.
    destruct (_lock (extractor sys)); split; lia.
Qed.

Lemma forced_invariant_init (snapshot : value) (stamp : option Q) (n : nat) :
  forced_invariant n (concurrent_calls (idle snapshot stamp) true n).
Proof.
  unfold forced_invariant, concurrent_calls. simpl.
  rewrite length_replicate, !count_replicate_false by reflexivity.
  repeat split. now apply Forall_replicate.
Qed.

(** C9 as the code has it.  Whatever the interleaving of [n] concurrent
    calls that force the refresh: at most one call is inside [_collect] at a
    time, every call that got past the lock has called [_collect] once, and
    when all calls are over [_collect] has been called [n] times. *)
Theorem forced_refresh_collects_per_call (cfg : SchemaConfig)
  (snapshot : value) (stamp : option Q) (n : nat) (sys : System) :
  rtc (step cfg) (concurrent_calls (idle snapshot stamp) true n) sys ->
  (count collecting (tasks sys) <= 1)%nat /\
  collect_calls sys = count started (tasks sys) /\
  (Forall (fun t => finished t = true) (tasks sys) -> collect_calls sys = n).
Proof.
  intros Hrun.
  assert (Hinv : forced_invariant n sys).
  { revert sys Hrun. apply rtc_ind_r; [apply forced_invariant_init|].
    intros sys1 sys2 _ Hstep IH. eauto using forced_invariant_step. }
  destruct Hinv as (Hlen & _ & Hcalls & Hlock). repeat split.
  - rewrite Hlock. destruct (_lock (extractor sys)); lia.
  - exact Hcalls.
  - intros Hdone. rewrite Hcalls, <- Hlen. apply count_all.
    eapply List.Forall_impl; [|exact Hdone]. simpl. intros t.
    unfold finished, started. now destruct (pc t).
Qed.

(** *** Two requests that force the refresh *)

Definition default_cfg : SchemaConfig :=
  {| refresh_interval_s := 3600; max_schema_slice_bytes := 8192 |}.

Definition first_snapshot : value :=
  JDict [("generated_at", JStr "2026-01-01T00:00:00"); ("tables", JDict [])].

Definition second_snapshot : value :=
  JDict [("generated_at", JStr "2026-01-01T00:00:01"); ("tables", JDict [])].

Definition both_returned : System :=
  {| extractor := {| _snapshot := second_snapshot; _timestamp := Some 2%Q;
                     _lock := false |};
     tasks := [{| refresh := true; pc := Returned first_snapshot |};
               {| refresh := true; pc := Returned second_snapshot |}];
     collect_calls := 2 |}.

(** The second call waits for the lock while the first collects, then
    collects itself. *)
Lemma two_forced_calls_run :
  rtc (step default_cfg) (concurrent_calls (idle (JDict []) None) true 2)
      both_returned.
Proof.
  eapply rtc_l.
  { apply (step_enter default_cfg _ 0 {| refresh := true; pc := Start |} 0);
      reflexivity. }
  eapply rtc_l.
  { apply (step_collect default_cfg _ 0 {| refresh := true; pc := Waiting |} 0);
      reflexivity. }
  eapply rtc_l.
  { apply (step_enter default_cfg _ 1 {| refresh := true; pc := Start |} 0);
      reflexivity. }
  eapply rtc_l.
  { apply (step_collected default_cfg _ 0 {| refresh := true; pc := Collecting |}
             1 first_snapshot); reflexivity. }
  eapply rtc_l.
  { apply (step_collect default_cfg _ 1 {| refresh := true; pc := Waiting |} 1);
      reflexivity. }
  eapply rtc_l.
  { apply (step_collected default_cfg _ 1 {| refresh := true; pc := Collecting |}
             2 second_snapshot); reflexivity. }
  apply rtc_refl.
Qed.

(** C9 as the claim states it fails: two concurrent calls that force the
    refresh run [_collect] twice and return different snapshots. *)
Lemma forced_refresh_is_not_single_flight :
  exists sys,
    rtc (step default_cfg) (concurrent_calls (idle (JDict []) None) true 2) sys /\
    collect_calls sys = 2%nat /\
    tasks sys = [{| refresh := true; pc := Returned first_snapshot |};
                 {| refresh := true; pc := Returned second_snapshot |}] /\
    first_snapshot <> second_snapshot.
Proof.
  exists both_returned. split; [exact two_forced_calls_run|].
  repeat split. discriminate.
Qed.

Lemma forced_refresh_collects_per_call_witness :
  rtc (step default_cfg) (concurrent_calls (idle (JDict []) None) true 2)
      both_returned /\
  Forall (fun t => finished t = true) (tasks both_returned) /\
  collect_calls both_returned = 2%nat.
Proof.
  split; [exact two_forced_calls_run|].
  assert (Hover : Forall (fun t => finished t = true) (tasks both_returned))
    by (repeat constructor).
  split; [exact Hover|].
  exact (proj2 (proj2 (forced_refresh_collects_per_call default_cfg (JDict []) None 2
                         both_returned two_forced_calls_run)) Hover).
Defined.

(** *** Calls with any refresh flags *)

(** Concurrent calls, one for each flag, on an extractor whose lock is free. *)
Definition calls_with (ext : Extractor) (flags : list bool) : System :=
  {| extractor := ext;
     tasks := map (fun flag => {| refresh := flag; pc := Start |}) flags;
     collect_calls := 0 |}.

(** What holds throughout, whatever the flags: no call has collected more
    than once, and the lock is held exactly while one call is inside
    [_collect]. *)
Definition lock_invariant (n : nat) (sys : System) : Prop :=
  length (tasks sys) = n /\
  (collect_calls sys <= count started (tasks sys))%nat /\
  count collecting (tasks sys) = (if _lock (extractor sys) then 1 else 0)%nat.

Lemma count_le_tasks (P : Task -> bool) (l : list Task) : (count P l <= length l)%nat.
Proof. induction l as [|t l IH]; simpl; [lia|]. destruct (P t); lia. Qed.

Lemma lock_invariant_step (cfg : SchemaConfig) (n : nat) (sys sys' : System) :
  lock_invariant n sys -> step cfg sys sys' -> lock_invariant n sys'.
Proof.
  intros (Hlen & Hcalls & Hlock) Hstep.
  destruct Hstep as [sys i t now Hi Hpc Htest | sys i t now Hi Hpc Htest
                    | sys i t now Hi Hpc Hfree Htest | sys i t now Hi Hpc Hfree Htest
                    | sys i t now collected Hi Hpc | sys i t e Hi Hpc];
    unfold lock_invariant; simpl;
    pose proof (count_insert started (tasks sys) i t) as Hs;
    pose proof (count_insert collecting (tasks sys) i t) as Hc;
    (split; [now rewrite length_insert|]).
  - specialize (Hs (at_pc t (Returned (_snapshot (extractor sys)))) Hi).
    specialize (Hc (at_pc t (Returned (_snapshot (extractor sys)))) Hi).
    unfold started at 2 4 in Hs. unfold collecting at 2 4 in Hc.
    rewrite Hpc in Hs, Hc. simpl in Hs, Hc. split; lia.
  - specialize (Hs (at_pc t Waiting) Hi). specialize (Hc (at_pc t Waiting) Hi).
    unfold started at 2 4 in Hs. unfold collecting at 2 4 in Hc.
    rewrite Hpc in Hs, Hc. simpl in Hs, Hc. split; lia.
  - specialize (Hs (at_pc t Collecting) Hi). specialize (Hc (at_pc t Collecting) Hi).
    unfold started at 2 4 in Hs. unfold collecting at 2 4 in Hc.
    rewrite Hpc in Hs, Hc. simpl in Hs, Hc. rewrite Hfree in Hlock. split; lia.
  - specialize (Hs (at_pc t (Returned (_snapshot (extractor sys)))) Hi).
    specialize (Hc (at_pc t (Returned (_snapshot (extractor sys)))) Hi).
    unfold started at 2 4 in Hs. unfold collecting at 2 4 in Hc.
    rewrite Hpc in Hs, Hc. simpl in Hs, Hc. rewrite Hfree in Hlock |- *. split; lia.
  - specialize (Hs (at_pc t (Returned collected)) Hi).
    specialize (Hc (at_pc t (Returned collected)) Hi).
    unfold started at 2 4 in Hs. unfold collecting at 2 4 in Hc.
    rewrite Hpc in Hs, Hc. simpl in Hs, Hc.
    destruct (_lock (extractor sys)); split; lia.
  - specialize (Hs (at_pc t (Failed e)) Hi). specialize (Hc (at_pc t (Failed e)) Hi).
    unfold started at 2 4 in Hs. unfold collecting at 2 4 in Hc.
    rewrite Hpc in Hs, Hc. simpl in Hs, Hc.
    destruct (_lock (extractor sys)); split; lia.
Qed.

Lemma count_Start (P : Pc -> bool) (flags : list bool) :
  P Start = false ->
  count (fun t => P (pc t)) (map (fun flag => {| refresh := flag; pc := Start |}) flags)
  = 0%nat.
Proof. intros HP. induction flags as [|f l IH]; simpl; [reflexivity|]. now rewrite HP. Qed.

(** X22. Whatever the refresh flags of the concurrent calls and however
    the event loop interleaves them: at most one call is inside [_collect]
    at a time, the lock is held exactly then, and [_collect] has been called
    at most once for each call that got past the first test. *)
Theorem collect_is_exclusive (cfg : SchemaConfig) (snapshot : value)
  (stamp : option Q) (flags : list bool) (sys : System) :
  rtc (step cfg) (calls_with (idle snapshot stamp) flags) sys ->
  (count collecting (tasks sys) <= 1)%nat /\
  (_lock (extractor sys) = true <-> count collecting (tasks sys) = 1%nat) /\
  (collect_calls sys <= count started (tasks sys))%nat /\
  (collect_calls sys <= length flags)%nat.
Proof.
  intros Hrun.
  assert (Hinv : lock_invariant (length flags) sys).
  { revert sys Hrun. apply rtc_ind_r.
    - unfold lock_invariant, calls_with. simpl. rewrite length_map.
      split; [reflexivity|]. split; [lia|].
      apply (count_Start in_collect). reflexivity.
    - intros sys1 sys2 _ Hstep IH. eauto using lock_invariant_step. }
  destruct Hinv as (Hlen & Hcalls & Hlock).
  pose proof (count_le_tasks started (tasks sys)).
  repeat split.
  - rewrite Hlock. destruct (_lock (extractor sys)); lia.
  - intros Hheld. now rewrite Hlock, Hheld.
  - intros Hone. rewrite Hlock in Hone. destruct (_lock (extractor sys)); [reflexivity | discriminate].
  - exact Hcalls.
  - lia.
Qed.

Lemma collect_is_exclusive_witness :
  (count collecting (tasks both_returned) <= 1)%nat /\
  (collect_calls both_returned <= 2)%nat.
Proof.
  destruct (collect_is_exclusive default_cfg (JDict []) None [true; true]
              both_returned two_forced_calls_run) as (Hone & _ & _ & Hcalls).
  split; [exact Hone | exact Hcalls].
Defined.

(** *** One call at a time *)

(** [get_schema_snapshot] for a call that no other call interleaves with:
    the clock readings of the two staleness tests and of the timestamp, and
    what [_collect] answers if it is called.  The result comes with the
    extractor after the call and the number of calls of [_collect]. *)
Definition get_schema_snapshot (cfg : SchemaConfig) (ext : Extractor)
  (refresh : bool) (t_test t_retest t_stamp : Q) (collected : result value)
  : result value * Extractor * nat :=
  if refresh || _is_stale cfg ext t_test then
    if refresh || _is_stale cfg ext t_retest then
      match collected with
      | Ok snapshot =>
          (Ok snapshot,
           {| _snapshot := snapshot; _timestamp := Some t_stamp; _lock := false |},
           1%nat)
      | Raise e =>
          (Raise e,
           {| _snapshot := _snapshot ext; _timestamp := _timestamp ext;
              _lock := false |},
           1%nat)
      end
    else (Ok (_snapshot ext), ext, 0%nat)
  else (Ok (_snapshot ext), ext, 0%nat).

Definition outcome (r : result value) : Pc :=
  match r with
  | Ok snapshot => Returned snapshot
  | Raise e => Failed e
  end.

(** The function is the step relation run for a single call. *)
Lemma get_schema_snapshot_run (cfg : SchemaConfig) (snapshot : value)
  (stamp : option Q) (refresh : bool) (t_test t_retest t_stamp : Q)
  (collected : result value) :
  let '(r, ext', calls) :=
    get_schema_snapshot cfg (idle snapshot stamp) refresh t_test t_retest t_stamp
      collected in
  rtc (step cfg) (calls_with (idle snapshot stamp) [refresh])
      {| extractor := ext';
         tasks := [{| refresh := refresh; pc := outcome r |}];
         collect_calls := calls |}.
Proof.
  unfold get_schema_snapshot, calls_with. simpl map.
  set (ext := idle snapshot stamp).
  set (call := {| refresh := refresh; pc := Start |}).
  destruct (refresh || _is_stale cfg ext t_test) eqn:Htest.
  - destruct (refresh || _is_stale cfg ext t_retest) eqn:Hretest.
    + destruct collected as [collected|e].
      * eapply rtc_l.
        { apply (step_enter cfg _ 0 call t_test);
            [reflexivity | reflexivity | exact Htest]. }
        eapply rtc_l.
        { apply (step_collect cfg _ 0 (at_pc call Waiting) t_retest);
            [reflexivity | reflexivity | reflexivity | exact Hretest]. }
        eapply rtc_l.
        { apply (step_collected cfg _ 0 (at_pc call Collecting) t_stamp collected);
            reflexivity. }
        apply rtc_refl.
      * eapply rtc_l.
        { apply (step_enter cfg _ 0 call t_test);
            [reflexivity | reflexivity | exact Htest]. }
        eapply rtc_l.
        { apply (step_collect cfg _ 0 (at_pc call Waiting) t_retest);
            [reflexivity | reflexivity | reflexivity | exact Hretest]. }
        eapply rtc_l.
        { apply (step_failed cfg _ 0 (at_pc call Collecting) e); reflexivity. }
        apply rtc_refl.
    + eapply rtc_l.
      { apply (step_enter cfg _ 0 call t_test);
          [reflexivity | reflexivity | exact Htest]. }
      eapply rtc_l.
      { apply (step_shared cfg _ 0 (at_pc call Waiting) t_retest);
          [reflexivity | reflexivity | reflexivity | exact Hretest]. }
      apply rtc_refl.
  - eapply rtc_l.
    { apply (step_fresh cfg _ 0 call t_test);
        [reflexivity | reflexivity | exact Htest]. }
    apply rtc_refl.
Qed.

(** X23. A snapshot is memoized for the refresh interval, and an empty
    one not at all.  On an extractor that holds a snapshot stamped
    [t_stamp], a call that does not force the refresh returns that snapshot
    without calling [_collect] when the snapshot is non-empty and the clock
    reads no more than [refresh_interval_s] seconds after the stamp; it
    collects when both tests read the clock later than that, and whenever the
    snapshot is empty. *)
Theorem snapshot_memoized (cfg : SchemaConfig) (snapshot : value)
  (t_stamp t_test t_retest t_new : Q) (collected : result value) (fresh : value) :
  let ext := {| _snapshot := snapshot; _timestamp := Some t_stamp; _lock := false |} in
  let refreshed :=
    {| _snapshot := fresh; _timestamp := Some t_new; _lock := false |} in
  (truthy snapshot = true ->
   (t_test - t_stamp <= inject_Z (refresh_interval_s cfg))%Q ->
   get_schema_snapshot cfg ext false t_test t_retest t_new collected
   = (Ok snapshot, ext, 0%nat)) /\
  ((inject_Z (refresh_interval_s cfg) < t_test - t_stamp)%Q ->
   (inject_Z (refresh_interval_s cfg) < t_retest - t_stamp)%Q ->
   get_schema_snapshot cfg ext false t_test t_retest t_new (Ok fresh)
   = (Ok fresh, refreshed, 1%nat)) /\
  (truthy snapshot = false ->
   get_schema_snapshot cfg ext false t_test t_retest t_new (Ok fresh)
   = (Ok fresh, refreshed, 1%nat)).
Proof.
  intros ext refreshed. unfold get_schema_snapshot, _is_stale. simpl. repeat split.
  - intros -> Hfresh%Guardrails.Qgtb_false. simpl. now rewrite Hfresh.
  - intros Hlate%Guardrails.Qgtb_true Hlate'%Guardrails.Qgtb_true.
    rewrite Hlate, Hlate'. now destruct (truthy snapshot).
  - now intros ->.
Qed.

(** X24. A refresh that fails loses nothing: when [_collect] raises, the
    call raises that exception and the memoized snapshot and its timestamp
    stay as they were, so the staleness test answers as before. *)
Theorem failed_refresh_keeps_snapshot (cfg : SchemaConfig) (ext : Extractor)
  (refresh : bool) (t_test t_retest t_stamp : Q) (e : exn) :
  _lock ext = false ->
  refresh || _is_stale cfg ext t_test = true ->
  refresh || _is_stale cfg ext t_retest = true ->
  get_schema_snapshot cfg ext refresh t_test t_retest t_stamp (Raise e)
    = (Raise e, ext, 1%nat) /\
  forall now ext',
    snd (fst (get_schema_snapshot cfg ext refresh t_test t_retest t_stamp (Raise e)))
      = ext' ->
    _is_stale cfg ext' now = _is_stale cfg ext now.
Proof.
  intros Hfree Htest Hretest. unfold get_schema_snapshot. rewrite Htest, Hretest.
  destruct ext as [snapshot stamp lock]. simpl in Hfree. subst lock.
  split; [reflexivity|]. now intros now ext' <-.
Qed.

Lemma failed_refresh_keeps_snapshot_witness :
  let ext := idle first_snapshot (Some 0%Q) in
  get_schema_snapshot default_cfg ext true 10 10 10 (Raise (OSError "connection lost"))
    = (Raise (OSError "connection lost"), ext, 1%nat) /\
  fst (fst (get_schema_snapshot default_cfg ext false 20 20 20
              (Raise (OSError "connection lost"))))
    = Ok first_snapshot.
Proof.
  intros ext. split; [|reflexivity].
  exact (proj1 (failed_refresh_keeps_snapshot default_cfg ext true 10 10 10
                  (OSError "connection lost") eq_refl eq_refl eq_refl)).
Defined.

(** *** [_collect]: the snapshot built from the catalog rows *)

(** The rows of the four catalog queries, by column; a column that can be
    NULL is an [option]. *)
Record TableRow : Type := {
  schema_name : string;
  table_name : string;
  table_description : option string;
  row_estimate : option Q;
  size_bytes : option Z;
}.

Record ColumnRow : Type := {
  column_schema_name : string;
  column_table_name : string;
  column_name : string;
  data_type : string;
  default_value : option string;
  is_not_null : bool;
  column_description : option string;
}.

Record ForeignKeyRow : Type := {
  fk_table_name : string;
  foreign_table_name : string;
  definition : string;
  constraint_name : string;
}.

Record IndexRow : Type := {
  index_table_name : string;
  index_name : string;
  index_definition : string;
  is_unique : bool;
}.

Definition nullable (text : option string) : value :=
  match text with
  | Some s => JStr s
  | None => JNull
  end.

(** [int(x or 0)] for a float: [None] and zero give 0, any other number is
    cut towards zero. *)
Definition int_or_zero (x : option Q) : Z :=
  match x with
  | Some q => Z.quot (Qnum q) (Z.pos (Qden q))
  | None => 0
  end.

Definition table_key (schema table : string) : string := schema ++ "." ++ table.

Definition table_entry (row : TableRow) : value :=
  JDict [("schema", JStr (schema_name row));
         ("name", JStr (table_name row));
         ("description", nullable (table_description row));
         ("row_estimate", JInt (int_or_zero (row_estimate row)));
         ("size_bytes", JInt (default 0 (size_bytes row)));
         ("columns", JDict [])].

Definition stats_entry (row : TableRow) : value :=
  JDict [("row_estimate", JInt (int_or_zero (row_estimate row)));
         ("size_bytes", JInt (default 0 (size_bytes row)))].

(** The table a column row stands for when no table row named it. *)
Definition default_table (col : ColumnRow) : value :=
  JDict [("schema", JStr (column_schema_name col));
         ("name", JStr (column_table_name col));
         ("description", JNull);
         ("row_estimate", JInt 0);
         ("size_bytes", JInt 0);
         ("columns", JDict [])].

Definition column_entry (col : ColumnRow) : value :=
  JDict [("data_type", JStr (data_type col));
         ("default_value", nullable (default_value col));
         ("is_not_null", JBool (is_not_null col));
         ("description", nullable (column_description col))].

Definition fk_entry (fk : ForeignKeyRow) : value :=
  JDict [("constraint", JStr (constraint_name fk));
         ("definition", JStr (definition fk));
         ("table", JStr (fk_table_name fk));
         ("foreign_table", JStr (foreign_table_name fk))].

Definition index_entry (ix : IndexRow) : value :=
  JDict [("index", JStr (index_name ix));
         ("definition", JStr (index_definition ix));
         ("is_unique", JBool (is_unique ix))].

(** [d[key] = entry] for a value that must be a dict. *)
Definition setitem (d : value) (key : string) (entry : value) : result value :=
  match d with
  | JDict fields => Ok (JDict (dict_set fields key entry))
  | _ => Raise (TypeError "object does not support item assignment")
  end.

(** [table["columns"][name] = entry], on the dict stored in the snapshot. *)
Definition set_column (table : value) (name : string) (entry : value) : result value :=
  columns ← subscript table "columns";
  columns ← setitem columns name entry;
  setitem table "columns" columns.

(** The first loop: a table and its statistics for each table row. *)
Fixpoint tables_loop (rows : list TableRow) (tables stats : list (string * value))
  : list (string * value) * list (string * value) :=
  match rows with
  | [] => (tables, stats)
  | row :: rest =>
      let key := table_key (schema_name row) (table_name row) in
      tables_loop rest (dict_set tables key (table_entry row))
                  (dict_set stats key (stats_entry row))
  end.

(** The second loop: [setdefault] finds or enters the table, then the column
    is stored in the table's [columns]. *)
Fixpoint columns_loop (cols : list ColumnRow) (tables : list (string * value))
  : result (list (string * value)) :=
  match cols with
  | [] => Ok tables
  | col :: rest =>
      let key := table_key (column_schema_name col) (column_table_name col) in
      let table := default (default_table col) (dict_get tables key) in
      table ← set_column table (column_name col) (column_entry col);
      columns_loop rest (dict_set tables key table)
  end.

(** The last loop: the indexes of a table, in the order of the rows. *)
Fixpoint indexes_loop (rows : list IndexRow) (indexes : list (string * list value))
  : list (string * list value) :=
  match rows with
  | [] => indexes
  | ix :: rest =>
      let entries := default [] (dict_get indexes (index_table_name ix)) in
      indexes_loop rest
        (dict_set indexes (index_table_name ix) (entries ++ [index_entry ix])%list)
  end.

(** [_collect], given the rows the four queries returned and the text of
    [utcnow().isoformat()]. *)
Definition _collect (generated_at : string) (tables : list TableRow)
  (columns : list ColumnRow) (foreign_keys : list ForeignKeyRow)
  (indexes : list IndexRow) : result value :=
  let (snapshot_tables, table_stats) := tables_loop tables [] [] in
  snapshot_tables ← columns_loop columns snapshot_tables;
  Ok (JDict [("generated_at", JStr generated_at);
             ("tables", JDict snapshot_tables);
             ("foreign_keys", JList (map fk_entry foreign_keys));
             ("indexes",
              JDict (map (fun entry => (fst entry, JList (snd entry)))
                         (indexes_loop indexes [])));
             ("table_stats", JDict table_stats)]).

(** Every table of the snapshot under construction carries a [columns]
    dictionary. *)
Definition with_columns (tables : list (string * value)) : Prop :=
  forall table meta, dict_get tables table = Some meta ->
    exists fields columns,
      meta = JDict fields /\ dict_get fields "columns" = Some (JDict columns).

Lemma getitem_after_set (d : list (string * value)) (k k' : string) (v : value) :
  dict_get (dict_set d k v) k' = if String.eqb k k' then Some v else dict_get d k'.
Proof.
  induction d as [|[k0 v0] d IH]; simpl; [reflexivity|].
  destruct (String.eqb_spec k0 k) as [->|Hne]; simpl.
  - now destruct (String.eqb k k').
  - rewrite IH. destruct (String.eqb_spec k k') as [->|]; [|reflexivity].
    now destruct (String.eqb_spec k0 k').
Qed.

Lemma with_columns_set (tables : list (string * value)) (key : string)
  (fields columns : list (string * value)) :
  with_columns tables -> dict_get fields "columns" = Some (JDict columns) ->
  with_columns (dict_set tables key (JDict fields)).
Proof.
  intros Htables Hfields table meta. rewrite getitem_after_set.
  destruct (String.eqb key table); [intros [= <-]; eauto | apply Htables].
Qed.

Lemma tables_loop_with_columns (rows : list TableRow) :
  forall tables stats,
    with_columns tables -> with_columns (fst (tables_loop rows tables stats)).
Proof.
  induction rows as [|row rest IH]; intros tables stats Htables; [exact Htables|].
  simpl. apply IH. now apply (with_columns_set _ _ _ []).
Qed.

Lemma set_column_Ok (fields columns : list (string * value)) (name : string)
  (entry : value) :
  dict_get fields "columns" = Some (JDict columns) ->
  set_column (JDict fields) name entry
  = Ok (JDict (dict_set fields "columns" (JDict (dict_set columns name entry)))).
Proof. intros Hfields. unfold set_column. simpl. now rewrite Hfields. Qed.

(** The second loop returns, keeps the invariant, and leaves every column it
    went through under its table. *)
Lemma columns_loop_spec (cols : list ColumnRow) :
  forall tables,
    with_columns tables ->
    exists out,
      columns_loop cols tables = Ok out /\ with_columns out /\
      (forall table, is_Some (dict_get tables table) -> is_Some (dict_get out table)) /\
      (forall table fields columns name,
         dict_get tables table = Some (JDict fields) ->
         dict_get fields "columns" = Some (JDict columns) ->
         is_Some (dict_get columns name) ->
         exists fields' columns',
           dict_get out table = Some (JDict fields') /\
           dict_get fields' "columns" = Some (JDict columns') /\
           is_Some (dict_get columns' name)) /\
      Forall (fun col =>
                exists fields columns,
                  dict_get out (table_key (column_schema_name col) (column_table_name col))
                    = Some (JDict fields) /\
                  dict_get fields "columns" = Some (JDict columns) /\
                  is_Some (dict_get columns (column_name col)))
             cols.
Proof.
  induction cols as [|col rest IH]; intros tables Htables.
  - exists tables. simpl. repeat split; eauto.
  - simpl.
    set (key := table_key (column_schema_name col) (column_table_name col)).
    assert (Htable : exists fields columns,
               default (default_table col) (dict_get tables key) = JDict fields /\
               dict_get fields "columns" = Some (JDict columns)).
    { destruct (dict_get tables key) as [meta|] eqn:Hget; simpl.
      - exact (Htables key meta Hget).
      - eexists _, _. split; reflexivity. }
    destruct Htable as (fields & columns & Hdefault & Hfields).
    rewrite Hdefault, (set_column_Ok fields columns _ _ Hfields). simpl.
    set (fields1 := dict_set fields "columns"
                      (JDict (dict_set columns (column_name col) (column_entry col)))).
    assert (Hfields1 : dict_get fields1 "columns"
                       = Some (JDict (dict_set columns (column_name col) (column_entry col)))).
    { unfold fields1. rewrite getitem_after_set. reflexivity. }
    destruct (IH (dict_set tables key (JDict fields1))) as (out & Hout & Hinv & Hkeys & Hkept & Hall).
    { eapply with_columns_set; eauto. }
    exists out. split; [exact Hout|]. split; [exact Hinv|]. repeat split.
    + intros table Hsome. apply Hkeys. rewrite getitem_after_set.
      destruct (String.eqb key table); [eauto | exact Hsome].
    + intros table fields0 columns0 name Hget Hcols Hname.
      destruct (String.eqb_spec key table) as [<-|Hne].
      * apply (Hkept key fields1 (dict_set columns (column_name col) (column_entry col)) name).
        -- rewrite getitem_after_set, String.eqb_refl. reflexivity.
        -- exact Hfields1.
        -- rewrite getitem_after_set.
           destruct (String.eqb (column_name col) name); [eauto|].
           rewrite Hget in Hdefault. simpl in Hdefault. injection Hdefault as <-.
           rewrite Hfields in Hcols. now injection Hcols as <-.
      * apply (Hkept table fields0 columns0 name); [|exact Hcols | exact Hname].
        rewrite getitem_after_set.
        destruct (String.eqb_spec key table); [contradiction | exact Hget].
    + constructor; [|exact Hall].
      apply (Hkept key fields1 (dict_set columns (column_name col) (column_entry col))).
      * rewrite getitem_after_set, String.eqb_refl. reflexivity.
      * exact Hfields1.
      * rewrite getitem_after_set, String.eqb_refl. eauto.
Qed.

Lemma tables_loop_keys (rows : list TableRow) :
  forall tables stats,
    let out := tables_loop rows tables stats in
    (forall key, is_Some (dict_get tables key) -> is_Some (dict_get (fst out) key)) /\
    (forall key, is_Some (dict_get stats key) -> is_Some (dict_get (snd out) key)) /\
    Forall (fun row =>
              let key := table_key (schema_name row) (table_name row) in
              is_Some (dict_get (fst out) key) /\ is_Some (dict_get (snd out) key))
           rows.
Proof.
  induction rows as [|row rest IH]; intros tables stats; simpl; [auto|].
  set (key := table_key (schema_name row) (table_name row)).
  destruct (IH (dict_set tables key (table_entry row))
               (dict_set stats key (stats_entry row))) as (Htables & Hstats & Hall).
  repeat split.
  - intros k Hk. apply Htables. rewrite getitem_after_set.
    destruct (String.eqb key k); [eauto | exact Hk].
  - intros k Hk. apply Hstats. rewrite getitem_after_set.
    destruct (String.eqb key k); [eauto | exact Hk].
  - constructor; [|exact Hall]. split.
    + apply Htables. rewrite getitem_after_set, String.eqb_refl. eauto.
    + apply Hstats. rewrite getitem_after_set, String.eqb_refl. eauto.
Qed.

(** What [_collect] returns, by its parts. *)
Lemma _collect_Ok (generated_at : string) (tables : list TableRow)
  (columns : list ColumnRow) (foreign_keys : list ForeignKeyRow)
  (indexes : list IndexRow) :
  exists snapshot_tables,
    columns_loop columns (fst (tables_loop tables [] [])) = Ok snapshot_tables /\
    _collect generated_at tables columns foreign_keys indexes
    = Ok (JDict [("generated_at", JStr generated_at);
                 ("tables", JDict snapshot_tables);
                 ("foreign_keys", JList (map fk_entry foreign_keys));
                 ("indexes",
                  JDict (map (fun entry => (fst entry, JList (snd entry)))
                             (indexes_loop indexes [])));
                 ("table_stats", JDict (snd (tables_loop tables [] [])))]).
Proof.
  unfold _collect. destruct (tables_loop tables [] []) as [first stats] eqn:Hloop.
  destruct (columns_loop_spec columns first) as (out & Hout & _).
  { pose proof (tables_loop_with_columns tables [] []) as H. rewrite Hloop in H.
    apply H. intros table meta Hget. discriminate Hget. }
  exists out. simpl. split; [exact Hout|]. now rewrite Hout.
Qed.

(** X25. [_collect] returns for every result of the four queries, and
    nothing it was given is lost: every table row is a table of the snapshot
    with an entry in [table_stats], every column row is a column of its
    table (also of a table no table row named), and every foreign key row is
    listed, in order. *)
Theorem _collect_keeps_every_row (generated_at : string) (tables : list TableRow)
  (columns : list ColumnRow) (foreign_keys : list ForeignKeyRow)
  (indexes : list IndexRow) :
  exists snapshot snapshot_tables table_stats,
    _collect generated_at tables columns foreign_keys indexes = Ok snapshot /\
    subscript snapshot "tables" = Ok (JDict snapshot_tables) /\
    subscript snapshot "table_stats" = Ok (JDict table_stats) /\
    subscript snapshot "foreign_keys" = Ok (JList (map fk_entry foreign_keys)) /\
    Forall (fun row =>
              let key := table_key (schema_name row) (table_name row) in
              is_Some (dict_get snapshot_tables key) /\
              is_Some (dict_get table_stats key))
           tables /\
    Forall (fun col =>
              exists fields table_columns,
                dict_get snapshot_tables
                  (table_key (column_schema_name col) (column_table_name col))
                  = Some (JDict fields) /\
                dict_get fields "columns" = Some (JDict table_columns) /\
                is_Some (dict_get table_columns (column_name col)))
           columns.
Proof.
  destruct (_collect_Ok generated_at tables columns foreign_keys indexes)
    as (out & Hout & Hcollect).
  destruct (tables_loop_keys tables [] []) as (_ & _ & Hrows).
  destruct (columns_loop_spec columns (fst (tables_loop tables [] [])))
    as (out' & Hout' & _ & Hkeys & _ & Hcols).
  { apply tables_loop_with_columns. intros table meta Hget. discriminate Hget. }
  rewrite Hout in Hout'. injection Hout' as <-.
  eexists _, out, _. split; [exact Hcollect|].
  split; [reflexivity|]. split; [reflexivity|]. split; [reflexivity|].
  split; [|exact Hcols].
  eapply List.Forall_impl; [|exact Hrows]. simpl. intros row [Ht Hs]. auto.
Qed.

(** X26. The snapshot [_collect] returns is one the rest of the pipeline
    can work on: it is not empty, so it is memoized; the selector cuts a
    slice from it for any ranking and any budget; and that slice has the
    shape the reasoner's bounds check reads, a [tables] dictionary whose
    entries each carry a [columns] dictionary. *)
Theorem collected_snapshot_feeds_selector (generated_at : string)
  (tables : list TableRow) (columns : list ColumnRow)
  (foreign_keys : list ForeignKeyRow) (indexes : list IndexRow)
  (json_dumps : value -> string) (cfg : SchemaConfig) (table_ids : list string) :
  exists snapshot slice,
    _collect generated_at tables columns foreign_keys indexes = Ok snapshot /\
    truthy snapshot = true /\
    SchemaSelector.select_schema_slice json_dumps cfg snapshot table_ids = Ok slice /\
    LlmReasoner.slice_shaped slice.
Proof.
  destruct (_collect_Ok generated_at tables columns foreign_keys indexes)
    as (out & Hout & Hcollect).
  destruct (columns_loop_spec columns (fst (tables_loop tables [] [])))
    as (out' & Hout' & Hinv & _).
  { apply tables_loop_with_columns. intros table meta Hget. discriminate Hget. }
  rewrite Hout in Hout'. injection Hout' as <-.
  destruct (SchemaSelector.project_fks_total (map fk_entry foreign_keys)
              (list_to_set (map fst (SchemaSelector.dict_update []
                 (SchemaSelector.within_budget json_dumps
                    (max_schema_slice_bytes cfg - 0)
                    (SchemaSelector.candidates out table_ids))))))
    as (fk_set & Hfks).
  { apply List.Forall_forall. intros fk (row & <- & _)%in_map_iff.
    eexists. split; [reflexivity|]. split; exact I. }
  eexists _, _. split; [exact Hcollect|]. split; [reflexivity|]. split.
  - unfold SchemaSelector.select_schema_slice. simpl.
    rewrite SchemaSelector.walk_tables_spec. simpl. rewrite Hfks. reflexivity.
  - eexists _, _. split; [reflexivity|]. split; [reflexivity|].
    intros table meta Hget.
    apply SchemaSelector.dict_get_dict_update in Hget as [Hget | Hin];
      [discriminate Hget|].
    apply SchemaSelector.in_within_budget, SchemaSelector.in_candidates in Hin
      as (_ & Hmeta & _).
    destruct (Hinv table meta Hmeta) as (fields & cols & -> & Hcols).
    exists cols. simpl. now rewrite Hcols.
Qed.

End SchemaExtractor.

(** ** [app/cache.py] *)

Module Cache.

(** The client object: whether [self._redis] is set, the in-process
    fallback, and the flag that sends every call to the fallback. *)
Record CacheClient : Type := {
  _redis : bool;
  _fallback : gmap string value;
  _unavailable : bool;
}.

(** What a call into the Redis library does: it answers, raises a
    [RedisError], which the client catches, or raises something else. *)
Inductive reply (A : Type) : Type :=
| Answer (a : A)
| RedisError (msg : string)
| Failure (e : exn).
Arguments Answer {A} a.
Arguments RedisError {A} msg.
Arguments Failure {A} e.

Definition connected (c : CacheClient) : CacheClient :=
  {| _redis := true; _fallback := _fallback c; _unavailable := _unavailable c |}.

Definition unavailable (c : CacheClient) : CacheClient :=
  {| _redis := _redis c; _fallback := _fallback c; _unavailable := true |}.

Definition remember (key : string) (v : value) (c : CacheClient) : CacheClient :=
  {| _redis := _redis c; _fallback := <[key := v]> (_fallback c);
     _unavailable := _unavailable c |}.

(** [connect], given what [redis_async.from_url] does. *)
Definition connect (from_url : reply unit) (c : CacheClient) : result unit * CacheClient :=
  if _redis c then (Ok tt, c)
  else match from_url with
       | Answer _ => (Ok tt, connected c)
       | RedisError _ => (Ok tt, unavailable c)
       | Failure e => (Raise e, c)
       end.

(** [_ensure]: connects if need be, then asserts that there is a client. *)
Definition _ensure (from_url : reply unit) (c : CacheClient) : result unit * CacheClient :=
  let (connecting, c) := if _redis c then (Ok tt, c) else connect from_url c in
  match connecting with
  | Raise e => (Raise e, c)
  | Ok _ =>
      if _redis c then (Ok tt, c) else (Raise (OtherError "AssertionError"), c)
  end.

Section Client.

Variable json_loads : string -> result value.
Variable json_dumps : value -> string.

(** [get_json], given what [from_url] and [redis.get(key)] do if called. *)
Definition get_json (from_url : reply unit) (redis_get : reply (option string))
  (key : string) (c : CacheClient) : result (option value) * CacheClient :=
  if _unavailable c then (Ok (_fallback c !! key), c)
  else
    match _ensure from_url c with
    | (Raise e, c) => (Raise e, c)
    | (Ok _, c) =>
        match redis_get with
        | RedisError _ => (Ok (_fallback c !! key), unavailable c)
        | Failure e => (Raise e, c)
        | Answer None => (Ok None, c)
        | Answer (Some payload) =>
            match json_loads payload with
            | Ok v => (Ok (Some v), c)
            | Raise e => (Raise e, c)
            end
        end
    end.

(** [set_json], given what [from_url] and
    [redis.set(key, json.dumps(value), ex=ttl_seconds)] do if called. *)
Definition set_json (from_url : reply unit) (redis_set : string -> reply unit)
  (key : string) (v : value) (c : CacheClient) : result unit * CacheClient :=
  if _unavailable c then (Ok tt, remember key v c)
  else
    match _ensure from_url c with
    | (Raise e, c) => (Raise e, c)
    | (Ok _, c) =>
        match redis_set (json_dumps v) with
        | Answer _ => (Ok tt, c)
        | RedisError _ => (Ok tt, remember key v (unavailable c))
        | Failure e => (Raise e, c)
        end
    end.

(** X27. A write is read back once Redis is out of reach.  When
    [set_json] runs on a client already marked unavailable, or its Redis call
    raises a [RedisError], the value goes to the in-process fallback: the
    call returns, the client is unavailable from then on, and [get_json] for
    that key returns the value whatever Redis would answer, while the other
    keys of the fallback read as before. *)
Theorem fallback_round_trip (from_url from_url' : reply unit)
  (redis_set : string -> reply unit) (redis_get : reply (option string))
  (key other : string) (v : value) (c : CacheClient) :
  _unavailable c = true \/
  (_redis c = true /\ exists msg, redis_set (json_dumps v) = RedisError msg) ->
  let c' := snd (set_json from_url redis_set key v c) in
  fst (set_json from_url redis_set key v c) = Ok tt /\
  _unavailable c' = true /\
  get_json from_url' redis_get key c' = (Ok (Some v), c') /\
  (other <> key ->
   get_json from_url' redis_get other c' = (Ok (_fallback c !! other), c')).
Proof.
  intros Hdown.
  assert (Hset : set_json from_url redis_set key v c
                 = (Ok tt, remember key v (unavailable c))).
  { unfold set_json, _ensure. destruct Hdown as [Hdown | (Hredis & msg & Hreply)].
    - rewrite Hdown. unfold remember, unavailable. simpl. now rewrite Hdown.
    - rewrite Hredis. destruct (_unavailable c) eqn:Hflag.
      + unfold remember, unavailable. simpl. now rewrite Hflag.
      + simpl. now rewrite Hredis, Hreply. }
  rewrite Hset. simpl. unfold get_json. simpl. repeat split.
  - now rewrite lookup_insert_eq.
  - intros Hne. now rewrite lookup_insert_ne by congruence.
Qed.

(** X28. A client that cannot be created fails the first read with an
    assertion: when no client is set and [from_url] raises a [RedisError],
    [get_json] raises [AssertionError] out of [_ensure] instead of reading the
    fallback; the client is marked unavailable by then, so the next
    [get_json] does read the fallback. *)
Theorem connect_failure_asserts (redis_get redis_get' : reply (option string))
  (from_url' : reply unit) (key : string) (msg : string) (c : CacheClient) :
  _redis c = false -> _unavailable c = false ->
  get_json (RedisError msg) redis_get key c
    = (Raise (OtherError "AssertionError"), unavailable c) /\
  get_json from_url' redis_get' key (unavailable c)
    = (Ok (_fallback c !! key), unavailable c).
Proof.
  intros Hredis Hflag. unfold get_json, _ensure, connect.
  rewrite Hflag, Hredis. simpl. now rewrite Hredis.
Qed.

End Client.

(** A client that is connected, with nothing in its fallback. *)
Definition fresh_client : CacheClient :=
  {| _redis := true; _fallback := ∅; _unavailable := false |}.

Definition closed_client : CacheClient :=
  {| _redis := false; _fallback := ∅; _unavailable := false |}.

Definition redis_down {A : Type} : reply A := RedisError "Connection refused".

Lemma fallback_round_trip_witness :
  let c' := snd (set_json (fun _ => "{}") redis_down (fun _ => redis_down)
                   "schema_snapshot" (JDict [("tables", JDict [])]) fresh_client) in
  get_json (fun _ => Ok JNull) redis_down redis_down "schema_snapshot" c'
  = (Ok (Some (JDict [("tables", JDict [])])), c').
Proof.
  intros c'.
  destruct (fallback_round_trip (fun _ => Ok JNull) (fun _ => "{}") redis_down redis_down
              (fun _ => redis_down) redis_down "schema_snapshot" "other"
              (JDict [("tables", JDict [])]) fresh_client) as (_ & _ & Hget & _).
  - right. split; [reflexivity|]. now exists "Connection refused".
  - exact Hget.
Defined.

Lemma connect_failure_asserts_witness :
  fst (get_json (fun _ => Ok JNull) redis_down (Answer None) "schema_snapshot"
         closed_client)
  = Raise (OtherError "AssertionError").
Proof.
  destruct (connect_failure_asserts (fun _ => Ok JNull) (Answer None) (Answer None)
              (Answer tt) "schema_snapshot" "Connection refused" closed_client
              eq_refl eq_refl) as [Hfirst _].
  unfold redis_down. now rewrite Hfirst.
Defined.

End Cache.

(** ** [app/executor.py] *)

Module Executor.
Import Config.

(** What [asyncio.wait_for(conn.fetch(sql), timeout)] does: the rows, the
    timeout, or an exception of the driver. *)
Inductive fetched : Type :=
| Rows (rows : list value)
| TimedOut
| Failed (e : exn).

(** [execute_sql]; the built-in [TimeoutError] is an [OSError]. *)
Definition execute_sql (cfg : PostgresConfig) (outcome : fetched) : result value :=
  match outcome with
  | TimedOut => Raise (OSError "Query execution timed out")
  | Failed e => Raise e
  | Rows rows =>
      let data := PyFacts.prefix (sample_limit cfg) rows in
      let metadata :=
        JDict [("rows_returned", JInt (Z.of_nat (length data)));
               ("truncated", JBool (Nat.ltb (length data) (length rows)))] in
      Ok (JDict [("status", JStr "success"); ("data", JList data);
                 ("metadata", metadata)])
  end.

(** X29. The executor returns a sample and says so.  With a sample limit
    the configuration accepts, the data are the first [sample_limit] rows of
    the result, never more; [rows_returned] counts them; and [truncated] is
    true exactly when the result had more rows than the limit. *)
Theorem execute_sql_samples (cfg : PostgresConfig) (rows : list value) :
  PostgresConfig_valid cfg = true ->
  exists data truncated,
    execute_sql cfg (Rows rows)
    = Ok (JDict [("status", JStr "success"); ("data", JList data);
                 ("metadata",
                  JDict [("rows_returned", JInt (Z.of_nat (length data)));
                         ("truncated", JBool truncated)])]) /\
    data = take (Z.to_nat (sample_limit cfg)) rows /\
    Z.of_nat (length data) = Z.min (Z.of_nat (length rows)) (sample_limit cfg) /\
    (truncated = true <-> sample_limit cfg < Z.of_nat (length rows)).
Proof.
  unfold PostgresConfig_valid. intros [Hsample _]%andb_true_iff.
  apply Z.leb_le in Hsample.
  assert (Hprefix : PyFacts.prefix (sample_limit cfg) rows
                    = take (Z.to_nat (sample_limit cfg)) rows).
  { unfold PyFacts.prefix. destruct (Z.geb_spec (sample_limit cfg) 0); [reflexivity | lia]. }
  eexists _, _. unfold execute_sql. rewrite Hprefix. split; [reflexivity|].
  split; [reflexivity|]. rewrite length_take. split; [lia|].
  rewrite Nat.ltb_lt. lia.
Qed.

Definition sample_of_two : PostgresConfig := {| sample_limit := 2; max_limit := 1000 |}.

Lemma execute_sql_samples_witness :
  execute_sql sample_of_two (Rows [JDict [("id", JInt 1)]; JDict [("id", JInt 2)];
                                   JDict [("id", JInt 3)]])
  = Ok (JDict [("status", JStr "success");
               ("data", JList [JDict [("id", JInt 1)]; JDict [("id", JInt 2)]]);
               ("metadata", JDict [("rows_returned", JInt 2);
                                   ("truncated", JBool true)])]).
Proof.
  destruct (execute_sql_samples sample_of_two
              [JDict [("id", JInt 1)]; JDict [("id", JInt 2)]; JDict [("id", JInt 3)]]
              eq_refl) as (data & truncated & Hrun & -> & _ & Htruncated).
  rewrite Hrun. simpl.
  assert (Htrue : truncated = true) by (apply Htruncated; simpl; lia).
  now rewrite Htrue.
Defined.

End Executor.

(** ** [app/schema_ranker.py] *)

Module SchemaRanker.

(** [scored.sort(key=lambda x: x[1], reverse=True)]: the sort is stable, so
    an entry goes in front of the entries it was in front of unless they
    score more. *)
Fixpoint insert_scored (entry : string * Q) (sorted : list (string * Q))
  : list (string * Q) :=
  match sorted with
  | [] => [entry]
  | other :: rest =>
      if Qltb (snd entry) (snd other) then other :: insert_scored entry rest
      else entry :: sorted
  end.

Definition sort_scored (scored : list (string * Q)) : list (string * Q) :=
  fold_right insert_scored [] scored.

(** [top_n or self._cfg.ranker_top_n] *)
Definition effective_top_n (ranker_top_n : Z) (top_n : option Z) : Z :=
  match top_n with
  | Some n => if n =? 0 then ranker_top_n else n
  | None => ranker_top_n
  end.

(** [rank_tables], given what [_score_tables] returned. *)
Definition rank_tables (ranker_top_n : Z) (scored : list (string * Q))
  (top_n : option Z) : list string :=
  map fst (PyFacts.prefix (effective_top_n ranker_top_n top_n) (sort_scored scored)).

Lemma insert_scored_perm (entry : string * Q) (sorted : list (string * Q)) :
  Permutation (insert_scored entry sorted) (entry :: sorted).
Proof.
  induction sorted as [|other rest IH]; simpl; [reflexivity|].
  destruct (Qltb (snd entry) (snd other)); [|reflexivity].
  rewrite IH. apply Permutation_swap.
Qed.

Lemma sort_scored_perm (scored : list (string * Q)) :
  Permutation (sort_scored scored) scored.
Proof.
  induction scored as [|entry rest IH]; simpl; [reflexivity|].
  now rewrite insert_scored_perm, IH.
Qed.

Definition scores_no_less (a b : string * Q) : Prop := (snd b <= snd a)%Q.

Lemma insert_scored_sorted (entry : string * Q) (sorted : list (string * Q)) :
  StronglySorted scores_no_less sorted ->
  StronglySorted scores_no_less (insert_scored entry sorted).
Proof.
  induction 1 as [|other rest Hrest IH Hall]; simpl; [repeat constructor|].
  destruct (Qltb (snd entry) (snd other)) eqn:Hlt.
  - constructor; [exact IH|].
    apply RateLimiter.Qltb_true in Hlt.
    rewrite (insert_scored_perm entry rest). constructor; [|exact Hall].
    unfold scores_no_less. lra.
  - apply RateLimiter.Qltb_false in Hlt.
    constructor; [now constructor|]. constructor; [exact Hlt|].
    eapply List.Forall_impl; [|exact Hall]. unfold scores_no_less. intros x Hx. lra.
Qed.

Lemma sort_scored_sorted (scored : list (string * Q)) :
  StronglySorted scores_no_less (sort_scored scored).
Proof.
  induction scored as [|entry rest IH]; simpl; [constructor|].
  now apply insert_scored_sorted.
Qed.

Lemma sorted_app_cross (front back : list (string * Q)) :
  StronglySorted scores_no_less (front ++ back) ->
  forall kept left_out, In kept front -> In left_out back ->
                        scores_no_less kept left_out.
Proof.
  induction front as [|x front IH]; simpl; [intros _ ? ? []|].
  intros Hsorted kept left_out [<- | Hkept] Hleft.
  - apply StronglySorted_inv in Hsorted as [_ Hall].
    rewrite List.Forall_forall in Hall. apply Hall, in_app_iff. now right.
  - apply StronglySorted_inv in Hsorted as [Hrest _]. eauto.
Qed.

(** X30. The ranking is the best of what was scored.  With a positive
    [top_n], [rank_tables] returns [top_n] tables, or all of them when fewer
    were scored; every table it returns was scored; and the tables are the
    first [top_n] of a reordering of the scored tables in which no table
    scores more than one in front of it, so no table left out scores more
    than a table returned. *)
Theorem rank_tables_best (ranker_top_n : Z) (scored : list (string * Q))
  (top_n : option Z) :
  0 < effective_top_n ranker_top_n top_n ->
  let n := Z.to_nat (effective_top_n ranker_top_n top_n) in
  exists ordered,
    Permutation ordered scored /\
    StronglySorted scores_no_less ordered /\
    rank_tables ranker_top_n scored top_n = map fst (take n ordered) /\
    length (rank_tables ranker_top_n scored top_n) = Nat.min n (length scored) /\
    (forall table, In table (rank_tables ranker_top_n scored top_n) ->
                   In table (map fst scored)) /\
    (forall kept left_out, In kept (take n ordered) -> In left_out (drop n ordered) ->
                           (snd left_out <= snd kept)%Q).
Proof.
  intros Hpos n. exists (sort_scored scored).
  pose proof (sort_scored_perm scored) as Hperm.
  pose proof (sort_scored_sorted scored) as Hsorted.
  assert (Hrank : rank_tables ranker_top_n scored top_n
                  = map fst (take n (sort_scored scored))).
  { unfold rank_tables, PyFacts.prefix.
    destruct (Z.geb_spec (effective_top_n ranker_top_n top_n) 0); [reflexivity | lia]. }
  split; [exact Hperm|]. split; [exact Hsorted|]. split; [exact Hrank|].
  split; [|split].
  - rewrite Hrank, length_map, length_take. now rewrite (Permutation_length Hperm).
  - intros table. rewrite Hrank. intros ((t & s) & <- & Hin)%in_map_iff.
    apply in_map_iff. exists (t, s). split; [reflexivity|].
    apply list_elem_of_In. rewrite <- Hperm. apply list_elem_of_In.
    apply list_elem_of_In, (subseteq_take n) in Hin. now apply list_elem_of_In.
  - intros kept left_out Hkept Hleft.
    rewrite <- (take_drop n (sort_scored scored)) in Hsorted.
    exact (sorted_app_cross _ _ Hsorted kept left_out Hkept Hleft).
Qed.

Definition scored_tables : list (string * Q) :=
  [("public.users", 1 # 10); ("public.claims", 7 # 10);
   ("public.customers", 7 # 10); ("public.logs", 0)]%Q.

Lemma rank_tables_best_witness :
  rank_tables 8 scored_tables (Some 2) = ["public.claims"; "public.customers"] /\
  length (rank_tables 8 scored_tables (Some 2)) = 2%nat /\
  forall table, In table (rank_tables 8 scored_tables (Some 2)) ->
                In table (map fst scored_tables).
Proof.
  assert (Hpos : 0 < effective_top_n 8 (Some 2)) by (simpl; lia).
  destruct (rank_tables_best 8 scored_tables (Some 2) Hpos)
    as (ordered & _ & _ & _ & Hlength & Hscored & _).
  split; [reflexivity|]. split; [exact Hlength | exact Hscored].
Defined.

End SchemaRanker.
